(** * wclaude: the supervisor, the interception layer and the command blocklist

    A shallow embedding of [runner.js] and [blocklist.js] and the properties
    their specification states about them.

    JavaScript strings are sequences of UTF-16 code units, numbers that the
    code only counts with are integers, and every effect of the runtime
    (console, timers, the process table, the event queue) is an explicit
    state or an explicit trace. *)

From Stdlib Require Import List NArith ZArith Bool String Ascii Lia.
Import ListNotations.

Open Scope N_scope.

(* ================================================================== *)
(** * JavaScript strings *)
(* ================================================================== *)

(** A string is the list of its UTF-16 code units. *)
Definition jschar := N.
Definition jsstring := list jschar.

(** An ASCII literal of the source, as code units. *)
Definition lit (s : string) : jsstring :=
  map N_of_ascii (list_ascii_of_string s).

(** The double quote, the backslash and the line feed, which the literals
    of this file spell by their code. *)
Definition dq : jsstring := [34].
Definition bs : jsstring := [92].
Definition lf : jsstring := [10].

Fixpoint jsstring_eqb (a b : jsstring) : bool :=
  match a, b with
  | [], [] => true
  | x :: a', y :: b' => N.eqb x y && jsstring_eqb a' b'
  | _, _ => false
  end.

Fixpoint startsWith (p s : jsstring) : bool :=
  match p, s with
  | [], _ => true
  | x :: p', y :: s' => N.eqb x y && startsWith p' s'
  | _ :: _, [] => false
  end.

(** [String.prototype.includes]. *)
Fixpoint includes (p s : jsstring) : bool :=
  startsWith p s ||
  match s with
  | [] => false
  | _ :: s' => includes p s'
  end.

Definition isUpperAscii (c : jschar) : bool := (65 <=? c)%N && (c <=? 90)%N.
Definition isLowerAscii (c : jschar) : bool := (97 <=? c)%N && (c <=? 122)%N.
Definition isAsciiLetter (c : jschar) : bool := isUpperAscii c || isLowerAscii c.

Definition asciiLower (c : jschar) : jschar :=
  if isUpperAscii c then (c + 32)%N else c.
Definition asciiUpper (c : jschar) : jschar :=
  if isLowerAscii c then (c - 32)%N else c.

(** [String.prototype.toLowerCase], one code unit at a time.  Two units
    outside ASCII lower-case into ASCII: the Kelvin sign (U+212A) to [k]
    and the dotted capital I (U+0130) to [i] followed by U+0307.  Every
    other unit outside ASCII lower-cases to units outside ASCII; the
    strings this is compared with are ASCII, so those are left as they
    are. *)
Definition lowerUnit (c : jschar) : jsstring :=
  if isUpperAscii c then [(c + 32)%N]
  else if (c =? 8490)%N then [107%N]
  else if (c =? 304)%N then [105%N; 775%N]
  else [c].

Definition toLowerCase (s : jsstring) : jsstring := flat_map lowerUnit s.

(* ================================================================== *)
(** * Regular expressions *)
(* ================================================================== *)

(** The patterns of the source use literals, classes, [.], [\s], [\d],
    alternation, [*] and [+], with or without the [i] flag; none is
    sticky or global where [test] is called, so [test] has no state. *)

Inductive cset : Type :=
| CChar (c : jschar)
| CRange (lo hi : jschar)
| CUnion (a b : cset)
| CNot (a : cset)
| CDot
| CSpace
| CDigit.

Definition inRange (lo hi c : jschar) : bool := (lo <=? c)%N && (c <=? hi)%N.

(** Line terminators, which [.] does not match. *)
Definition isLineTerminator (c : jschar) : bool :=
  (c =? 10)%N || (c =? 13)%N || (c =? 8232)%N || (c =? 8233)%N.

(** The class [\s]: white space and line terminators. *)
Definition isWhiteSpace (c : jschar) : bool :=
  inRange 9 13 c || (c =? 32)%N || (c =? 160)%N || (c =? 5760)%N ||
  inRange 8192 8202 c || (c =? 8232)%N || (c =? 8233)%N || (c =? 8239)%N ||
  (c =? 8287)%N || (c =? 12288)%N || (c =? 65279)%N.

(** Membership of a code unit in a class.  Under the [i] flag two units
    match when their canonical forms agree; the classes of the source are
    ASCII, and a unit outside ASCII never canonicalises into ASCII, so
    only the ASCII letters fold. *)
Fixpoint cset_mem (ic : bool) (cs : cset) (c : jschar) : bool :=
  match cs with
  | CChar x => if ic then (asciiUpper x =? asciiUpper c)%N else (x =? c)%N
  | CRange lo hi =>
      inRange lo hi c ||
      (ic && (inRange lo hi (asciiUpper c) || inRange lo hi (asciiLower c)))
  | CUnion a b => cset_mem ic a c || cset_mem ic b c
  | CNot a => negb (cset_mem ic a c)
  | CDot => negb (isLineTerminator c)
  | CSpace => isWhiteSpace c
  | CDigit => inRange 48 57 c
  end.

Inductive regex : Type :=
| RNone
| REps
| RSet (cs : cset)
| RCat (a b : regex)
| RAlt (a b : regex)
| RStar (a : regex).

Definition RPlus (a : regex) : regex := RCat a (RStar a).

(** The concatenation of the literal characters of [s]. *)
Fixpoint RLitUnits (s : jsstring) : regex :=
  match s with
  | [] => REps
  | [c] => RSet (CChar c)
  | c :: s' => RCat (RSet (CChar c)) (RLitUnits s')
  end.
Definition RLit (s : string) : regex := RLitUnits (lit s).

Fixpoint RAlts (l : list regex) : regex :=
  match l with
  | [] => RNone
  | [r] => r
  | r :: l' => RAlt r (RAlts l')
  end.

Fixpoint RCats (l : list regex) : regex :=
  match l with
  | [] => REps
  | [r] => r
  | r :: l' => RCat r (RCats l')
  end.

(** A pattern with its flag. *)
Record RegExp : Type := mkRegExp { source : regex; ignoreCase : bool }.

Fixpoint nullable (r : regex) : bool :=
  match r with
  | RNone => false
  | REps => true
  | RSet _ => false
  | RCat a b => nullable a && nullable b
  | RAlt a b => nullable a || nullable b
  | RStar _ => true
  end.

(** The derivative of a pattern by one code unit. *)
Fixpoint deriv (ic : bool) (c : jschar) (r : regex) : regex :=
  match r with
  | RNone => RNone
  | REps => RNone
  | RSet cs => if cset_mem ic cs c then REps else RNone
  | RCat a b =>
      if nullable a
      then RAlt (RCat (deriv ic c a) b) (deriv ic c b)
      else RCat (deriv ic c a) b
  | RAlt a b => RAlt (deriv ic c a) (deriv ic c b)
  | RStar a => RCat (deriv ic c a) (RStar a)
  end.

(** Some prefix of [s] matches [r]. *)
Fixpoint matchesPrefix (ic : bool) (r : regex) (s : jsstring) : bool :=
  nullable r ||
  match s with
  | [] => false
  | c :: s' => matchesPrefix ic (deriv ic c r) s'
  end.

Fixpoint searchFrom (ic : bool) (r : regex) (s : jsstring) : bool :=
  matchesPrefix ic r s ||
  match s with
  | [] => false
  | _ :: s' => searchFrom ic r s'
  end.

(** [RegExp.prototype.test]: the pattern matches somewhere in the string. *)
Definition test (re : RegExp) (s : jsstring) : bool :=
  searchFrom (ignoreCase re) (source re) s.

(** What it is for a string to match a pattern: the language of the
    pattern, against which the matcher above is proved below. *)
Inductive Matches (ic : bool) : regex -> jsstring -> Prop :=
| MEps : Matches ic REps []
| MSet : forall cs c, cset_mem ic cs c = true -> Matches ic (RSet cs) [c]
| MCat : forall a b s t,
    Matches ic a s -> Matches ic b t -> Matches ic (RCat a b) (s ++ t)
| MAltL : forall a b s, Matches ic a s -> Matches ic (RAlt a b) s
| MAltR : forall a b s, Matches ic b s -> Matches ic (RAlt a b) s
| MStarNil : forall a, Matches ic (RStar a) []
| MStarApp : forall a s t,
    Matches ic a s -> Matches ic (RStar a) t -> Matches ic (RStar a) (s ++ t).

(** The length of the longest prefix of [s] that matches [r], counted
    from [n]. *)
Fixpoint longestPrefix (ic : bool) (r : regex) (s : jsstring)
    (n : nat) (best : option nat) : option nat :=
  let best' := if nullable r then Some n else best in
  match s with
  | [] => best'
  | c :: s' => longestPrefix ic (deriv ic c r) s' (S n) best'
  end.

(** [String.prototype.match] with a global pattern that matches no empty
    string: the matches from left to right, each search resuming where the
    last match ended.  The match at a position is taken longest; for the one
    pattern this is used with (two alternatives that begin with different
    characters, each ending in a greedy [[^ ]+]) that is the match the
    backtracking matcher of the runtime finds. *)
Fixpoint matchAllFuel (fuel : nat) (re : RegExp) (s : jsstring)
    : list jsstring :=
  match fuel with
  | O => []
  | S fuel' =>
      match s with
      | [] => []
      | _ :: s' =>
          match longestPrefix (ignoreCase re) (source re) s 0%nat None with
          | Some (S k) =>
              firstn (S k) s :: matchAllFuel fuel' re (skipn (S k) s)
          | _ => matchAllFuel fuel' re s'
          end
      end
  end.

Definition matchAll (re : RegExp) (s : jsstring) : list jsstring :=
  matchAllFuel (List.length s) re s.

(* ================================================================== *)
(** * blocklist.js *)
(* ================================================================== *)

Module Blocklist.

Record CygpathRule : Type := mkCygpathRule {
  c_name : jsstring;
  pattern : RegExp;
  c_reason : jsstring
}.

Record SafetyRule : Type := mkSafetyRule {
  s_name : jsstring;
  detect : RegExp;
  unless : RegExp;
  s_reason : jsstring
}.

Definition quote : cset := CChar 39.
Definition alnum : cset :=
  CUnion (CRange 65 90) (CUnion (CRange 97 122) (CRange 48 57)).
Definition slash : regex := RSet (CChar 47).
Definition backslash : regex := RSet (CChar 92).

(** [/'[^']*'[^']*'/] *)
Definition nestedQuotesPattern : RegExp :=
  mkRegExp
    (RCats [RSet quote; RStar (RSet (CNot quote)); RSet quote;
            RStar (RSet (CNot quote)); RSet quote])
    false.

(** [/\$\(|`|\\n|\\r/]: in a pattern [\\n] is a backslash followed by the
    letter n. *)
Definition shellExpansionPattern : RegExp :=
  mkRegExp
    (RAlts [RLit "$("; RLit "`";
            RCat backslash (RLit "n"); RCat backslash (RLit "r")])
    false.

(** [/\\\\\\\\[A-Za-z0-9]|\/\/[A-Za-z0-9]+\/[A-Za-z0-9]/] *)
Definition uncPathPattern : RegExp :=
  mkRegExp
    (RAlt
       (RCats [backslash; backslash; backslash; backslash; RSet alnum])
       (RCats [slash; slash; RPlus (RSet alnum); slash; RSet alnum]))
    false.

Definition cygpathRules : list CygpathRule :=
  [ mkCygpathRule (lit "nested-quotes") nestedQuotesPattern
      (lit "Path contains nested quotes (cygpath crash risk) - use Read/Glob tools instead");
    mkCygpathRule (lit "shell-expansion") shellExpansionPattern
      (lit "Path contains shell expansion (cygpath crash risk) - use Read/Glob tools instead");
    mkCygpathRule (lit "unc-path") uncPathPattern
      (lit "UNC network path detected (cygpath crash risk) - map drive first or use local path") ].

Definition anyDot : regex := RStar (RSet CDot).
Definition spaces1 : regex := RPlus (RSet CSpace).
Definition digits1 : regex := RPlus (RSet CDigit).

Definition safetyRules : list SafetyRule :=
  [ mkSafetyRule (lit "dir-recursive")
      (* /dir.*\/s/i *)
      (mkRegExp (RCats [RLit "dir"; anyDot; RLit "/s"]) true)
      (* /\*\.|\.json|\.md|\.txt|\.sh|\.toml|\.xml|\.cs|\.js|\.ts|\.py/i *)
      (mkRegExp
         (RAlts [RLit "*."; RLit ".json"; RLit ".md"; RLit ".txt"; RLit ".sh";
                 RLit ".toml"; RLit ".xml"; RLit ".cs"; RLit ".js"; RLit ".ts";
                 RLit ".py"])
         true)
      (lit "dir /s without file pattern - use dir " ++ dq ++ lit "path" ++ bs
         ++ lit "*.ext" ++ dq ++ lit " /s or Glob tool");
    mkSafetyRule (lit "find-no-maxdepth")
      (* /find.*(Users\/|\/c\/Users|\/home\/[^\/]+\/|\.claude)/i *)
      (mkRegExp
         (RCats [RLit "find"; anyDot;
                 RAlts [RLit "Users/"; RLit "/c/Users";
                        RCats [RLit "/home/"; RPlus (RSet (CNot (CChar 47)));
                               slash];
                        RLit ".claude"]])
         true)
      (* /-maxdepth|timeout/i *)
      (mkRegExp (RAlt (RLit "-maxdepth") (RLit "timeout")) true)
      (lit "find on user directory without -maxdepth - add -maxdepth N or use Glob tool");
    mkSafetyRule (lit "tree-no-depth")
      (* /tree.*(Users\/|\.claude|\/c\/Users|\/home)/i *)
      (mkRegExp
         (RCats [RLit "tree"; anyDot;
                 RAlts [RLit "Users/"; RLit ".claude"; RLit "/c/Users";
                        RLit "/home"]])
         true)
      (* /-L\s+\d+|-l/i *)
      (mkRegExp (RAlt (RCats [RLit "-L"; spaces1; digits1]) (RLit "-l")) true)
      (lit "tree without depth limit - add -L N or use ls");
    mkSafetyRule (lit "git-all-no-limit")
      (* /git\s+(log|diff|show).*--all/i *)
      (mkRegExp
         (RCats [RLit "git"; spaces1;
                 RAlts [RLit "log"; RLit "diff"; RLit "show"];
                 anyDot; RLit "--all"])
         true)
      (* /-n\s+\d+|--max-count/i *)
      (mkRegExp (RAlt (RCats [RLit "-n"; spaces1; digits1]) (RLit "--max-count"))
         true)
      (lit "git --all without limit - add -n N or --max-count=N") ].

Record Config : Type := mkConfig { maxPathLength : nat }.
Definition config : Config := mkConfig 260%nat.

(** The result [{ allowed, reason? }]. *)
Record Validation : Type := mkValidation {
  allowed : bool;
  reason : option jsstring
}.

Definition allow : Validation := mkValidation true None.
Definition deny (r : jsstring) : Validation := mkValidation false (Some r).

Definition unbalancedReason : jsstring :=
  lit "Command has unbalanced quotes (cygpath crash risk) - ensure quotes are paired".
Definition pathLengthReason : jsstring :=
  lit "Path exceeds 260 characters (cygpath crash risk) - use shorter paths".

(** [(command.match(/'/g) || []).length] *)
Definition singleQuoteCount (command : jsstring) : nat :=
  count_occ N.eq_dec command 39%N.

(** The loop over [cygpathRules]: the reason of the first rule whose
    pattern matches. *)
Fixpoint firstCygpath (rules : list CygpathRule) (command : jsstring)
    : option jsstring :=
  match rules with
  | [] => None
  | rule :: rest =>
      if test (pattern rule) command then Some (c_reason rule)
      else firstCygpath rest command
  end.

(** [/[A-Za-z]:\\[^ ]+|\/[^ ]+/g] *)
Definition pathPattern : RegExp :=
  mkRegExp
    (RAlt
       (RCats [RSet (CUnion (CRange 65 90) (CRange 97 122)); RSet (CChar 58);
               backslash; RPlus (RSet (CNot (CChar 32)))])
       (RCat slash (RPlus (RSet (CNot (CChar 32))))))
    false.

Definition pathMatches (command : jsstring) : list jsstring :=
  matchAll pathPattern command.

Definition pathTooLong (command : jsstring) : bool :=
  existsb (fun p => Nat.ltb (maxPathLength config) (List.length p))
          (pathMatches command).

(** The condition of the loop over [safetyRules]. *)
Definition ruleFires (rule : SafetyRule) (command : jsstring) : bool :=
  test (detect rule) command && negb (test (unless rule) command).

Fixpoint firstSafety (rules : list SafetyRule) (command : jsstring)
    : option jsstring :=
  match rules with
  | [] => None
  | rule :: rest =>
      if ruleFires rule command then Some (s_reason rule)
      else firstSafety rest command
  end.

(** [validateCommand], on a string argument (any other argument is
    allowed by the first guard). *)
Definition validateCommand (command : jsstring) : Validation :=
  match command with
  | [] => allow
  | _ =>
      if Nat.odd (singleQuoteCount command) then deny unbalancedReason
      else
        match firstCygpath cygpathRules command with
        | Some r => deny r
        | None =>
            if pathTooLong command then deny pathLengthReason
            else
              match firstSafety safetyRules command with
              | Some r => deny r
              | None => allow
              end
        end
  end.

End Blocklist.

Close Scope N_scope.

(* ================================================================== *)
(** * runner.js: pure functions *)
(* ================================================================== *)

Module Runner.

Open Scope Z_scope.

Record Config : Type := mkConfig {
  MAX_CRASH_RESTARTS : Z;
  CRASH_WINDOW_MS : Z;
  MAX_NETWORK_RETRIES : Z;
  NETWORK_CHECK_HOST : jsstring;
  NETWORK_BACKOFF_BASE_MS : Z;
  NETWORK_BACKOFF_MAX_MS : Z
}.

Definition CONFIG : Config :=
  mkConfig 3 60000 10 (lit "api.anthropic.com") 5000 60000.

(** [.replace(/\\/g, '/')] *)
Definition replaceBackslashes (s : jsstring) : jsstring :=
  map (fun c => if (c =? 92)%N then 47%N else c) s.

(** [.replace(/^([A-Z]):/i, '/$1')] *)
Definition replaceDrive (s : jsstring) : jsstring :=
  match s with
  | c :: d :: rest =>
      if cset_mem true (CRange 65%N 90%N) c && (d =? 58)%N
      then 47%N :: c :: rest
      else s
  | _ => s
  end.

(** [.replace(/^\/[A-Z]/i, match => match.toLowerCase())] *)
Definition lowerLeading (s : jsstring) : jsstring :=
  match s with
  | c :: d :: rest =>
      if (c =? 47)%N && cset_mem true (CRange 65%N 90%N) d
      then toLowerCase [c; d] ++ rest
      else s
  | _ => s
  end.

Definition windowsToPosix (windowsPath : jsstring) : jsstring :=
  lowerLeading (replaceDrive (replaceBackslashes windowsPath)).

(** A path the translator leaves alone: no backslash, no drive prefix, no
    capital after a leading slash. *)
Definition translated (p : jsstring) : Prop :=
  ~ In 92%N p /\ replaceDrive p = p /\ lowerLeading p = p.

(** The numbers [calculateBackoff] can return for integer arguments: an
    integer, a number that is not an integer ([num / den], [den] a power
    of two), negative infinity, or NaN.  The two zeros are one [Integer 0]. *)
Inductive JsNumber : Type :=
| Integer (z : Z)
| Fraction (num : Z) (den : positive)
| NegInfinity
| NaN.

(** [Math.min(baseMs * Math.pow(2, attempt - 1), maxMs)] on doubles, for
    arguments that are integers a double holds.  [Math.pow(2, k)] is exact
    from [2^-1074] to [2^1023], infinite above and zero below; the product
    of such an integer with a power of two is exact, or overflows to an
    infinity from [2^1024] on; zero times infinity is NaN, and [Math.min]
    with NaN is NaN. *)
Definition calculateBackoff (attempt baseMs maxMs : Z) : JsNumber :=
  let k := attempt - 1 in
  if 1024 <=? k then
    if 0 <? baseMs then Integer maxMs
    else if baseMs =? 0 then NaN
    else NegInfinity
  else if 0 <=? k then
    let product := baseMs * 2 ^ k in
    if 2 ^ 1024 <=? product then Integer maxMs
    else if product <=? - 2 ^ 1024 then NegInfinity
    else Integer (Z.min product maxMs)
  else if -1074 <=? k then
    let den := 2 ^ (- k) in
    if maxMs * den <=? baseMs then Integer maxMs
    else if baseMs mod den =? 0 then Integer (baseMs / den)
    else Fraction baseMs (Z.to_pos den)
  else Integer (Z.min 0 maxMs).

(** What the host entry point can throw: [null] or [undefined], or a value
    with an optional string [code] and an optional string [message] (an
    [Error]; a thrown primitive has neither). *)
Inductive Thrown : Type :=
| ThrownNullish
| ThrownError (code message : option jsstring).

Definition networkErrorCodes : list jsstring :=
  map lit ["ENOTFOUND"; "ETIMEDOUT"; "ECONNREFUSED"; "ECONNRESET";
           "ENETUNREACH"; "EAI_AGAIN"; "EHOSTUNREACH"; "EPIPE"]%string.

Definition networkErrorMessages : list jsstring :=
  map lit ["network"; "fetch failed"; "socket hang up"; "ENOTFOUND";
           "ETIMEDOUT"; "getaddrinfo"; "connect ECONNREFUSED"]%string.

Definition isNetworkError (err : Thrown) : bool :=
  match err with
  | ThrownNullish => false
  | ThrownError code message =>
      match code with
      | Some c =>
          negb (jsstring_eqb c []) && existsb (jsstring_eqb c) networkErrorCodes
      | None => false
      end
      ||
      let message' :=
        toLowerCase (match message with Some m => m | None => [] end) in
      existsb (fun pattern => includes (toLowerCase pattern) message')
              networkErrorMessages
  end.

(* ------------------------------------------------------------------ *)
(** ** The supervisor *)
(* ------------------------------------------------------------------ *)

(** The three counters of the module. *)
Record RestartState : Type := mkRestartState {
  crashRestartCount : Z;
  lastCrashTime : Z;
  networkRetryCount : Z
}.

Definition initialRestartState : RestartState := mkRestartState 0 0 0.

(** What one [import] of the host entry point does. *)
Inductive Outcome : Type :=
| Completes
| Throws (err : Thrown).

(** The environment of a run of the supervisor: [entry k] is what the
    [k]-th import of the entry point does, [now k] is [Date.now()] in the
    handler of its failure, and [probe k j] is the answer of the [j]-th
    connectivity check of the wait that follows it. *)
Record World : Type := mkWorld {
  entry : nat -> Outcome;
  now : nat -> Z;
  probe : nat -> nat -> bool
}.

(** The lines the supervisor prints. *)
Inductive Diagnostic : Type :=
| NetworkErrorDetected (message : option jsstring)
| NoInternetRetry (retry max backoffMs : Z)
| ConnectionRestored
| NoInternetStopping (max : Z)
| CrashedStopping (max windowMs : Z)
| CrashedError (message : option jsstring)
| CrashedRestarting (count max : Z).

Inductive Effect : Type :=
| ImportCli
| ConsoleLog (d : Diagnostic)
| ConsoleWarn (d : Diagnostic)
| ConsoleError (d : Diagnostic)
| SetTimeout (ms : Z)
| DnsLookup (host : jsstring).

(** How [runWithAutoRestart] ends: its loop breaks, the process exits, or
    an exception leaves the handler. *)
Inductive Termination : Type :=
| NormalExit
| ProcessExit (code : Z)
| HandlerThrew.

(** The loop of [waitForConnectivity], from retry count [count] at probe
    [j]; [None] when the fuel runs out.  The effects hold delays that are
    integers: a delay that is not one has no effect here and gives [None]
    too, which from a count of zero on, with the delays of [CONFIG], does
    not happen. *)
Fixpoint waitLoop (fuel : nat) (w : World) (run j : nat) (count : Z)
    (tr : list Effect) : option (bool * Z * list Effect) :=
  match fuel with
  | O => None
  | S fuel' =>
      if count <? MAX_NETWORK_RETRIES CONFIG then
        let count' := count + 1 in
        match calculateBackoff count' (NETWORK_BACKOFF_BASE_MS CONFIG)
                               (NETWORK_BACKOFF_MAX_MS CONFIG) with
        | Integer backoffMs =>
            let tr' :=
              tr ++ [ConsoleWarn
                       (NoInternetRetry count' (MAX_NETWORK_RETRIES CONFIG)
                                        backoffMs);
                     SetTimeout backoffMs;
                     DnsLookup (NETWORK_CHECK_HOST CONFIG)] in
            if probe w run j
            then Some (true, 0, tr' ++ [ConsoleLog ConnectionRestored])
            else waitLoop fuel' w run (S j) count' tr'
        | _ => None
        end
      else Some (false, count, tr)
  end.

Definition waitForConnectivity (w : World) (run : nat) (st : RestartState)
    (tr : list Effect) : option (bool * RestartState * list Effect) :=
  match waitLoop (S (Z.to_nat (MAX_NETWORK_RETRIES CONFIG))) w run 0 0 tr with
  | Some (connected, count, tr') =>
      Some (connected,
            mkRestartState (crashRestartCount st) (lastCrashTime st) count,
            tr')
  | None => None
  end.

(** What the handler of a failure decides. *)
Inductive Decision : Type :=
| Restart
| Stop (t : Termination).

(** The body of the [catch] of [runWithAutoRestart], for the failure of
    run [run]. *)
Definition onFailure (w : World) (run : nat) (err : Thrown)
    (st : RestartState) (tr : list Effect)
    : option (Decision * RestartState * list Effect) :=
  let now := now w run in
  if isNetworkError err then
    let message :=
      match err with ThrownError _ m => m | ThrownNullish => None end in
    match waitForConnectivity w run st
            (tr ++ [ConsoleWarn (NetworkErrorDetected message)]) with
    | None => None
    | Some (connected, st', tr') =>
        if connected then Some (Restart, st', tr')
        else
          Some (Stop (ProcessExit 1), st',
                tr' ++ [ConsoleError
                          (NoInternetStopping (MAX_NETWORK_RETRIES CONFIG))])
    end
  else
    let count0 :=
      if now - lastCrashTime st >? CRASH_WINDOW_MS CONFIG then 0
      else crashRestartCount st in
    let count := count0 + 1 in
    let st' := mkRestartState count now (networkRetryCount st) in
    if count >=? MAX_CRASH_RESTARTS CONFIG then
      let tr' :=
        tr ++ [ConsoleError
                 (CrashedStopping (MAX_CRASH_RESTARTS CONFIG)
                                  (CRASH_WINDOW_MS CONFIG))] in
      match err with
      | ThrownNullish => Some (Stop HandlerThrew, st', tr')
      | ThrownError _ message =>
          Some (Stop (ProcessExit 1), st',
                tr' ++ [ConsoleError (CrashedError message)])
      end
    else
      Some (Restart, st',
            tr ++ [ConsoleWarn
                     (CrashedRestarting count (MAX_CRASH_RESTARTS CONFIG));
                   SetTimeout 1000]).

(** The result of a run of the supervisor: how it ended, the counters, what
    it did, and how many times it imported the entry point. *)
Record Run : Type := mkRun {
  termination : Termination;
  finalState : RestartState;
  effects : list Effect;
  imports : nat
}.

(** [runWithAutoRestart]: the loop, from its [run]-th turn; [None] when the
    fuel runs out, the loop having no bound of its own. *)
Fixpoint runWithAutoRestart (fuel : nat) (w : World) (run : nat)
    (st : RestartState) (tr : list Effect) : option Run :=
  match fuel with
  | O => None
  | S fuel' =>
      match entry w run with
      | Completes => Some (mkRun NormalExit st (tr ++ [ImportCli]) (S run))
      | Throws err =>
          match onFailure w run err st (tr ++ [ImportCli]) with
          | None => None
          | Some (Restart, st', tr') =>
              runWithAutoRestart fuel' w (S run) st' tr'
          | Some (Stop t, st', tr') => Some (mkRun t st' tr' (S run))
          end
      end
  end.

(** The restarts of a run: the imports after the first. *)
Definition restarts (r : Run) : nat := pred (imports r).

End Runner.

(* ================================================================== *)
(** * runner.js: the permission hook and the settings hook *)
(* ================================================================== *)

(** A value [JSON.parse] returns.  A number is only ever tested for being
    zero here, so the integers stand for the numbers.  The members of an
    object are in insertion order. *)
#[warnings="-register-all"]
Inductive JSON : Type :=
| JNull
| JBool (b : bool)
| JNumber (n : Z)
| JString (s : jsstring)
| JArray (items : list JSON)
| JObject (members : list (jsstring * JSON)).

(** What [JSON.parse] does with a text: it throws, or returns a value. *)
Inductive ParseResult : Type :=
| SyntaxError
| Parsed (v : JSON).

Module Json.

Fixpoint lookup (key : jsstring) (members : list (jsstring * JSON))
    : option JSON :=
  match members with
  | [] => None
  | (k, v) :: rest => if jsstring_eqb k key then Some v else lookup key rest
  end.


(** [value.key] on a value that is not [null], for a key that is neither
    [length] nor an index: the member of an object, [undefined] ([None]) on
    anything else. *)
Definition member (key : jsstring) (v : JSON) : option JSON :=
  match v with
  | JObject members => lookup key members
  | _ => None
  end.

Definition truthy (v : JSON) : bool :=
  match v with
  | JNull => false
  | JBool b => b
  | JNumber n => negb (Z.eqb n 0)
  | JString s => negb (jsstring_eqb s [])
  | JArray _ => true
  | JObject _ => true
  end.


End Json.

Module Hooks.

Import Json.

(** The project a notification names: [path.basename(request.cwd)], left
    to the runtime, or ['Unknown']. *)
Inductive ProjectFolder : Type :=
| Unknown
| Basename (cwd : jsstring).

(** A call of [notifier.notify]; its title is
    [`${projectFolder} - Input Required`]. *)
Record Notification : Type := mkNotification {
  projectFolder : ProjectFolder;
  message : jsstring
}.

(** What a hook handler returns: the empty string, or [JSON.stringify] of
    a value. *)
Inductive Response : Type :=
| EmptyString
| Stringified (v : JSON).

Definition excludedTools : list jsstring :=
  [lit "AskUserQuestion"; lit "ExitPlanMode"].

Definition allowDecision : JSON :=
  JObject
    [(lit "hookSpecificOutput",
      JObject
        [(lit "hookEventName", JString (lit "PermissionRequest"));
         (lit "decision", JObject [(lit "behavior", JString (lit "allow"))])])].

(** [excludedTools.includes(toolName)] *)
Definition isExcluded (toolName : option JSON) : bool :=
  match toolName with
  | Some (JString t) => existsb (jsstring_eqb t) excludedTools
  | _ => false
  end.

Definition notificationMessage (toolName : option JSON) : jsstring :=
  match toolName with
  | Some (JString t) =>
      if jsstring_eqb t (lit "AskUserQuestion")
      then lit "Claude is asking a question"
      else if jsstring_eqb t (lit "ExitPlanMode")
      then lit "Plan ready for review"
      else t ++ lit " needs approval"
  | _ => lit " needs approval"
  end.

(** [handlePermissionRequest], from the result of [JSON.parse(jsonInput)]
    on: the response and the notifications sent.  Whatever is thrown inside
    the [try] (by the parser, by reading a property of [null], by
    [path.basename] on a value that is not a string) ends in the [catch],
    which answers with the allow decision; [notifier.notify] is not waited
    for and does not throw. *)
Definition handlePermissionRequest (input : ParseResult)
    : Response * list Notification :=
  match input with
  | SyntaxError => (Stringified allowDecision, [])
  | Parsed JNull => (Stringified allowDecision, [])
  | Parsed request =>
      let toolName := member (lit "tool_name") request in
      if isExcluded toolName then
        match member (lit "cwd") request with
        | Some (JString cwd) =>
            (EmptyString,
             [mkNotification
                (if truthy (JString cwd) then Basename cwd else Unknown)
                (notificationMessage toolName)])
        | Some cwd =>
            if truthy cwd then (Stringified allowDecision, [])
            else (EmptyString,
                  [mkNotification Unknown (notificationMessage toolName)])
        | None =>
            (EmptyString,
             [mkNotification Unknown (notificationMessage toolName)])
        end
      else (Stringified allowDecision, [])
  end.

(* ------------------------------------------------------------------ *)
(** ** Hook 7: [fs.readFileSync] *)
(* ------------------------------------------------------------------ *)




(** The entry the hook injects. *)
Definition injectedHook : JSON :=
  JArray
    [JObject
       [(lit "hooks",
         JArray
           [JObject
              [(lit "type", JString (lit "command"));
               (lit "command",
                JString (lit "node -e " ++ dq ++ lit "__RUNNER_PERMISSION_HOOK__"
                           ++ dq))]])]].




End Hooks.

(* ================================================================== *)
(** * runner.js: the lifecycle hooks *)
(* ================================================================== *)

Module Lifecycle.

Open Scope Z_scope.

(** An error a runtime primitive throws, with its [code]. *)
Record JsError : Type := mkJsError {
  code : option jsstring;
  errorMessage : jsstring
}.

(** The values the termination primitives return. *)
Inductive JsValue : Type :=
| Undefined
| Boolean (b : bool).

(** How a call ends. *)
Inductive Completion (A : Type) : Type :=
| Return (v : A)
| Throw (e : JsError).
Arguments Return {A} v.
Arguments Throw {A} e.

Inductive Signal : Type :=
| NoSignal
| SignalName (name : jsstring)
| SignalNumber (n : Z).

(** A command given to [execSync]:
    [`taskkill /T /F /PID ${pid}`] with its timeout. *)
Record Command : Type := Taskkill { targetPid : Z; timeout : Z }.

(** [err.code === name] *)
Definition hasCode (err : JsError) (name : string) : bool :=
  match code err with
  | Some c => jsstring_eqb c (lit name)
  | None => false
  end.

Section Hooks.

(** The primitives of the runtime the hooks wrap and call. *)
Variable originalProcessKill : Z -> Signal -> Completion JsValue.
Variable execSync : Command -> Completion unit.

(** Hook 4: [process.kill]; the result and the commands run. *)
Definition processKill (pid : Z) (signal : Signal)
    : Completion JsValue * list Command :=
  match originalProcessKill pid signal with
  | Return v => (Return v, [])
  | Throw err =>
      if hasCode err "EPERM" then
        match execSync (Taskkill pid 5000) with
        | Return _ => (Return Undefined, [Taskkill pid 5000])
        | Throw _ => (Return Undefined, [Taskkill pid 5000])
        end
      else if hasCode err "ESRCH" then (Return Undefined, [])
      else (Throw err, [])
  end.

(** A subprocess handle: its [pid], [undefined] when the process never
    started. *)
Record ChildProcess : Type := mkChildProcess { pid : option Z }.

Variable originalChildProcessKill :
  ChildProcess -> Signal -> Completion JsValue.

(** [if (this.pid)] *)
Definition truthyPid (this : ChildProcess) : option Z :=
  match pid this with
  | Some p => if p =? 0 then None else Some p
  | None => None
  end.

(** Hook 5: [ChildProcess.prototype.kill]. *)
Definition childProcessKill (this : ChildProcess) (signal : Signal)
    : Completion JsValue * list Command :=
  match originalChildProcessKill this signal with
  | Return v => (Return v, [])
  | Throw err =>
      if hasCode err "EPERM" || hasCode err "ESRCH" then
        match truthyPid this with
        | Some p =>
            match execSync (Taskkill p 5000) with
            | Return _ => (Return Undefined, [Taskkill p 5000])
            | Throw _ => (Return Undefined, [Taskkill p 5000])
            end
        | None => (Return Undefined, [])
        end
      else (Throw err, [])
  end.

End Hooks.

End Lifecycle.

(* ================================================================== *)
(** * runner.js: synthetic subprocesses and the event queue *)
(* ================================================================== *)

Module Events.

Open Scope Z_scope.

(** The three emitters of a subprocess object. *)
Inductive Channel : Type := Self | Stdout | Stderr.

(** An emitter: the subprocess it belongs to and which of the three. *)
Definition Emitter : Type := (nat * Channel)%type.

Inductive Payload : Type :=
| NoArgument
| Data (buffer : jsstring)
| ExitStatus (status : Z).

(** A call of [emit]. *)
Record Emission : Type := mkEmission {
  target : Emitter;
  event : jsstring;
  payload : Payload
}.

(** A listener registered with [on]; [listenerId] names the callback. *)
Record Listener : Type := mkListener {
  source : Emitter;
  eventName : jsstring;
  listenerId : nat
}.

(** The part of the runtime the synthetic subprocess lives in: the
    registered listeners, the [process.nextTick] queue, the calls of
    listeners made so far, and the number of subprocess objects created. *)
Record Loop : Type := mkLoop {
  listeners : list Listener;
  tickQueue : list (list Emission);
  delivered : list (nat * Emission);
  created : nat
}.

Definition channel_eqb (a b : Channel) : bool :=
  match a, b with
  | Self, Self | Stdout, Stdout | Stderr, Stderr => true
  | _, _ => false
  end.

Definition emitter_eqb (a b : Emitter) : bool :=
  Nat.eqb (fst a) (fst b) && channel_eqb (snd a) (snd b).

Definition listensTo (e : Emission) (l : Listener) : bool :=
  emitter_eqb (source l) (target e) && jsstring_eqb (eventName l) (event e).

(** [emitter.on(event, listener)] *)
Definition on (em : Emitter) (ev : jsstring) (id : nat) (loop : Loop) : Loop :=
  mkLoop (listeners loop ++ [mkListener em ev id]) (tickQueue loop)
         (delivered loop) (created loop).

(** The calls of listeners one emission makes: the listeners of the event
    on that emitter, in the order they were registered. *)
Definition calls (ls : list Listener) (e : Emission) : list (nat * Emission) :=
  map (fun l => (listenerId l, e)) (filter (listensTo e) ls).

(** [emitter.emit(event, payload)] *)
Definition emit (e : Emission) (loop : Loop) : Loop :=
  mkLoop (listeners loop) (tickQueue loop)
         (delivered loop ++ calls (listeners loop) e)
         (created loop).

(** [process.nextTick(task)], a task being the emissions it makes. *)
Definition nextTick (task : list Emission) (loop : Loop) : Loop :=
  mkLoop (listeners loop) (tickQueue loop ++ [task]) (delivered loop)
         (created loop).

Definition runTask (task : list Emission) (loop : Loop) : Loop :=
  fold_left (fun l e => emit e l) task loop.

(** The queued tasks run in order once the current synchronous code has
    returned. *)
Definition runTicks (loop : Loop) : Loop :=
  fold_left (fun l task => runTask task l) (tickQueue loop)
    (mkLoop (listeners loop) [] (delivered loop) (created loop)).

(** The object [createBlockedChildProcess] returns. *)
Record BlockedChild : Type := mkBlockedChild {
  identity : nat;
  pid : Z;
  killed : bool
}.

Definition blockedTask (id : nat) (reason : jsstring) : list Emission :=
  [mkEmission (id, Stderr) (lit "data")
     (Data (lit "[blocked] " ++ reason ++ lf));
   mkEmission (id, Stdout) (lit "close") NoArgument;
   mkEmission (id, Stderr) (lit "close") NoArgument;
   mkEmission (id, Self) (lit "close") (ExitStatus 1)].

Definition createBlockedChildProcess (reason : jsstring) (loop : Loop)
    : BlockedChild * Loop :=
  let id := created loop in
  (mkBlockedChild id 0 false,
   nextTick (blockedTask id reason)
     (mkLoop (listeners loop) (tickQueue loop) (delivered loop) (S id))).

(** A loop in which nothing yet refers to the subprocess objects still to
    be created. *)
Definition wellFormed (loop : Loop) : Prop :=
  (forall l, In l (listeners loop) -> (fst (source l) < created loop)%nat) /\
  (forall task e, In task (tickQueue loop) -> In e task ->
                  (fst (target e) < created loop)%nat).

(** The calls of listeners that concern subprocess [id]. *)
Definition deliveredOf (id : nat) (calls : list (nat * Emission))
    : list (nat * Emission) :=
  filter (fun d => Nat.eqb (fst (target (snd d))) id) calls.

End Events.

(* ================================================================== *)
(** * runner.js: the tracked subprocess set *)
(* ================================================================== *)

Module Tracking.

Open Scope Z_scope.

(** A subprocess object [spawn] returned: which object it is and its
    [pid]. *)
Record Child : Type := mkChild { childId : nat; childPid : option Z }.

(** The set [childProcesses], in insertion order, with the number of
    objects [spawn] has returned and what has been run and printed. *)
Record Tracker : Type := mkTracker {
  childProcesses : list Child;
  spawned : nat;
  commands : list Lifecycle.Command;
  exits : list Z
}.

Definition initialTracker : Tracker := mkTracker [] 0 [] [].

Definition child_eqb (a b : Child) : bool := Nat.eqb (childId a) (childId b).

(** [Set.prototype.add] and [Set.prototype.delete] *)
Definition add (c : Child) (set : list Child) : list Child :=
  if existsb (child_eqb c) set then set else set ++ [c].
Definition delete (c : nat) (set : list Child) : list Child :=
  filter (fun x => negb (Nat.eqb (childId x) c)) set.

Definition truthyPid (p : option Z) : option Z :=
  match p with
  | Some n => if n =? 0 then None else Some n
  | None => None
  end.

(** What the outside does to the set. *)
Inductive Op : Type :=
| SpawnSynthetic                 (* a blocked or hook-handling stand-in *)
| SpawnReal (pid : option Z)     (* [originalSpawn] returned a subprocess *)
| ExitEvent (child : nat)        (* the subprocess emitted [exit] *)
| ErrorEvent (child : nat)       (* the subprocess emitted [error] *)
| SIGINT | SIGTERM | SIGHUP      (* [cleanupAndExit] *)
| SIGBREAK                       (* [killChildren] *)
| SupervisorRestart.             (* the entry point is imported again *)

(** [killChildren]: every tracked subprocess with a [pid] is tree-killed,
    then the set is cleared. *)
Definition killChildren (t : Tracker) : Tracker :=
  match childProcesses t with
  | [] => t
  | set =>
      mkTracker []
        (spawned t)
        (commands t ++
           flat_map (fun c => match truthyPid (childPid c) with
                              | Some p => [Lifecycle.Taskkill p 3000]
                              | None => []
                              end) set)
        (exits t)
  end.

(** [cleanupAndExit]: [killChildren], then [process.exit(0)] after the
    grace delay. *)
Definition cleanupAndExit (t : Tracker) : Tracker :=
  let t' := killChildren t in
  mkTracker (childProcesses t') (spawned t') (commands t') (exits t' ++ [0]).

(** The listeners the spawn hook attaches exist only on the subprocesses
    it tracked, those with a [pid]; a subprocess emits only after it was
    spawned. *)
Definition step (t : Tracker) (op : Op) : Tracker :=
  match op with
  | SpawnSynthetic => t
  | SpawnReal pid =>
      let child := mkChild (spawned t) pid in
      mkTracker
        (match truthyPid pid with
         | Some _ => add child (childProcesses t)
         | None => childProcesses t
         end)
        (S (spawned t)) (commands t) (exits t)
  | ExitEvent c | ErrorEvent c =>
      mkTracker (delete c (childProcesses t)) (spawned t) (commands t)
                (exits t)
  | SIGINT | SIGTERM | SIGHUP => cleanupAndExit t
  | SIGBREAK => killChildren t
  | SupervisorRestart => t
  end.

Definition run (ops : list Op) : Tracker := fold_left step ops initialTracker.

(** The subprocess has told of its end. *)
Definition notifies (c : nat) (op : Op) : bool :=
  match op with
  | ExitEvent c' | ErrorEvent c' => Nat.eqb c c'
  | _ => false
  end.

(** The operation is a signal teardown. *)
Definition tearsDown (op : Op) : bool :=
  match op with
  | SIGINT | SIGTERM | SIGHUP | SIGBREAK => true
  | _ => false
  end.

(** A subprocess spawned in the history [ops] with a [pid], and since then
    neither an exit or error event of its own nor a signal teardown. *)
Definition aliveIn (ops : list Op) (c : Child) : Prop :=
  exists before after,
    ops = before ++ SpawnReal (childPid c) :: after /\
    spawned (run before) = childId c /\
    truthyPid (childPid c) <> None /\
    Forall (fun op => notifies (childId c) op = false /\
                      tearsDown op = false) after.

End Tracking.

(* ================================================================== *)
(** * runner.js: the spawn hook *)
(* ================================================================== *)

Module Spawn.

(** The reserved token of the injected hook. *)
Definition marker : jsstring := lit "__RUNNER_PERMISSION_HOOK__".

(** An element of [args]: a string, or another value, with what [String]
    makes of it and whether it is truthy. *)
Inductive Arg : Type :=
| ArgString (s : jsstring)
| ArgOther (asString : jsstring) (isTruthy : bool).

Definition stringOf (a : Arg) : jsstring :=
  match a with
  | ArgString s => s
  | ArgOther s _ => s
  end.

Definition truthyArg (a : Arg) : bool :=
  match a with
  | ArgString s => negb (jsstring_eqb s [])
  | ArgOther _ t => t
  end.

(** The second argument of [spawn]: an array, or the options object taking
    its place (of which [args[0]] is [undefined]). *)
Inductive Args : Type :=
| NotArray
| ArgList (l : list Arg).

(** What the hook does with a request: it answers with a hook-handling
    stand-in, with a blocked stand-in made from [validation.reason], it
    calls the original [spawn], or it fails on a name that is not defined
    (the [catch] of the hook prints the error and throws it again). *)
Inductive Decision : Type :=
| HookChild
| BlockedChild (reason : option jsstring)
| RealSpawn (command : jsstring) (args : Args)
| ReferenceError (name : jsstring).

(** The name [validateBashCommand] inside the module.  Line 176 exports
    the validator under that name straight from blocklist.js, which binds
    nothing here; the module imports it as [validateCommand] only (line
    35), and nothing defines a global of that name.  The call of line 801
    therefore finds no function. *)
Definition validateBashCommand : option (Arg -> Blocklist.Validation) :=
  None.

(** The decisions of [spawnHook] up to the call of the original, for a
    [command] that is a string; [gitBashPath] is [None] while it is [null]
    or [false]. *)
Definition spawnHook (gitBashPath : option jsstring) (command : jsstring)
    (args : Args) : Decision :=
  if includes marker command then HookChild
  else if jsstring_eqb command (lit "node") &&
          match args with
          | ArgList l => existsb (fun a => includes marker (stringOf a)) l
          | NotArray => false
          end
  then HookChild
  else
    match gitBashPath with
    | None => RealSpawn command args
    | Some git =>
        if jsstring_eqb command (lit "/bin/bash") &&
           negb (jsstring_eqb git [])
        then
          match args with
          | ArgList (ArgString flag :: a1 :: _) =>
              if jsstring_eqb flag (lit "-c") && truthyArg a1 then
                match validateBashCommand with
                | None => ReferenceError (lit "validateBashCommand")
                | Some validate =>
                    let validation := validate a1 in
                    if Blocklist.allowed validation then RealSpawn git args
                    else BlockedChild (Blocklist.reason validation)
                end
              else RealSpawn git args
          | _ => RealSpawn git args
          end
        else RealSpawn command args
    end.

End Spawn.

(* ================================================================== *)
(** * runner.js: the hook-handling synthetic subprocess *)
(* ================================================================== *)

Module HookProcess.

Import Events.

Open Scope Z_scope.

(** The object [createHookChildProcess] returns, with the data its [stdin]
    has buffered. *)
Record HookChild : Type := mkHookChild {
  hookIdentity : nat;
  hookPid : Z;
  hookKilled : bool;
  stdinData : jsstring
}.

(** Creation queues nothing: the handler runs when [stdin.end] is called. *)
Definition createHookChildProcess (processPid : Z) (loop : Loop)
    : HookChild * Loop :=
  (mkHookChild (created loop) processPid false [],
   mkLoop (listeners loop) (tickQueue loop) (delivered loop)
          (S (created loop))).

(** [if (chunk) stdinData += chunk.toString()]: a chunk that is not given
    adds nothing. *)
Definition chunkText (chunk : option jsstring) : jsstring :=
  match chunk with Some s => s | None => [] end.

Definition buffered (chunk : option jsstring) (c : HookChild) : HookChild :=
  mkHookChild (hookIdentity c) (hookPid c) (hookKilled c)
    (stdinData c ++ chunkText chunk).

(** [stdin.write(chunk, encoding, callback)]: the child, the value
    returned, and the callback called if one was given. *)
Definition stdinWrite (chunk : option jsstring) (callback : option nat)
    (c : HookChild) : HookChild * bool * option nat :=
  (buffered chunk c, true, callback).

Definition hookTask (id : nat) (response : jsstring) : list Emission :=
  [mkEmission (id, Stdout) (lit "data") (Data response);
   mkEmission (id, Stdout) (lit "close") NoArgument;
   mkEmission (id, Stderr) (lit "close") NoArgument;
   mkEmission (id, Self) (lit "close") (ExitStatus 0)].

(** [stdin.end(chunk, encoding, callback)]: the handler is called at once
    on everything buffered, its response is emitted on the next tick. *)
Definition stdinEnd (handleFn : jsstring -> jsstring)
    (chunk : option jsstring) (callback : option nat)
    (c : HookChild) (loop : Loop) : HookChild * Loop * option nat :=
  let c' := buffered chunk c in
  (c',
   nextTick (hookTask (hookIdentity c') (handleFn (stdinData c'))) loop,
   callback).

(** The child after a series of [stdin.write] calls without callback. *)
Definition written (chunks : list (option jsstring)) (c : HookChild)
    : HookChild :=
  fold_left (fun c chunk => fst (fst (stdinWrite chunk None c))) chunks c.

End HookProcess.

(* ================================================================== *)
(** * runner.js: start-up *)
(* ================================================================== *)

Module Startup.

Open Scope Z_scope.

(** [String.prototype.trim]: white space and line terminators are removed
    at both ends. *)
Fixpoint trimStart (s : jsstring) : jsstring :=
  match s with
  | c :: s' => if isWhiteSpace c then trimStart s' else s
  | [] => []
  end.
Definition trimEnd (s : jsstring) : jsstring := rev (trimStart (rev s)).
Definition trim (s : jsstring) : jsstring := trimEnd (trimStart s).

(** What [execSync] does: it returns the output, or throws an error with
    its [code], [signal] and [message]. *)
Record ExecError : Type := mkExecError {
  execCode : option jsstring;
  execSignal : option jsstring;
  execMessage : jsstring
}.

Inductive ExecResult : Type :=
| ExecReturns (stdout : jsstring)
| ExecThrows (e : ExecError).

Definition optionIs (o : option jsstring) (name : string) : bool :=
  match o with
  | Some s => jsstring_eqb s (lit name)
  | None => false
  end.

(** [getNpmGlobalRoot], given what [execSync('npm root -g')] does: the
    root, or the message of the error thrown.  The error for an empty
    result is thrown inside the [try], so the [catch] wraps it like any
    error without [code] or [signal]. *)
Definition getNpmGlobalRoot (npmRoot : ExecResult) : jsstring + jsstring :=
  let handler (e : ExecError) : jsstring + jsstring :=
    if optionIs (execCode e) "ENOENT" then
      inr (lit "npm command not found. Please ensure npm is installed and available in PATH")
    else if optionIs (execSignal e) "SIGTERM" then
      inr (lit "npm root -g command timed out")
    else
      inr (lit "Failed to get npm global root: " ++ execMessage e) in
  match npmRoot with
  | ExecReturns result =>
      let rootPath := trim result in
      match rootPath with
      | [] =>
          handler (mkExecError None None
                     (lit "npm root -g returned empty result"))
      | _ => inl rootPath
      end
  | ExecThrows e => handler e
  end.

(** [String.prototype.split] and [Array.prototype.join] with a separator
    of one code unit. *)
Fixpoint split (sep : jschar) (s : jsstring) : list jsstring :=
  match s with
  | [] => [[]]
  | c :: s' =>
      if N.eqb c sep then [] :: split sep s'
      else
        match split sep s' with
        | part :: parts => (c :: part) :: parts
        | [] => [[c]]
        end
  end.

Fixpoint join (sep : jschar) (parts : list jsstring) : jsstring :=
  match parts with
  | [] => []
  | [part] => part
  | part :: rest => part ++ sep :: join sep rest
  end.

Definition programFilesGit : jsstring := lit "C:\Program Files\Git\cmd".

(** The filter of [setupGitPath]: an entry that names both scoop and git
    is dropped. *)
Definition keepsEntry (p : jsstring) : bool :=
  negb (includes (lit "scoop") (toLowerCase p) &&
        includes (lit "git") (toLowerCase p)).

(** [setupGitPath]: the new value of [process.env.PATH], given whether the
    directory of Program Files Git exists and the old value ([None] when
    the variable is not set). *)
Definition setupGitPath (programFilesGitExists : bool)
    (PATH : option jsstring) : option jsstring :=
  if programFilesGitExists then
    let old := match PATH with Some p => p | None => [] end in
    let pathParts := filter keepsEntry (split 59%N old) in
    Some (join 59%N (programFilesGit :: pathParts))
  else PATH.

(** The pattern of [handleWslPath], anchored at the start and under the
    [i] flag, read from the left: two backslashes and [wsl]; a dollar sign
    or [.localhost]; a backslash; group 2, one or more units that are not a
    backslash, the longest such run since group 3 accepts whatever follows;
    group 3, the rest of the line.  A literal is matched unit by unit. *)
Fixpoint matchLiteral (p s : jsstring) : option jsstring :=
  match p, s with
  | [], _ => Some s
  | x :: p', c :: s' =>
      if cset_mem true (CChar x) c then matchLiteral p' s' else None
  | _ :: _, [] => None
  end.

Fixpoint takeWhile (f : jschar -> bool) (s : jsstring) : jsstring :=
  match s with
  | c :: s' => if f c then c :: takeWhile f s' else []
  | [] => []
  end.

Fixpoint dropWhile (f : jschar -> bool) (s : jsstring) : jsstring :=
  match s with
  | c :: s' => if f c then dropWhile f s' else s
  | [] => []
  end.

(** The groups 2 and 3 of the match, when the pattern matches. *)
Definition wslMatch (cwd : jsstring) : option (jsstring * jsstring) :=
  match matchLiteral (bs ++ bs ++ lit "wsl") cwd with
  | None => None
  | Some r1 =>
      let afterHost :=
        match matchLiteral (lit "$") r1 with
        | Some r2 => Some r2
        | None => matchLiteral (lit ".localhost") r1
        end in
      match afterHost with
      | None => None
      | Some r2 =>
          match matchLiteral bs r2 with
          | None => None
          | Some r3 =>
              let notBackslash := cset_mem true (CNot (CChar 92%N)) in
              match takeWhile notBackslash r3 with
              | [] => None
              | distro =>
                  Some (distro,
                        takeWhile (cset_mem true CDot)
                                  (dropWhile notBackslash r3))
              end
          end
      end
  end.

(** The call [spawnSync('wsl', ['-d', distro, '--cd', wslPath, '--',
    'claude'])]. *)
Record WslLaunch : Type := mkWslLaunch {
  distro : jsstring;
  wslPath : jsstring
}.

(** [handleWslPath], given [process.cwd()] ([None] when it throws) and the
    [status] the launched process ends with ([None] for [null]): nothing,
    or the launch and the status the wrapper exits with. *)
Definition handleWslPath (cwd : option jsstring) (status : option Z)
    : option (WslLaunch * Z) :=
  match cwd with
  | None => None
  | Some cwd =>
      match wslMatch cwd with
      | None => None
      | Some (distro, rest) =>
          let replaced := Runner.replaceBackslashes rest in
          let wslPath :=
            match replaced with [] => lit "/" | _ => replaced end in
          Some (mkWslLaunch distro wslPath,
                match status with Some n => n | None => 0 end)
      end
  end.

End Startup.

(* ================================================================== *)
(** * What a trace of the supervisor amounts to *)
(* ================================================================== *)

Module Trace.

Import Runner.

Open Scope Z_scope.

(** The connectivity checks made. *)
Fixpoint lookups (tr : list Effect) : nat :=
  match tr with
  | [] => 0%nat
  | DnsLookup _ :: tr' => S (lookups tr')
  | _ :: tr' => lookups tr'
  end.

(** The time spent in timers, in milliseconds. *)
Fixpoint totalDelay (tr : list Effect) : Z :=
  match tr with
  | [] => 0
  | SetTimeout ms :: tr' => ms + totalDelay tr'
  | _ :: tr' => totalDelay tr'
  end.

End Trace.

(* ================================================================== *)
(** * runner.js: the [execSync] hook for [cygpath] *)
(* ================================================================== *)

Module Cygpath.

Open Scope N_scope.

(** What the pattern of the hook is made of: one unit of a class, a
    quantified class (greedy or lazy, with its bounds), a capture group
    around a quantified class, and the end of input.  The pattern has no
    flag. *)
Inductive Quantifier : Type := Greedy | Lazy.

Inductive Node : Type :=
| Unit (cs : cset)
| Repeat (q : Quantifier) (min : nat) (max : option nat) (cs : cset)
| Capture (q : Quantifier) (min : nat) (max : option nat) (cs : cset)
| EndOfInput.

Definition literal (s : string) : list Node :=
  map (fun c => Unit (CChar c)) (lit s).

(** The number of units at the start of [s] that are in the class. *)
Fixpoint run (cs : cset) (s : jsstring) : nat :=
  match s with
  | c :: s' => if cset_mem false cs c then S (run cs s') else 0%nat
  | [] => 0%nat
  end.

(** The numbers of units a quantified class may take where [avail] are on
    offer, in the order the matcher tries them: a greedy quantifier from
    the most down, a lazy one from the least up. *)
Definition counts (q : Quantifier) (min : nat) (max : option nat)
    (avail : nat) : list nat :=
  let most := match max with Some m => Nat.min m avail | None => avail end in
  let ascending := seq min (S most - min) in
  match q with
  | Lazy => ascending
  | Greedy => rev ascending
  end.

Fixpoint firstSome {A : Type} (f : nat -> option A) (l : list nat)
    : option A :=
  match l with
  | [] => None
  | n :: l' =>
      match f n with
      | Some r => Some r
      | None => firstSome f l'
      end
  end.

(** The backtracking match of a sequence of nodes at the start of [s]:
    group 1 of the first way that succeeds, in the matcher's order. *)
Fixpoint matchNodes (nodes : list Node) (s : jsstring)
    (group1 : option jsstring) : option (option jsstring) :=
  match nodes with
  | [] => Some group1
  | Unit cs :: rest =>
      match s with
      | c :: s' =>
          if cset_mem false cs c then matchNodes rest s' group1 else None
      | [] => None
      end
  | Repeat q min max cs :: rest =>
      firstSome (fun n => matchNodes rest (skipn n s) group1)
                (counts q min max (run cs s))
  | Capture q min max cs :: rest =>
      firstSome (fun n => matchNodes rest (skipn n s) (Some (firstn n s)))
                (counts q min max (run cs s))
  | EndOfInput :: rest =>
      match s with
      | [] => matchNodes rest s group1
      | _ :: _ => None
      end
  end.

(** [String.prototype.match] with a pattern without the [g] flag: the
    match at the leftmost position that has one. *)
Fixpoint search (nodes : list Node) (s : jsstring)
    : option (option jsstring) :=
  match matchNodes nodes s None with
  | Some groups => Some groups
  | None =>
      match s with
      | [] => None
      | _ :: s' => search nodes s'
      end
  end.

Definition quotes : cset := CUnion (CChar 39) (CChar 34).

(** [/cygpath\s+-u\s+['"]?(.+?)['"]?\s*$/] *)
Definition cygpathPattern : list Node :=
  literal "cygpath" ++ [Repeat Greedy 1 None CSpace] ++
  literal "-u" ++
  [Repeat Greedy 1 None CSpace;
   Repeat Greedy 0 (Some 1%nat) quotes;
   Capture Lazy 1 None CDot;
   Repeat Greedy 0 (Some 1%nat) quotes;
   Repeat Greedy 0 None CSpace;
   EndOfInput].

(** [.replace(/[\r\n]/g, '')] *)
Definition removeLineBreaks (s : jsstring) : jsstring :=
  filter (fun c => negb (cset_mem false (CUnion (CChar 13) (CChar 10)) c)) s.

(** [.replace(/^['"]|['"]$/g, '')]: a quote at the start is removed, and
    a quote at the end of what follows the first unit. *)
Fixpoint removeLastQuote (s : jsstring) : jsstring :=
  match s with
  | [] => []
  | [c] => if cset_mem false quotes c then [] else [c]
  | c :: s' => c :: removeLastQuote s'
  end.

Definition removeOuterQuotes (s : jsstring) : jsstring :=
  match s with
  | [] => []
  | c :: s' =>
      if cset_mem false quotes c then removeLastQuote s'
      else c :: removeLastQuote s'
  end.

(** What the hooked [execSync] does with a command that is a string: it
    returns a path itself, or calls the original. *)
Inductive Decision : Type :=
| Intercepted (posixPath : jsstring)
| PassThrough.

Definition execSync (command : jsstring) : Decision :=
  if startsWith (lit "cygpath -u") command then
    match search cygpathPattern command with
    | Some (Some windowsPath) =>
        Intercepted
          (Runner.windowsToPosix
             (removeOuterQuotes (removeLineBreaks windowsPath)))
    | _ => PassThrough
    end
  else PassThrough.

End Cygpath.

(* ================================================================== *)
(** * runner.js: the environment *)
(* ================================================================== *)

Module Environment.

Open Scope N_scope.

(** The decimal digits of [n] in front of [acc], the last digit first. *)
Fixpoint digits (fuel : nat) (n : N) (acc : jsstring) : jsstring :=
  match fuel with
  | O => acc
  | S fuel' =>
      let acc' := (48 + n mod 10) :: acc in
      if n / 10 =? 0 then acc' else digits fuel' (n / 10) acc'
  end.

(** A non-negative integer in a template literal; a number has no more
    decimal digits than binary ones. *)
Definition decimal (n : N) : jsstring :=
  digits (S (N.to_nat (N.size n))) n [].

(** [parseInt(s, 10)] on a string of digits. *)
Definition parseInt (s : jsstring) : N :=
  fold_left (fun value c => 10 * value + (c - 48)) s 0.

(** [Math.min(Math.floor(totalMemoryMB * 0.75), 32768)], where
    [totalMemoryMB] is [Math.floor(os.totalmem() / (1024 * 1024))]; three
    quarters of an integer of that size is computed exactly. *)
Definition heapSizeMB (totalmem : N) : N :=
  let totalMemoryMB := totalmem / (1024 * 1024) in
  N.min (totalMemoryMB * 3 / 4) 32768.

(** The variables [setupEnvironment] writes. *)
Record Env : Type := mkEnv {
  MSYS_NO_PATHCONV : jsstring;
  MSYS2_ARG_CONV_EXCL : jsstring;
  MSYS_PATH_CONVERT_DISABLE : jsstring;
  NODE_OPTIONS : option jsstring
}.

(** [setupEnvironment], given [os.totalmem()] and the value of
    [NODE_OPTIONS] ([None] when the variable is not set). *)
Definition setupEnvironment (totalmem : N) (nodeOptions : option jsstring)
    : Env :=
  let hasFlag :=
    match nodeOptions with
    | Some o => includes (lit "max-old-space-size") o
    | None => false
    end in
  mkEnv (lit "1") (lit "*") (lit "1")
    (if hasFlag then nodeOptions
     else
       Some (Startup.trim
               (match nodeOptions with Some o => o | None => [] end ++
                lit " --max-old-space-size=" ++
                decimal (heapSizeMB totalmem)))).

End Environment.

(* ================================================================== *)
(** * Properties *)
(* ================================================================== *)

Import Blocklist.

(** ** The matcher computes the language of the pattern *)

Section RegexEngine.

Variable ic : bool.

Lemma nullable_Matches (r : regex) :
  nullable r = true <-> Matches ic r [].
Proof.
  split.
  - induction r; simpl; intro H; try discriminate.
    + constructor.
    + apply andb_true_iff in H as [Ha Hb].
      change (@nil jschar) with (@nil jschar ++ []). constructor; auto.
    + apply orb_true_iff in H as [Ha | Hb];
        [apply MAltL | apply MAltR]; auto.
    + constructor.
  - intro H. remember (@nil jschar) as e eqn:He.
    induction H; simpl; auto; try discriminate.
    + apply app_eq_nil in He as [-> ->]. rewrite IHMatches1, IHMatches2; auto.
    + rewrite IHMatches; auto.
    + rewrite IHMatches; auto using orb_true_r.
Qed.

Lemma Matches_star_cons (a : regex) (c : jschar) (s : jsstring) :
  Matches ic (RStar a) (c :: s) ->
  exists s1 s2, s = s1 ++ s2 /\ Matches ic a (c :: s1) /\
                Matches ic (RStar a) s2.
Proof.
  intro H. remember (RStar a) as r eqn:Hr. remember (c :: s) as w eqn:Hw.
  revert s Hw. induction H; intros u Hw; try discriminate.
  injection Hr as ->.
  destruct s as [|x s'].
  - simpl in Hw. subst t. apply IHMatches2; reflexivity.
  - simpl in Hw. injection Hw as -> <-.
    exists s', t. auto.
Qed.

Lemma Matches_cat_inv (a b : regex) (w : jsstring) :
  Matches ic (RCat a b) w ->
  exists s t, w = s ++ t /\ Matches ic a s /\ Matches ic b t.
Proof. intro H. inversion H; subst. eauto. Qed.

Lemma Matches_alt_inv (a b : regex) (w : jsstring) :
  Matches ic (RAlt a b) w -> Matches ic a w \/ Matches ic b w.
Proof. intro H. inversion H; subst; auto. Qed.

Lemma Matches_set_inv (cs : cset) (w : jsstring) :
  Matches ic (RSet cs) w -> exists c, w = [c] /\ cset_mem ic cs c = true.
Proof. intro H. inversion H; subst. eauto. Qed.

Lemma Matches_eps_inv (w : jsstring) : Matches ic REps w -> w = [].
Proof. intro H. inversion H; reflexivity. Qed.

Lemma Matches_none_inv (w : jsstring) : ~ Matches ic RNone w.
Proof. intro H. inversion H. Qed.

Lemma deriv_Matches (r : regex) (c : jschar) (s : jsstring) :
  Matches ic (deriv ic c r) s <-> Matches ic r (c :: s).
Proof.
  revert s. induction r; intro s; simpl.
  - split; intro H; inversion H.
  - split; intro H; inversion H.
  - destruct (cset_mem ic cs c) eqn:E; split; intro H.
    + apply Matches_eps_inv in H. subst s. constructor. assumption.
    + apply Matches_set_inv in H as (x & Hx & _). injection Hx as _ ->.
      constructor.
    + inversion H.
    + apply Matches_set_inv in H as (x & Hx & Hm). injection Hx as -> _.
      congruence.
  - assert (Hcat : Matches ic (RCat (deriv ic c r1) r2) s <->
                   exists u t, s = u ++ t /\ Matches ic r1 (c :: u) /\
                               Matches ic r2 t).
    { split.
      - intro H. apply Matches_cat_inv in H as (u & t & -> & Hu & Ht).
        exists u, t. rewrite <- IHr1. auto.
      - intros (u & t & -> & Hu & Ht). constructor; [apply IHr1|]; auto. }
    destruct (nullable r1) eqn:En; split; intro H.
    + apply Matches_alt_inv in H as [H | H].
      * apply Hcat in H as (u & t & -> & Hu & Ht).
        change (c :: u ++ t) with ((c :: u) ++ t). constructor; auto.
      * change (c :: s) with ([] ++ c :: s).
        constructor; [apply nullable_Matches | apply IHr2]; assumption.
    + apply Matches_cat_inv in H as (u & t & E & Hu & Ht).
      destruct u as [|x u].
      * simpl in E. subst t. apply MAltR, IHr2. assumption.
      * simpl in E. injection E as <- ->. apply MAltL, Hcat. eauto.
    + apply Hcat in H as (u & t & -> & Hu & Ht).
      change (c :: u ++ t) with ((c :: u) ++ t). constructor; auto.
    + apply Matches_cat_inv in H as (u & t & E & Hu & Ht).
      destruct u as [|x u].
      * apply nullable_Matches in Hu. congruence.
      * simpl in E. injection E as <- ->. apply Hcat. eauto.
  - split; intro H; apply Matches_alt_inv in H as [H | H].
    + apply MAltL, IHr1; assumption.
    + apply MAltR, IHr2; assumption.
    + apply MAltL, IHr1; assumption.
    + apply MAltR, IHr2; assumption.
  - split; intro H.
    + apply Matches_cat_inv in H as (u & t & -> & Hu & Ht).
      change (c :: u ++ t) with ((c :: u) ++ t).
      constructor; [apply IHr|]; assumption.
    + apply Matches_star_cons in H as (s1 & s2 & -> & H1 & H2).
      constructor; [apply IHr|]; assumption.
Qed.

Lemma matchesPrefix_Matches (r : regex) (s : jsstring) :
  matchesPrefix ic r s = true <->
  exists p q, s = p ++ q /\ Matches ic r p.
Proof.
  revert r. induction s as [|c s IH]; intro r; simpl.
  - rewrite orb_false_r, nullable_Matches. split.
    + intro H. exists [], []. auto.
    + intros (p & q & E & H). symmetry in E.
      apply app_eq_nil in E as [-> _]. assumption.
  - rewrite orb_true_iff, nullable_Matches, IH. split.
    + intros [H | (p & q & -> & H)].
      * exists [], (c :: s). auto.
      * exists (c :: p), q. split; [reflexivity | apply deriv_Matches, H].
    + intros (p & q & E & H). destruct p as [|x p].
      * left. assumption.
      * right. simpl in E. injection E as <- ->.
        exists p, q. split; [reflexivity | apply deriv_Matches, H].
Qed.

Lemma searchFrom_Matches (r : regex) (s : jsstring) :
  searchFrom ic r s = true <->
  exists pre m post, s = pre ++ m ++ post /\ Matches ic r m.
Proof.
  induction s as [|c s IH]; cbn [searchFrom].
  - rewrite orb_false_r, matchesPrefix_Matches. split.
    + intros (p & q & E & H). exists [], p, q. auto.
    + intros (pre & m & post & E & H). symmetry in E.
      apply app_eq_nil in E as [-> E]. exists m, post. auto.
  - rewrite orb_true_iff, matchesPrefix_Matches, IH. split.
    + intros [(p & q & E & H) | (pre & m & post & -> & H)].
      * exists [], p, q. auto.
      * exists (c :: pre), m, post. auto.
    + intros (pre & m & post & E & H). destruct pre as [|x pre].
      * left. exists m, post. auto.
      * right. simpl in E. injection E as <- ->. exists pre, m, post. auto.
Qed.

End RegexEngine.

(** [test] holds exactly when some substring of the command is in the
    language of the pattern. *)
Lemma test_Matches (re : RegExp) (s : jsstring) :
  test re s = true <->
  exists pre m post,
    s = pre ++ m ++ post /\ Matches (ignoreCase re) (source re) m.
Proof. apply searchFrom_Matches. Qed.

(** The fuel [matchAll] gives is enough: each turn of the scan drops at
    least one code unit, so more fuel finds the same matches. *)
Lemma matchAllFuel_enough (re : RegExp) (fuel fuel' : nat) (s : jsstring) :
  List.length s <= fuel -> List.length s <= fuel' ->
  matchAllFuel fuel re s = matchAllFuel fuel' re s.
Proof.
  revert fuel' s. induction fuel as [|fuel IH]; intros fuel' s Hf Hf'.
  - destruct s; [|simpl in Hf; lia]. destruct fuel'; reflexivity.
  - destruct s as [|c s]; [destruct fuel'; reflexivity|].
    destruct fuel' as [|fuel']; [simpl in Hf'; lia|].
    cbn [matchAllFuel]. simpl in Hf, Hf'.
    destruct (longestPrefix (ignoreCase re) (source re) (c :: s) 0 None)
      as [[|k]|].
    + apply IH; lia.
    + f_equal. cbn [skipn].
      pose proof (length_skipn k s).
      apply IH; lia.
    + apply IH; lia.
Qed.

(* ================================================================== *)
(** ** The cases of the repository's test suite *)
(* ================================================================== *)

Example test_allows_normal_commands :
  validateCommand (lit "ls -la") = allow /\
  validateCommand (lit "git status") = allow /\
  validateCommand (lit "npm install") = allow /\
  validateCommand [] = allow.
Proof. vm_compute. repeat split. Qed.

Example test_allows_scoped_commands :
  allowed (validateCommand
             (lit "dir " ++ dq ++ lit "C:\path\*.json" ++ dq ++ lit " /s")) = true /\
  allowed (validateCommand (lit "find /c/Users/johan -maxdepth 3 -type f")) = true /\
  allowed (validateCommand (lit "timeout 30s find /c/Users/johan -type f")) = true /\
  allowed (validateCommand (lit "tree -L 2 /c/Users/johan/.claude")) = true /\
  allowed (validateCommand (lit "git log --all --max-count=100")) = true.
Proof. vm_compute. repeat split. Qed.

Example test_blocks_shell_expansion_and_unc :
  reason (validateCommand
            (lit "cat " ++ dq ++ lit "/path/$(date)/file" ++ dq)) =
    Some (lit "Path contains shell expansion (cygpath crash risk) - use Read/Glob tools instead") /\
  reason (validateCommand
            (lit "cat " ++ dq ++ lit "/path/`date`/file" ++ dq)) =
    Some (lit "Path contains shell expansion (cygpath crash risk) - use Read/Glob tools instead") /\
  reason (validateCommand (lit "ls //server/share/file")) =
    Some (lit "UNC network path detected (cygpath crash risk) - map drive first or use local path").
Proof. vm_compute. repeat split. Qed.

Example test_blocks_very_long_paths :
  validateCommand
    (lit "cat " ++ dq ++ lit "/c/Users/" ++ repeat 97%N 300 ++ lit "/file" ++ dq) =
  deny pathLengthReason.
Proof. vm_compute. reflexivity. Qed.

Example test_blocks_unscoped_commands :
  includes (lit "dir /s")
    (match reason (validateCommand
                     (lit "dir " ++ dq ++ lit "C:\Users\johan\.claude" ++ dq
                        ++ lit " /s /b")) with
     | Some r => r
     | None => []
     end) = true /\
  includes (lit "maxdepth")
    (match reason (validateCommand
                     (lit "find /c/Users/johan/.claude -type f")) with
     | Some r => r
     | None => []
     end) = true /\
  includes (lit "depth")
    (match reason (validateCommand (lit "tree /c/Users/johan/.claude")) with
     | Some r => r
     | None => []
     end) = true.
Proof. vm_compute. repeat split. Qed.

(* ================================================================== *)
(** ** The command validator *)
(* ================================================================== *)

Lemma validateCommand_nonempty (command : jsstring) :
  command <> [] ->
  validateCommand command =
    if Nat.odd (singleQuoteCount command) then deny unbalancedReason
    else match firstCygpath cygpathRules command with
         | Some r => deny r
         | None =>
             if pathTooLong command then deny pathLengthReason
             else match firstSafety safetyRules command with
                  | Some r => deny r
                  | None => allow
                  end
         end.
Proof. destruct command; [congruence | reflexivity]. Qed.

Lemma firstSafety_Some (rules : list SafetyRule) (command r : jsstring) :
  firstSafety rules command = Some r ->
  exists rule, In rule rules /\ r = s_reason rule /\
               ruleFires rule command = true.
Proof.
  induction rules as [|rule rest IH]; simpl; [discriminate|].
  destruct (ruleFires rule command) eqn:E.
  - intros [= <-]. exists rule. auto.
  - intro H. destruct (IH H) as (rule' & Hin & Hr & Hf). exists rule'. auto.
Qed.

Lemma firstSafety_None (rules : list SafetyRule) (command : jsstring) :
  firstSafety rules command = None <->
  forall rule, In rule rules -> ruleFires rule command = false.
Proof.
  induction rules as [|rule rest IH]; simpl.
  - split; [intros _ rule [] | reflexivity].
  - destruct (ruleFires rule command) eqn:E.
    + split; [discriminate|]. intro H.
      rewrite (H rule) in E by (left; reflexivity). discriminate.
    + rewrite IH. split.
      * intros H rule' [<- | Hin]; auto.
      * intros H rule' Hin. apply H. auto.
Qed.

Lemma ruleFires_iff (rule : SafetyRule) (command : jsstring) :
  ruleFires rule command = true <->
  test (detect rule) command = true /\ test (unless rule) command = false.
Proof.
  unfold ruleFires. rewrite andb_true_iff, negb_true_iff. reflexivity.
Qed.

Lemma test_nonempty (re : RegExp) (command : jsstring) :
  nullable (source re) = false -> test re command = true -> command <> [].
Proof.
  intros Hn Ht ->. unfold test in Ht. simpl in Ht. rewrite Hn in Ht.
  discriminate.
Qed.

(** *** The nested-quote shape: three single quotes *)

Lemma notquote_star (a : jsstring) :
  ~ In 39%N a -> Matches false (RStar (RSet (CNot quote))) a.
Proof.
  induction a as [|c a IH]; intro H; [constructor|].
  change (c :: a) with ([c] ++ a). constructor.
  - constructor. cbn [cset_mem quote]. apply negb_true_iff, N.eqb_neq.
    intros <-. apply H. left. reflexivity.
  - apply IH. intro Hin. apply H. right. exact Hin.
Qed.

Lemma first_quote (s : jsstring) :
  (1 <= singleQuoteCount s)%nat ->
  exists a rest,
    s = a ++ 39%N :: rest /\ ~ In 39%N a /\
    singleQuoteCount s = S (singleQuoteCount rest).
Proof.
  unfold singleQuoteCount. induction s as [|c s IH]; cbn [count_occ];
    [lia|].
  destruct (N.eq_dec c 39) as [-> | Hc]; intro H.
  - exists [], s. repeat split; auto.
  - destruct (IH H) as (a & rest & -> & Ha & Hn).
    exists (c :: a), rest. repeat split; auto.
    intros [E | Hin]; [congruence | contradiction].
Qed.

Lemma singleQuoteCount_app (a b : jsstring) :
  singleQuoteCount (a ++ b) = (singleQuoteCount a + singleQuoteCount b)%nat.
Proof. apply count_occ_app. Qed.

Lemma quote_Matches (w : jsstring) :
  Matches false (RSet quote) w -> singleQuoteCount w = 1%nat.
Proof.
  intro H. apply Matches_set_inv in H as (c & -> & Hc).
  cbn [cset_mem quote] in Hc. apply N.eqb_eq in Hc. subst c. reflexivity.
Qed.

(** The pattern ['[^']*'[^']*'] matches somewhere in a command exactly when
    the command has three single quotes. *)
Lemma nestedQuotes_iff (command : jsstring) :
  test nestedQuotesPattern command = true <->
  (3 <= singleQuoteCount command)%nat.
Proof.
  rewrite test_Matches. cbn [nestedQuotesPattern source ignoreCase RCats].
  split.
  - intros (pre & m & post & -> & H).
    apply Matches_cat_inv in H as (s1 & t1 & -> & H1 & H).
    apply Matches_cat_inv in H as (s2 & t2 & -> & _ & H).
    apply Matches_cat_inv in H as (s3 & t3 & -> & H3 & H).
    apply Matches_cat_inv in H as (s4 & s5 & -> & _ & H5).
    apply quote_Matches in H1, H3, H5.
    rewrite !singleQuoteCount_app. lia.
  - intro H.
    destruct (first_quote command) as (a & r1 & -> & _ & E1); [lia|].
    rewrite E1 in H.
    destruct (first_quote r1) as (b & r2 & -> & Hb & E2); [lia|].
    rewrite E2 in H.
    destruct (first_quote r2) as (c & r3 & -> & Hc & _); [lia|].
    exists a, ([39%N] ++ b ++ [39%N] ++ c ++ [39%N]), r3. split.
    + rewrite <- !app_assoc. reflexivity.
    + assert (Hq : Matches false (RSet quote) [39%N])
        by (constructor; reflexivity).
      repeat (constructor; auto using notquote_star).
Qed.

(** C3.  A command with an odd number of single quotes is denied for its
    unbalanced quotes, whatever else it contains, since that test comes
    before every pattern rule; a command with an even number of them that
    has the nested-quote shape, which is to have three single quotes, is
    denied for its nested quotes, as is the command ['a'"b"'c']. *)
Theorem validateCommand_quotes :
  (forall command,
      Nat.odd (singleQuoteCount command) = true ->
      validateCommand command = deny unbalancedReason) /\
  (forall command,
      Nat.even (singleQuoteCount command) = true ->
      test nestedQuotesPattern command = true ->
      validateCommand command =
        deny (lit "Path contains nested quotes (cygpath crash risk) - use Read/Glob tools instead")) /\
  (forall command,
      test nestedQuotesPattern command = true <->
      (3 <= singleQuoteCount command)%nat) /\
  validateCommand (lit "'a'" ++ dq ++ lit "b" ++ dq ++ lit "'c'") =
    deny (lit "Path contains nested quotes (cygpath crash risk) - use Read/Glob tools instead") /\
  includes (lit "unbalanced") unbalancedReason = true /\
  includes (lit "nested quotes")
    (lit "Path contains nested quotes (cygpath crash risk) - use Read/Glob tools instead") = true.
Proof.
  split; [|split; [|split; [|split; [|split]]]].
  - intros command Hodd.
    rewrite validateCommand_nonempty.
    + rewrite Hodd. reflexivity.
    + intros ->. discriminate Hodd.
  - intros command Heven Hshape.
    rewrite validateCommand_nonempty
      by (eapply test_nonempty; [|exact Hshape]; reflexivity).
    rewrite <- Nat.negb_even, Heven. cbn [negb].
    unfold cygpathRules. cbn [firstCygpath pattern c_reason].
    rewrite Hshape. reflexivity.
  - apply nestedQuotes_iff.
  - vm_compute. reflexivity.
  - vm_compute. reflexivity.
  - vm_compute. reflexivity.
Qed.

Lemma validateCommand_quotes_witness :
  validateCommand (lit "cat '/path's name/file'") = deny unbalancedReason /\
  validateCommand
    (lit "cat '/path'" ++ dq ++ lit "s" ++ dq ++ lit "' name/file'") =
    deny (lit "Path contains nested quotes (cygpath crash risk) - use Read/Glob tools instead").
Proof.
  split.
  - apply (proj1 validateCommand_quotes). vm_compute. reflexivity.
  - apply (proj1 (proj2 validateCommand_quotes)); vm_compute; reflexivity.
Defined.

(** C4.  A hang-pattern rule fires on a command exactly when its [detect]
    pattern matches and its [unless] pattern does not.  A command on which a
    rule fires is denied; a command that reaches the hang-pattern rules is
    denied by them exactly when one of them fires, with the reason of that
    rule, and is allowed otherwise.  [git log --all] is denied and
    [git log --all -n 50] is allowed. *)
Theorem safetyRules_fire :
  (forall command rule,
      In rule safetyRules ->
      (ruleFires rule command = true <->
       test (detect rule) command = true /\
       test (unless rule) command = false)) /\
  (forall command rule,
      In rule safetyRules ->
      test (detect rule) command = true ->
      test (unless rule) command = false ->
      allowed (validateCommand command) = false) /\
  (forall command,
      Nat.odd (singleQuoteCount command) = false ->
      firstCygpath cygpathRules command = None ->
      pathTooLong command = false ->
      (validateCommand command = allow <->
       forall rule, In rule safetyRules ->
         ~ (test (detect rule) command = true /\
            test (unless rule) command = false)) /\
      (forall r, validateCommand command = deny r ->
         exists rule, In rule safetyRules /\ r = s_reason rule /\
           test (detect rule) command = true /\
           test (unless rule) command = false)) /\
  validateCommand (lit "git log --all") =
    deny (lit "git --all without limit - add -n N or --max-count=N") /\
  validateCommand (lit "git log --all -n 50") = allow.
Proof.
  split; [|split; [|split; [|split]]].
  - intros command rule _. apply ruleFires_iff.
  - intros command rule Hin Hd Hu.
    assert (Hne : command <> []).
    { simpl in Hin.
      destruct Hin as [<- | [<- | [<- | [<- | []]]]];
        (eapply test_nonempty; [|exact Hd]; reflexivity). }
    rewrite validateCommand_nonempty by assumption.
    destruct (Nat.odd _); [reflexivity|].
    destruct (firstCygpath _ _); [reflexivity|].
    destruct (pathTooLong _); [reflexivity|].
    destruct (firstSafety safetyRules command) eqn:E; [reflexivity|].
    rewrite firstSafety_None in E. specialize (E rule Hin).
    assert (ruleFires rule command = true) by (apply ruleFires_iff; auto).
    congruence.
  - intros command Hodd Hcyg Hlen.
    assert (Hv : validateCommand command =
                 match firstSafety safetyRules command with
                 | Some r => deny r
                 | None => allow
                 end).
    { destruct command as [|c l]; [reflexivity|].
      rewrite validateCommand_nonempty by discriminate.
      rewrite Hodd, Hcyg, Hlen. reflexivity. }
    rewrite Hv. split.
    + destruct (firstSafety safetyRules command) eqn:E.
      * split; [discriminate|]. intro H.
        apply firstSafety_Some in E as (rule & Hin & _ & Hf).
        apply ruleFires_iff in Hf. destruct (H rule Hin Hf).
      * split; [|reflexivity]. intros _ rule Hin Hf.
        apply ruleFires_iff in Hf.
        rewrite firstSafety_None in E. rewrite (E rule Hin) in Hf.
        discriminate.
    + intros r Hr. destruct (firstSafety safetyRules command) eqn:E;
        [|discriminate].
      injection Hr as ->.
      apply firstSafety_Some in E as (rule & Hin & Hr & Hf).
      apply ruleFires_iff in Hf. exists rule. tauto.
  - vm_compute. reflexivity.
  - vm_compute. reflexivity.
Qed.

Lemma safetyRules_fire_witness :
  allowed (validateCommand (lit "git diff --all")) = false.
Proof.
  apply (proj1 (proj2 safetyRules_fire)) with
    (rule := nth 3 safetyRules (mkSafetyRule [] (mkRegExp RNone false)
                                   (mkRegExp RNone false) [])).
  - simpl. auto.
  - vm_compute. reflexivity.
  - vm_compute. reflexivity.
Defined.

(* ================================================================== *)
(** ** The supervisor *)
(* ================================================================== *)

Import Runner.

Example test_windowsToPosix :
  windowsToPosix (lit "C:\Users\johan") = lit "/c/Users/johan" /\
  windowsToPosix (lit "D:\data") = lit "/d/data" /\
  windowsToPosix (lit "c:\temp") = lit "/c/temp" /\
  windowsToPosix (lit "C:\Program Files\Git") = lit "/c/Program Files/Git" /\
  windowsToPosix (lit "/c/Users/johan") = lit "/c/Users/johan".
Proof. vm_compute. repeat split. Qed.

Example test_calculateBackoff :
  calculateBackoff 1 5000 60000 = Integer 5000 /\
  calculateBackoff 2 5000 60000 = Integer 10000 /\
  calculateBackoff 3 5000 60000 = Integer 20000 /\
  calculateBackoff 4 5000 60000 = Integer 40000 /\
  calculateBackoff 5 5000 60000 = Integer 60000 /\
  calculateBackoff 10 5000 60000 = Integer 60000 /\
  calculateBackoff 5 1000 10000 = Integer 10000 /\
  calculateBackoff 0 5000 60000 = Integer 2500.
Proof. vm_compute. repeat split. Qed.

Example test_isNetworkError :
  isNetworkError ThrownNullish = false /\
  isNetworkError (ThrownError (Some (lit "ENOTFOUND")) (Some (lit "x"))) = true /\
  isNetworkError (ThrownError (Some (lit "EPERM")) (Some (lit "denied"))) = false /\
  isNetworkError (ThrownError None (Some (lit "Fetch Failed"))) = true /\
  isNetworkError (ThrownError None (Some (lit "getaddrinfo ENOTFOUND host"))) = true /\
  isNetworkError (ThrownError None (Some (lit "undefined is not a function"))) = false /\
  isNetworkError (ThrownError None None) = false.
Proof. vm_compute. repeat split. Qed.

(** From attempt 1 on and for a base above zero, the doubles give the
    integer minimum of the doubled base and the maximum: the product is
    exact, and where it overflows it is above every finite maximum. *)
Lemma calculateBackoff_integer (attempt baseMs maxMs : Z) :
  (1 <= attempt)%Z -> (0 < baseMs)%Z -> (maxMs < 2 ^ 1024)%Z ->
  calculateBackoff attempt baseMs maxMs =
    Integer (Z.min (baseMs * 2 ^ (attempt - 1)) maxMs).
Proof.
  intros Ha Hb Hm. unfold calculateBackoff.
  set (big := (2 ^ 1024)%Z) in *.
  assert (Hbig : (0 < big)%Z) by (subst big; apply Z.pow_pos_nonneg; lia).
  destruct (Z.leb_spec 1024 (attempt - 1)) as [Hk | Hk].
  - replace (0 <? baseMs)%Z with true by (symmetry; apply Z.ltb_lt; lia).
    f_equal. symmetry. apply Z.min_r.
    assert (big <= 2 ^ (attempt - 1))%Z
      by (subst big; apply Z.pow_le_mono_r; lia).
    nia.
  - replace (0 <=? attempt - 1)%Z with true
      by (symmetry; apply Z.leb_le; lia).
    assert (Hp : (0 < 2 ^ (attempt - 1))%Z)
      by (apply Z.pow_pos_nonneg; lia).
    destruct (Z.leb_spec big (baseMs * 2 ^ (attempt - 1))) as [Ho | Ho].
    + f_equal. symmetry. apply Z.min_r. lia.
    + replace (baseMs * 2 ^ (attempt - 1) <=? - big)%Z with false
        by (symmetry; apply Z.leb_gt; nia).
      reflexivity.
Qed.

Lemma calculateBackoff_config (count : Z) :
  (0 <= count)%Z ->
  calculateBackoff (count + 1) (NETWORK_BACKOFF_BASE_MS CONFIG)
                   (NETWORK_BACKOFF_MAX_MS CONFIG) =
    Integer (Z.min (5000 * 2 ^ count) 60000).
Proof.
  intro H. rewrite calculateBackoff_integer.
  - replace (count + 1 - 1)%Z with count by lia. reflexivity.
  - lia.
  - reflexivity.
  - reflexivity.
Qed.

Lemma waitLoop_step (fuel : nat) (w : World) (run j : nat) (count : Z)
    (tr : list Effect) :
  (0 <= count < MAX_NETWORK_RETRIES CONFIG)%Z ->
  waitLoop (S fuel) w run j count tr =
    let backoffMs := Z.min (5000 * 2 ^ count) 60000 in
    let tr' :=
      tr ++ [ConsoleWarn
               (NoInternetRetry (count + 1) (MAX_NETWORK_RETRIES CONFIG)
                                backoffMs);
             SetTimeout backoffMs;
             DnsLookup (NETWORK_CHECK_HOST CONFIG)] in
    if probe w run j
    then Some (true, 0%Z, tr' ++ [ConsoleLog ConnectionRestored])
    else waitLoop fuel w run (S j) (count + 1) tr'.
Proof.
  intro H. cbn [waitLoop].
  replace (count <? MAX_NETWORK_RETRIES CONFIG)%Z with true
    by (symmetry; apply Z.ltb_lt; lia).
  rewrite calculateBackoff_config by lia. reflexivity.
Qed.

Lemma waitLoop_stop (fuel : nat) (w : World) (run j : nat) (count : Z)
    (tr : list Effect) :
  (MAX_NETWORK_RETRIES CONFIG <= count)%Z ->
  waitLoop (S fuel) w run j count tr = Some (false, count, tr).
Proof.
  intro H. cbn [waitLoop].
  replace (count <? MAX_NETWORK_RETRIES CONFIG)%Z with false
    by (symmetry; apply Z.ltb_ge; lia).
  reflexivity.
Qed.

Section Supervisor.

Open Scope Z_scope.

Variable w : World.

(** The handler of a generic failure never fails to decide, counts the
    failure and stamps it. *)
Lemma onFailure_generic (run : nat) (err : Thrown) (st : RestartState)
    (tr : list Effect) :
  isNetworkError err = false ->
  exists d st' tr',
    onFailure w run err st tr = Some (d, st', tr') /\
    crashRestartCount st' =
      (if now w run - lastCrashTime st >? CRASH_WINDOW_MS CONFIG then 0
       else crashRestartCount st) + 1 /\
    lastCrashTime st' = now w run /\
    networkRetryCount st' = networkRetryCount st /\
    (d = Restart <-> crashRestartCount st' < MAX_CRASH_RESTARTS CONFIG).
Proof.
  intro Hnet. unfold onFailure. rewrite Hnet.
  set (count := (if now w run - lastCrashTime st >? CRASH_WINDOW_MS CONFIG
                 then 0 else crashRestartCount st) + 1).
  destruct (count >=? MAX_CRASH_RESTARTS CONFIG) eqn:E.
  - assert (Hge : MAX_CRASH_RESTARTS CONFIG <= count)
      by (apply Z.geb_le; exact E).
    destruct err as [|code message]; do 3 eexists;
      (split; [reflexivity|]); cbn [crashRestartCount lastCrashTime
                                      networkRetryCount];
      repeat split; try discriminate; intro; lia.
  - assert (Hlt : count < MAX_CRASH_RESTARTS CONFIG).
    { rewrite Z.geb_leb in E. apply Z.leb_gt in E. exact E. }
    do 3 eexists. split; [reflexivity|].
    cbn [crashRestartCount lastCrashTime networkRetryCount].
    repeat split; auto.
Qed.

Lemma waitLoop_total (fuel : nat) (run j : nat) (count : Z)
    (tr : list Effect) :
  0 <= count ->
  (Z.to_nat (MAX_NETWORK_RETRIES CONFIG - count) < fuel)%nat ->
  exists connected count' tr',
    waitLoop fuel w run j count tr = Some (connected, count', tr').
Proof.
  revert j count tr. induction fuel as [|fuel IH]; intros j count tr Hc Hf;
    [lia|].
  destruct (Z.lt_ge_cases count (MAX_NETWORK_RETRIES CONFIG)) as [E | E].
  - rewrite waitLoop_step by lia. cbn zeta.
    destruct (probe w run j); [eauto|].
    apply IH; lia.
  - rewrite waitLoop_stop by lia. eauto.
Qed.

(** A probe that succeeds within the retry budget ends the wait with the
    connection restored and the retry counter back at zero. *)
Lemma waitLoop_connects (fuel : nat) (run j : nat) (count : Z)
    (tr : list Effect) :
  0 <= count ->
  (Z.to_nat (MAX_NETWORK_RETRIES CONFIG - count) < fuel)%nat ->
  (exists i, (i < Z.to_nat (MAX_NETWORK_RETRIES CONFIG - count))%nat /\
             probe w run (j + i) = true) ->
  exists tr', waitLoop fuel w run j count tr = Some (true, 0, tr').
Proof.
  revert j count tr. induction fuel as [|fuel IH];
    intros j count tr Hc Hf (i & Hi & Hp); [lia|].
  destruct (Z.lt_ge_cases count (MAX_NETWORK_RETRIES CONFIG)) as [E | E].
  - rewrite waitLoop_step by lia. cbn zeta.
    destruct (probe w run j) eqn:Hj; [eauto|].
    apply IH; [lia | lia |].
    destruct i as [|i].
    + rewrite Nat.add_0_r in Hp. congruence.
    + exists i. split; [lia|]. rewrite Nat.add_succ_comm. exact Hp.
  - lia.
Qed.

Lemma waitForConnectivity_total (run : nat) (st : RestartState)
    (tr : list Effect) :
  exists connected count tr',
    waitForConnectivity w run st tr =
      Some (connected,
            mkRestartState (crashRestartCount st) (lastCrashTime st) count,
            tr').
Proof.
  unfold waitForConnectivity.
  destruct (waitLoop_total (S (Z.to_nat (MAX_NETWORK_RETRIES CONFIG)))
              run 0 0 tr) as (c & n & tr' & ->).
  - lia.
  - rewrite Z.sub_0_r. lia.
  - eauto.
Qed.

Lemma waitForConnectivity_connects (run : nat) (st : RestartState)
    (tr : list Effect) :
  (exists j, Z.of_nat j < MAX_NETWORK_RETRIES CONFIG /\
             probe w run j = true) ->
  exists tr',
    waitForConnectivity w run st tr =
      Some (true,
            mkRestartState (crashRestartCount st) (lastCrashTime st) 0, tr').
Proof.
  intros (j & Hj & Hp). unfold waitForConnectivity.
  destruct (waitLoop_connects (S (Z.to_nat (MAX_NETWORK_RETRIES CONFIG)))
              run 0 0 tr) as (tr' & ->).
  - lia.
  - rewrite Z.sub_0_r. lia.
  - exists j. rewrite Z.sub_0_r. split; [lia | exact Hp].
  - eauto.
Qed.

(** The network branch of the handler leaves the crash counter and the time
    of the last crash as they were, whether the connection comes back or
    not. *)
Lemma onFailure_network (run : nat) (err : Thrown) (st : RestartState)
    (tr : list Effect) :
  isNetworkError err = true ->
  exists d st' tr',
    onFailure w run err st tr = Some (d, st', tr') /\
    crashRestartCount st' = crashRestartCount st /\
    lastCrashTime st' = lastCrashTime st.
Proof.
  intro Hnet. unfold onFailure. rewrite Hnet.
  match goal with
  | |- context [waitForConnectivity w run st ?t] =>
      destruct (waitForConnectivity_total run st t) as (c & n & tr' & ->)
  end.
  destruct c; do 3 eexists; (split; [reflexivity|]); auto.
Qed.

Lemma runWithAutoRestart_network_step (fuel run : nat) (err : Thrown)
    (st : RestartState) (tr : list Effect) :
  entry w run = Throws err ->
  isNetworkError err = true ->
  (exists j, Z.of_nat j < MAX_NETWORK_RETRIES CONFIG /\
             probe w run j = true) ->
  exists tr',
    runWithAutoRestart (S fuel) w run st tr =
    runWithAutoRestart fuel w (S run)
      (mkRestartState (crashRestartCount st) (lastCrashTime st) 0) tr'.
Proof.
  intros He Hnet Hp. cbn [runWithAutoRestart]. rewrite He.
  unfold onFailure. rewrite Hnet.
  match goal with
  | |- context [waitForConnectivity w run st ?t] =>
      destruct (waitForConnectivity_connects run st t Hp) as (tr' & ->)
  end.
  eauto.
Qed.

(** One turn of the loop through the network branch: the supervisor
    restarts with the crash counter and its time stamp untouched, or it
    stops with status 1, untouched as well. *)
Lemma runWithAutoRestart_network_cases (fuel run : nat) (err : Thrown)
    (st : RestartState) (tr : list Effect) :
  entry w run = Throws err ->
  isNetworkError err = true ->
  (exists tr',
      runWithAutoRestart (S fuel) w run st tr =
      runWithAutoRestart fuel w (S run)
        (mkRestartState (crashRestartCount st) (lastCrashTime st) 0) tr') \/
  (exists count tr',
      runWithAutoRestart (S fuel) w run st tr =
      Some (mkRun (ProcessExit 1)
              (mkRestartState (crashRestartCount st) (lastCrashTime st) count)
              tr' (S run)) /\
      forall j, Z.of_nat j < MAX_NETWORK_RETRIES CONFIG ->
                probe w run j = false).
Proof.
  intros He Hnet.
  destruct (Forall_Exists_dec (fun j => probe w run j = false)
              (fun j => bool_dec (probe w run j) false)
              (seq 0 (Z.to_nat (MAX_NETWORK_RETRIES CONFIG))))
    as [Hall | Hex].
  - right. cbn [runWithAutoRestart]. rewrite He. unfold onFailure.
    rewrite Hnet.
    match goal with
    | |- context [waitForConnectivity w run st ?t] =>
        destruct (waitForConnectivity_total run st t) as (c & n & tr' & E)
    end.
    rewrite E. destruct c.
    + exfalso. revert E. unfold waitForConnectivity.
      change (Z.to_nat (MAX_NETWORK_RETRIES CONFIG)) with 10%nat in *.
      rewrite Forall_forall in Hall.
      assert (Hp : forall j, (j < 10)%nat -> probe w run j = false).
      { intros j Hj. apply Hall. apply in_seq. lia. }
      do 10 (rewrite waitLoop_step by (cbn; lia); cbn zeta;
             rewrite Hp by lia).
      rewrite waitLoop_stop by (cbn; lia). discriminate.
    + do 2 eexists. split; [reflexivity|].
      intros j Hj. rewrite Forall_forall in Hall. apply Hall.
      apply in_seq. lia.
  - left. apply runWithAutoRestart_network_step with (err := err); auto.
    apply Exists_exists in Hex as (j & Hj & Hp).
    apply in_seq in Hj. exists j. split; [lia|].
    destruct (probe w run j); [reflexivity | congruence].
Qed.

(** When no probe answers, the wait gives up after the retry budget and the
    supervisor stops with a failure, the crash counter untouched. *)
Lemma runWithAutoRestart_network_exhausted (fuel : nat) (err : Thrown) :
  entry w 0%nat = Throws err ->
  isNetworkError err = true ->
  (forall j, probe w 0%nat j = false) ->
  exists r,
    runWithAutoRestart (S fuel) w 0 initialRestartState [] = Some r /\
    termination r = ProcessExit 1 /\
    restarts r = 0%nat /\
    finalState r = mkRestartState 0 0 (MAX_NETWORK_RETRIES CONFIG).
Proof.
  intros He Hnet Hp. cbn [runWithAutoRestart]. rewrite He.
  unfold onFailure. rewrite Hnet. unfold waitForConnectivity.
  change (Z.to_nat (MAX_NETWORK_RETRIES CONFIG)) with 10%nat.
  do 10 (rewrite waitLoop_step by (cbn; lia); cbn zeta; rewrite Hp).
  rewrite waitLoop_stop by (cbn; lia).
  eexists. split; [reflexivity|]. auto.
Qed.

End Supervisor.

(** The crash budget when what is thrown is an error object, or any value
    that is not [null] or [undefined].  The handler of a generic failure
    counts it and stamps it, and stops exactly when the count reaches the
    maximum.  With the entry point always throwing such a value that is not
    network-classified, a budget of 3 and a window of 60000 ms with every
    crash inside it, the supervisor restarts twice and at the third failure
    prints its fatal diagnostic and exits with status 1. *)
Theorem supervisor_crash_budget :
  MAX_CRASH_RESTARTS CONFIG = 3%Z /\ CRASH_WINDOW_MS CONFIG = 60000%Z /\
  (forall w run err st tr,
      isNetworkError err = false ->
      exists d st' tr',
        onFailure w run err st tr = Some (d, st', tr') /\
        crashRestartCount st' =
          ((if (now w run - lastCrashTime st >? CRASH_WINDOW_MS CONFIG)%Z
            then 0 else crashRestartCount st) + 1)%Z /\
        lastCrashTime st' = now w run /\
        (d = Restart <->
         (crashRestartCount st' < MAX_CRASH_RESTARTS CONFIG)%Z)) /\
  (forall w (message : nat -> option jsstring) (fuel : nat),
      (forall k, exists code,
          entry w k = Throws (ThrownError code (message k)) /\
          isNetworkError (ThrownError code (message k)) = false) ->
      (forall k, (now w (S k) - now w k <= CRASH_WINDOW_MS CONFIG)%Z) ->
      (3 <= fuel)%nat ->
      exists r,
        runWithAutoRestart fuel w 0 initialRestartState [] = Some r /\
        termination r = ProcessExit 1 /\
        restarts r = 2%nat /\
        crashRestartCount (finalState r) = MAX_CRASH_RESTARTS CONFIG /\
        lastCrashTime (finalState r) = now w 2 /\
        effects r =
          [ImportCli; ConsoleWarn (CrashedRestarting 1 3); SetTimeout 1000;
           ImportCli; ConsoleWarn (CrashedRestarting 2 3); SetTimeout 1000;
           ImportCli; ConsoleError (CrashedStopping 3 60000);
           ConsoleError (CrashedError (message 2%nat))]).
Proof.
  split; [reflexivity|]. split; [reflexivity|]. split.
  - intros w run err st tr Hnet.
    destruct (onFailure_generic w run err st tr Hnet)
      as (d & st' & tr' & H1 & H2 & H3 & _ & H5).
    exists d, st', tr'. auto.
  - intros w message fuel Hthrow Hwin Hfuel.
    destruct fuel as [|[|[|fuel]]]; try lia.
    destruct (Hthrow 0%nat) as (c0 & E0 & N0).
    destruct (Hthrow 1%nat) as (c1 & E1 & N1).
    destruct (Hthrow 2%nat) as (c2 & E2 & N2).
    pose proof (Hwin 0%nat) as W0. pose proof (Hwin 1%nat) as W1.
    change (CRASH_WINDOW_MS CONFIG) with 60000%Z in W0, W1.
    cbn [runWithAutoRestart]. rewrite E0. unfold onFailure at 1.
    rewrite N0. cbn [initialRestartState crashRestartCount lastCrashTime
                     networkRetryCount].
    change (CRASH_WINDOW_MS CONFIG) with 60000%Z.
    change (MAX_CRASH_RESTARTS CONFIG) with 3%Z.
    replace ((if (now w 0 - 0 >? 60000)%Z then 0 else 0) + 1)%Z with 1%Z
      by (destruct (now w 0 - 0 >? 60000)%Z; reflexivity).
    cbn [Z.geb Z.compare Pos.compare Pos.compare_cont].
    rewrite E1. unfold onFailure at 1. rewrite N1.
    cbn [crashRestartCount lastCrashTime networkRetryCount].
    change (CRASH_WINDOW_MS CONFIG) with 60000%Z.
    change (MAX_CRASH_RESTARTS CONFIG) with 3%Z.
    replace (now w 1 - now w 0 >? 60000)%Z with false
      by (symmetry; rewrite Z.gtb_ltb; apply Z.ltb_ge; lia).
    cbn [Z.add Pos.add Z.geb Z.compare Pos.compare Pos.compare_cont].
    rewrite E2. unfold onFailure at 1. rewrite N2.
    cbn [crashRestartCount lastCrashTime networkRetryCount].
    change (CRASH_WINDOW_MS CONFIG) with 60000%Z.
    change (MAX_CRASH_RESTARTS CONFIG) with 3%Z.
    replace (now w 2 - now w 1 >? 60000)%Z with false
      by (symmetry; rewrite Z.gtb_ltb; apply Z.ltb_ge; lia).
    cbn [Z.add Pos.add Pos.succ Z.geb Z.compare Pos.compare
         Pos.compare_cont].
    eexists. split; [reflexivity|].
    cbn. repeat split; reflexivity.
Qed.

Lemma supervisor_crash_budget_witness :
  exists r,
    runWithAutoRestart 3
      (mkWorld (fun _ => Throws (ThrownError None (Some (lit "boom"))))
               (fun k => 1700000000000 + 1000 * Z.of_nat k)%Z
               (fun _ _ => false))
      0 initialRestartState [] = Some r /\
    termination r = ProcessExit 1 /\
    restarts r = 2%nat.
Proof.
  destruct (proj2 (proj2 (proj2 supervisor_crash_budget))
              (mkWorld (fun _ => Throws (ThrownError None (Some (lit "boom"))))
                       (fun k => 1700000000000 + 1000 * Z.of_nat k)%Z
                       (fun _ _ => false))
              (fun _ => Some (lit "boom")) 3%nat)
    as (r & H1 & H2 & H3 & _).
  - intro k. exists None. split; reflexivity.
  - intro k. cbn [now]. change (CRASH_WINDOW_MS CONFIG) with 60000%Z. lia.
  - lia.
  - exists r. auto.
Defined.

(** C1, at its failing input.  [null] is not network-classified.  With the
    entry point throwing [null] on every import and three failures inside
    the window, each failure is counted, the supervisor restarts twice, and
    at the third failure it prints the stopping line; then reading the
    message of the thrown value throws.  The error line is not printed and
    [process.exit(1)] is not called: the run ends by that exception, with
    any fuel from 3 on. *)
Theorem supervisor_crash_budget_null :
  forall fuel : nat,
    let w := mkWorld (fun _ => Throws ThrownNullish)
                     (fun k => 1700000000000 + 1000 * Z.of_nat k)%Z
                     (fun _ _ => false) in
    isNetworkError ThrownNullish = false /\
    (forall k : nat, (now w (S k) - now w k <= CRASH_WINDOW_MS CONFIG)%Z) /\
    exists r,
      runWithAutoRestart (3 + fuel) w 0 initialRestartState [] = Some r /\
      termination r = HandlerThrew /\
      (forall code, termination r <> ProcessExit code) /\
      restarts r = 2%nat /\
      crashRestartCount (finalState r) = MAX_CRASH_RESTARTS CONFIG /\
      effects r =
        [ImportCli; ConsoleWarn (CrashedRestarting 1 3); SetTimeout 1000;
         ImportCli; ConsoleWarn (CrashedRestarting 2 3); SetTimeout 1000;
         ImportCli; ConsoleError (CrashedStopping 3 60000)].
Proof.
  intros fuel w. split; [reflexivity|]. split.
  - intro k. subst w. cbn [now].
    change (CRASH_WINDOW_MS CONFIG) with 60000%Z. lia.
  - eexists. split; [reflexivity|]. cbn.
    split; [reflexivity|]. split; [discriminate|].
    repeat split; reflexivity.
Qed.

(** One turn of the loop through the network branch, the connection coming
    back. *)
Ltac network_step e E N P :=
  match goal with
  | |- context [runWithAutoRestart (S ?f) ?w ?run ?st ?tr] =>
      let tr' := fresh "tr" in
      destruct (runWithAutoRestart_network_step w f run e st tr E N P)
        as (tr' & ->)
  end.

(** One turn of the loop through the network branch, either way; the goal
    is closed when the supervisor stops. *)
Ltac network_case e E N :=
  match goal with
  | |- context [runWithAutoRestart (S ?f) ?w ?run ?st ?tr] =>
      let tr' := fresh "tr" in
      let n := fresh "n" in
      let Hp := fresh "Hp" in
      destruct (runWithAutoRestart_network_cases w f run e st tr E N)
        as [(tr' & ->) | (n & tr' & -> & Hp)];
      [| eexists; split; [reflexivity|]; cbn; repeat split; auto;
         right; repeat split; auto; lia ]
  end.

(** C2.  The network branch of the failure handler leaves the crash counter
    and the time of the last crash unchanged.  With the entry point throwing
    a connectivity error three times and then completing, a retry budget of
    10 and the connection coming back within it each time, the supervisor
    restarts three times, the crash counter and its time stamp are what they
    were at the start, and the run ends in success. *)
Theorem network_failures_spare_crash_budget :
  MAX_NETWORK_RETRIES CONFIG = 10%Z /\
  (forall w run err st tr,
      isNetworkError err = true ->
      exists d st' tr',
        onFailure w run err st tr = Some (d, st', tr') /\
        crashRestartCount st' = crashRestartCount st /\
        lastCrashTime st' = lastCrashTime st) /\
  (forall w (fuel : nat),
      (forall k, (k < 3)%nat ->
         exists err, entry w k = Throws err /\ isNetworkError err = true) ->
      entry w 3 = Completes ->
      (forall k, (k < 3)%nat ->
         exists j, (Z.of_nat j < MAX_NETWORK_RETRIES CONFIG)%Z /\
                   probe w k j = true) ->
      (4 <= fuel)%nat ->
      exists r,
        runWithAutoRestart fuel w 0 initialRestartState [] = Some r /\
        termination r = NormalExit /\
        restarts r = 3%nat /\
        finalState r = initialRestartState) /\
  (forall w (fuel : nat),
      (forall k, (k < 3)%nat ->
         exists err, entry w k = Throws err /\ isNetworkError err = true) ->
      entry w 3 = Completes ->
      (4 <= fuel)%nat ->
      exists r,
        runWithAutoRestart fuel w 0 initialRestartState [] = Some r /\
        crashRestartCount (finalState r) = 0%Z /\
        lastCrashTime (finalState r) = 0%Z /\
        ((termination r = NormalExit /\ restarts r = 3%nat) \/
         (termination r = ProcessExit 1 /\ (restarts r < 3)%nat /\
          forall j, (Z.of_nat j < MAX_NETWORK_RETRIES CONFIG)%Z ->
                    probe w (restarts r) j = false))).
Proof.
  split; [reflexivity|]. split; [|split].
  - intros w run err st tr. apply onFailure_network.
  - intros w fuel Hthrow Hdone Hprobe Hfuel.
    destruct fuel as [|[|[|[|fuel]]]]; try lia.
    destruct (Hthrow 0%nat) as (e0 & E0 & N0); [lia|].
    destruct (Hthrow 1%nat) as (e1 & E1 & N1); [lia|].
    destruct (Hthrow 2%nat) as (e2 & E2 & N2); [lia|].
    network_step e0 E0 N0 (Hprobe 0%nat ltac:(lia)).
    network_step e1 E1 N1 (Hprobe 1%nat ltac:(lia)).
    network_step e2 E2 N2 (Hprobe 2%nat ltac:(lia)).
    cbn [runWithAutoRestart]. rewrite Hdone.
    eexists. split; [reflexivity|].
    cbn. repeat split; reflexivity.
  - intros w fuel Hthrow Hdone Hfuel.
    destruct fuel as [|[|[|[|fuel]]]]; try lia.
    destruct (Hthrow 0%nat) as (e0 & E0 & N0); [lia|].
    destruct (Hthrow 1%nat) as (e1 & E1 & N1); [lia|].
    destruct (Hthrow 2%nat) as (e2 & E2 & N2); [lia|].
    network_case e0 E0 N0. network_case e1 E1 N1. network_case e2 E2 N2.
    cbn [runWithAutoRestart]. rewrite Hdone.
    eexists. split; [reflexivity|]. cbn. auto.
Qed.

Lemma network_failures_spare_crash_budget_witness :
  exists r,
    runWithAutoRestart 4
      (mkWorld
         (fun k => if Nat.ltb k 3
                   then Throws (ThrownError (Some (lit "ENOTFOUND"))
                                            (Some (lit "getaddrinfo")))
                   else Completes)
         (fun _ => 1700000000000%Z)
         (fun _ j => Nat.eqb j 1))
      0 initialRestartState [] = Some r /\
    termination r = NormalExit /\
    restarts r = 3%nat /\
    finalState r = initialRestartState.
Proof.
  apply (proj1 (proj2 (proj2 network_failures_spare_crash_budget))).
  - intros k Hk. cbn [entry].
    destruct k as [|[|[|k]]]; try lia; eexists; split; reflexivity.
  - reflexivity.
  - intros k Hk. exists 1%nat. split; [reflexivity | reflexivity].
  - lia.
Defined.

(* ================================================================== *)
(** ** The path translator *)
(* ================================================================== *)

Section PathTranslator.

Open Scope N_scope.

Ltac ascii_cases :=
  unfold asciiLower, asciiUpper, isAsciiLetter, isUpperAscii, isLowerAscii,
    inRange in *;
  repeat match goal with
         | |- context [(?a <=? ?b)] => destruct (N.leb_spec a b)
         | |- context [(?a =? ?b)] => destruct (N.eqb_spec a b)
         | H : context [(?a <=? ?b)] |- _ => destruct (N.leb_spec a b)
         | H : context [(?a =? ?b)] |- _ => destruct (N.eqb_spec a b)
         end;
  cbn [andb orb negb] in *; try discriminate; try reflexivity; try lia.

(** Under the [i] flag the class [[A-Z]] is the ASCII letters. *)
Lemma class_AZ_ignoreCase (c : jschar) :
  cset_mem true (CRange 65 90) c = isAsciiLetter c.
Proof. cbn [cset_mem andb]. ascii_cases. Qed.

Lemma toLowerCase_slash_letter (d : jschar) :
  isAsciiLetter d = true -> toLowerCase [47; d] = [47; asciiLower d].
Proof.
  intro H. unfold toLowerCase. cbn [flat_map app].
  change (lowerUnit 47) with [47]. unfold lowerUnit. cbn [app].
  f_equal. revert H. ascii_cases.
Qed.

Lemma asciiLower_letter (c : jschar) :
  isAsciiLetter c = true ->
  isAsciiLetter (asciiLower c) = true /\
  asciiLower (asciiLower c) = asciiLower c /\
  asciiLower c <> 92.
Proof. intro H. repeat split; revert H; ascii_cases. Qed.

Lemma replaceDrive_eq (s : jsstring) :
  replaceDrive s =
    match s with
    | c :: d :: rest =>
        if isAsciiLetter c && (d =? 58) then 47 :: c :: rest else s
    | _ => s
    end.
Proof.
  destruct s as [|c [|d rest]]; try reflexivity.
  unfold replaceDrive. rewrite class_AZ_ignoreCase. reflexivity.
Qed.

Lemma lowerLeading_eq (s : jsstring) :
  lowerLeading s =
    match s with
    | c :: d :: rest =>
        if (c =? 47) && isAsciiLetter d then 47 :: asciiLower d :: rest
        else s
    | _ => s
    end.
Proof.
  destruct s as [|c [|d rest]]; try reflexivity.
  unfold lowerLeading. rewrite class_AZ_ignoreCase.
  destruct (N.eqb_spec c 47) as [-> | Hc]; [|reflexivity].
  destruct (isAsciiLetter d) eqn:E; [|reflexivity].
  cbn [andb]. rewrite toLowerCase_slash_letter by assumption. reflexivity.
Qed.

Lemma replaceBackslashes_none (s : jsstring) :
  ~ In 92 s -> replaceBackslashes s = s.
Proof.
  induction s as [|c s IH]; intro H; [reflexivity|].
  cbn [replaceBackslashes map]. fold (replaceBackslashes s).
  rewrite IH by (intro; apply H; right; assumption).
  destruct (N.eqb_spec c 92) as [-> | _]; [|reflexivity].
  exfalso. apply H. left. reflexivity.
Qed.

Lemma replaceBackslashes_clean (s : jsstring) :
  ~ In 92 (replaceBackslashes s).
Proof.
  induction s as [|c s IH]; [intros []|].
  cbn [replaceBackslashes map]. fold (replaceBackslashes s).
  intros [H | H]; [|exact (IH H)].
  destruct (N.eqb_spec c 92); [discriminate | congruence].
Qed.

Lemma translated_fixed (p : jsstring) :
  translated p -> windowsToPosix p = p.
Proof.
  intros (Hb & Hd & Hl). unfold windowsToPosix.
  rewrite replaceBackslashes_none, Hd, Hl by assumption. reflexivity.
Qed.

Lemma translated_slash_lower (c : jschar) (rest : jsstring) :
  isAsciiLetter c = true -> ~ In 92 rest ->
  translated (47 :: asciiLower c :: rest).
Proof.
  intros Hc Hrest. destruct (asciiLower_letter c Hc) as (H1 & H2 & H3).
  split; [|split].
  - intros [H | [H | H]]; [discriminate | congruence | auto].
  - rewrite replaceDrive_eq. cbv iota.
    change (isAsciiLetter 47) with false. reflexivity.
  - rewrite lowerLeading_eq. cbv iota. rewrite N.eqb_refl, H1, H2.
    reflexivity.
Qed.

Lemma windowsToPosix_translated (p : jsstring) :
  translated (windowsToPosix p).
Proof.
  unfold windowsToPosix.
  pose proof (replaceBackslashes_clean p) as Hclean.
  destruct (replaceBackslashes p) as [|c [|d rest]];
    [split; [assumption | split; reflexivity] .. |].
  assert (Hrest : ~ In 92 rest)
    by (intro H; apply Hclean; right; right; exact H).
  rewrite (replaceDrive_eq (c :: d :: rest)).
  destruct (isAsciiLetter c && (d =? 58)) eqn:Edrive.
  - apply andb_true_iff in Edrive as [Hc _].
    rewrite lowerLeading_eq. cbv iota. rewrite N.eqb_refl, Hc. cbn [andb].
    apply translated_slash_lower; assumption.
  - rewrite (lowerLeading_eq (c :: d :: rest)).
    destruct ((c =? 47) && isAsciiLetter d) eqn:Elower.
    + apply andb_true_iff in Elower as [_ Hd].
      apply translated_slash_lower; assumption.
    + split; [exact Hclean | split].
      * rewrite replaceDrive_eq, Edrive. reflexivity.
      * rewrite lowerLeading_eq, Elower. reflexivity.
Qed.

End PathTranslator.

(** C6, as the code has it.  A native path [<Letter>:\a\b] translates to
    [/<lowercase-letter>/a/b].  The translator returns its input when the
    input has no backslash, no leading [<Letter>:] and no capital ASCII
    letter after a leading slash, and it is idempotent: translating its own
    output changes nothing. *)
Theorem windowsToPosix_paths :
  (forall (L : jschar) (a b : jsstring),
      isAsciiLetter L = true -> ~ In 92%N a -> ~ In 92%N b ->
      windowsToPosix (L :: 58%N :: 92%N :: a ++ 92%N :: b) =
        47%N :: asciiLower L :: 47%N :: a ++ 47%N :: b) /\
  (forall p : jsstring,
      ~ In 92%N p ->
      (forall L rest, p = L :: 58%N :: rest -> isAsciiLetter L = false) ->
      (forall c rest, p = 47%N :: c :: rest -> isUpperAscii c = false) ->
      windowsToPosix p = p) /\
  (forall p : jsstring,
      windowsToPosix (windowsToPosix p) = windowsToPosix p).
Proof.
  split; [|split].
  - intros L a b HL Ha Hb. unfold windowsToPosix.
    assert (E : replaceBackslashes (L :: 58%N :: 92%N :: a ++ 92%N :: b) =
                L :: 58%N :: 47%N :: a ++ 47%N :: b).
    { unfold replaceBackslashes. cbn [map]. rewrite map_app. cbn [map].
      fold (replaceBackslashes a). fold (replaceBackslashes b).
      rewrite !replaceBackslashes_none by assumption.
      replace (L =? 92)%N with false; [reflexivity|].
      symmetry. apply N.eqb_neq. intros ->. discriminate HL. }
    rewrite E, replaceDrive_eq, HL. cbn [andb N.eqb Pos.eqb].
    rewrite lowerLeading_eq, HL. reflexivity.
  - intros p Hb Hd Hl. apply translated_fixed. split; [exact Hb | split].
    + rewrite replaceDrive_eq. destruct p as [|c [|d rest]]; try reflexivity.
      destruct (N.eqb_spec d 58) as [-> | _];
        [|rewrite andb_false_r; reflexivity].
      rewrite (Hd c rest eq_refl). reflexivity.
    + rewrite lowerLeading_eq. destruct p as [|c [|d rest]]; try reflexivity.
      destruct (N.eqb_spec c 47) as [-> | _]; [|reflexivity].
      cbn [andb]. destruct (isAsciiLetter d) eqn:E; [|reflexivity].
      specialize (Hl d rest eq_refl).
      unfold asciiLower. rewrite Hl. reflexivity.
  - intro p. apply translated_fixed, windowsToPosix_translated.
Qed.

Lemma windowsToPosix_paths_witness :
  windowsToPosix (lit "C:\Users\johan") = lit "/c/Users/johan" /\
  windowsToPosix (lit "/c/Users/johan") = lit "/c/Users/johan".
Proof.
  split.
  - apply (proj1 windowsToPosix_paths 67%N (lit "Users") (lit "johan")).
    + reflexivity.
    + vm_compute. intuition discriminate.
    + vm_compute. intuition discriminate.
  - apply (proj1 (proj2 windowsToPosix_paths)).
    + vm_compute. intuition discriminate.
    + intros L rest H. vm_compute in H. discriminate H.
    + intros c rest H. vm_compute in H. injection H as <- _. reflexivity.
Defined.

(** C6, as the specification words it, fails: a POSIX path that begins with
    a slash and a capital letter comes back with that letter in lower
    case. *)
Lemma windowsToPosix_posix_counterexample :
  windowsToPosix (lit "/Users/johan") = lit "/users/johan" /\
  windowsToPosix (lit "/Users/johan") <> lit "/Users/johan".
Proof. split; [reflexivity | discriminate]. Qed.

(* ================================================================== *)
(** ** The permission hook and the settings hook *)
(* ================================================================== *)

Import Json Hooks.

Lemma jsstring_eqb_eq (a b : jsstring) : jsstring_eqb a b = true <-> a = b.
Proof.
  revert b. induction a as [|x a IH]; intros [|y b]; simpl;
    try (split; [discriminate | discriminate]); [tauto|].
  rewrite andb_true_iff, N.eqb_eq, IH. split.
  - intros [-> ->]. reflexivity.
  - intros [= -> ->]. auto.
Qed.

Lemma jsstring_eqb_refl (a : jsstring) : jsstring_eqb a a = true.
Proof. apply jsstring_eqb_eq. reflexivity. Qed.

Lemma jsstring_eqb_neq (a b : jsstring) : a <> b -> jsstring_eqb a b = false.
Proof.
  intro H. destruct (jsstring_eqb a b) eqn:E; [|reflexivity].
  apply jsstring_eqb_eq in E. contradiction.
Qed.



Lemma isExcluded_iff (t : jsstring) :
  isExcluded (Some (JString t)) = true <->
  t = lit "AskUserQuestion" \/ t = lit "ExitPlanMode".
Proof.
  unfold isExcluded, excludedTools. cbn [existsb].
  rewrite orb_false_r, orb_true_iff, !jsstring_eqb_eq. reflexivity.
Qed.

Lemma isExcluded_object (request : JSON) :
  isExcluded (member (lit "tool_name") request) = true ->
  exists members t,
    request = JObject members /\
    lookup (lit "tool_name") members = Some (JString t).
Proof.
  destruct request as [| | | | |members]; try discriminate. cbn [member].
  destruct (lookup (lit "tool_name") members) as [[]|] eqn:E;
    try discriminate.
  eauto.
Qed.

(** C7, as the code has it.  A request whose tool is AskUserQuestion or
    ExitPlanMode, and whose [cwd] is absent, falsy or a string, gets the
    empty string and exactly one notification.  Every request with another
    tool, and every input that does not parse, gets the allow decision, which
    has no [ok] member, and no notification.  No input gets anything but the
    empty string or the allow decision. *)
Theorem handlePermissionRequest_decides :
  (forall request,
      isExcluded (member (lit "tool_name") request) = true ->
      match member (lit "cwd") request with
      | Some cwd => truthy cwd = false \/ exists s, cwd = JString s
      | None => True
      end ->
      exists n, handlePermissionRequest (Parsed request) = (EmptyString, [n])) /\
  (forall request,
      isExcluded (member (lit "tool_name") request) = false ->
      handlePermissionRequest (Parsed request) =
        (Stringified allowDecision, [])) /\
  handlePermissionRequest SyntaxError = (Stringified allowDecision, []) /\
  (forall input,
      fst (handlePermissionRequest input) = EmptyString \/
      handlePermissionRequest input = (Stringified allowDecision, [])) /\
  member (lit "ok") allowDecision = None /\
  (forall t,
      isExcluded (Some (JString t)) = true <->
      t = lit "AskUserQuestion" \/ t = lit "ExitPlanMode").
Proof.
  split; [|split; [|split; [|split; [|split]]]].
  - intros request Hex Hcwd.
    destruct (isExcluded_object request Hex) as (members & t & -> & Ht).
    unfold handlePermissionRequest. rewrite Hex.
    destruct (member (lit "cwd") (JObject members)) as [cwd|]; [|eauto].
    destruct Hcwd as [Hf | (s & ->)]; [|eauto].
    destruct cwd; try rewrite Hf; eauto.
  - intros request Hex. unfold handlePermissionRequest. rewrite Hex.
    destruct request; reflexivity.
  - reflexivity.
  - intros [|request]; [right; reflexivity|].
    unfold handlePermissionRequest.
    destruct (isExcluded (member (lit "tool_name") request)).
    + destruct request as [| | | | |members];
        try (first [left; reflexivity | right; reflexivity]).
      destruct (member (lit "cwd") (JObject members)) as [cwd|];
        [|left; reflexivity].
      destruct cwd; try (left; reflexivity);
        match goal with
        | |- context [if ?b then _ else _] => destruct b
        end; first [left; reflexivity | right; reflexivity].
    + destruct request; right; reflexivity.
  - reflexivity.
  - apply isExcluded_iff.
Qed.

Lemma handlePermissionRequest_decides_witness :
  exists n,
    handlePermissionRequest
      (Parsed (JObject [(lit "tool_name", JString (lit "AskUserQuestion"));
                        (lit "cwd", JString (lit "C:\work\MyApp"))])) =
    (EmptyString, [n]).
Proof.
  apply (proj1 handlePermissionRequest_decides).
  - reflexivity.
  - right. eexists. reflexivity.
Defined.

(** C7, as the specification words it, fails: the request
    [{"tool_name":"AskUserQuestion","cwd":5}] names an excluded tool, yet
    [path.basename] throws on its [cwd], the handler fails open, and the
    answer is the allow decision with no notification. *)
Lemma handlePermissionRequest_excluded_counterexample :
  isExcluded
    (member (lit "tool_name")
       (JObject [(lit "tool_name", JString (lit "AskUserQuestion"));
                 (lit "cwd", JNumber 5)])) = true /\
  handlePermissionRequest
    (Parsed (JObject [(lit "tool_name", JString (lit "AskUserQuestion"));
                      (lit "cwd", JNumber 5)])) =
    (Stringified allowDecision, []) /\
  Stringified allowDecision <> EmptyString.
Proof. repeat split; try reflexivity. discriminate. Qed.




(* ================================================================== *)
(** ** The lifecycle hooks *)
(* ================================================================== *)

Section LifecycleHooks.

Import Lifecycle.

Variable originalProcessKill : Z -> Signal -> Completion JsValue.
Variable originalChildProcessKill :
  ChildProcess -> Signal -> Completion JsValue.
Variable execSync : Command -> Completion unit.

Lemma processKill_success (pid : Z) (signal : Signal) (v : JsValue) :
  originalProcessKill pid signal = Return v ->
  processKill originalProcessKill execSync pid signal = (Return v, []).
Proof. intro H. unfold processKill. rewrite H. reflexivity. Qed.

Lemma processKill_EPERM (pid : Z) (signal : Signal) (err : JsError) :
  originalProcessKill pid signal = Throw err ->
  hasCode err "EPERM" = true ->
  processKill originalProcessKill execSync pid signal =
    (Return Undefined, [Taskkill pid 5000]).
Proof.
  intros H Hc. unfold processKill. rewrite H, Hc.
  destruct (execSync (Taskkill pid 5000)); reflexivity.
Qed.

Lemma processKill_ESRCH (pid : Z) (signal : Signal) (err : JsError) :
  originalProcessKill pid signal = Throw err ->
  hasCode err "EPERM" = false ->
  hasCode err "ESRCH" = true ->
  processKill originalProcessKill execSync pid signal = (Return Undefined, []).
Proof. intros H Hp Hs. unfold processKill. rewrite H, Hp, Hs. reflexivity. Qed.

Lemma processKill_other (pid : Z) (signal : Signal) (err : JsError) :
  originalProcessKill pid signal = Throw err ->
  hasCode err "EPERM" = false ->
  hasCode err "ESRCH" = false ->
  processKill originalProcessKill execSync pid signal = (Throw err, []).
Proof. intros H Hp Hs. unfold processKill. rewrite H, Hp, Hs. reflexivity. Qed.

Lemma childProcessKill_success (this : ChildProcess) (signal : Signal)
    (v : JsValue) :
  originalChildProcessKill this signal = Return v ->
  childProcessKill execSync originalChildProcessKill this signal =
    (Return v, []).
Proof. intro H. unfold childProcessKill. rewrite H. reflexivity. Qed.

Lemma childProcessKill_recovers (this : ChildProcess) (signal : Signal)
    (err : JsError) :
  originalChildProcessKill this signal = Throw err ->
  hasCode err "EPERM" || hasCode err "ESRCH" = true ->
  childProcessKill execSync originalChildProcessKill this signal =
    (Return Undefined,
     match truthyPid this with
     | Some p => [Taskkill p 5000]
     | None => []
     end).
Proof.
  intros H Hc. unfold childProcessKill. rewrite H, Hc.
  destruct (truthyPid this) as [p|]; [|reflexivity].
  destruct (execSync (Taskkill p 5000)); reflexivity.
Qed.

Lemma childProcessKill_other (this : ChildProcess) (signal : Signal)
    (err : JsError) :
  originalChildProcessKill this signal = Throw err ->
  hasCode err "EPERM" || hasCode err "ESRCH" = false ->
  childProcessKill execSync originalChildProcessKill this signal =
    (Throw err, []).
Proof. intros H Hc. unfold childProcessKill. rewrite H, Hc. reflexivity. Qed.

End LifecycleHooks.

(** The kill hooks, as the code has them.  When the real primitive fails
    with EPERM the hooks recover: [process.kill] runs the tree-termination fallback on the
    process identity it was given, [ChildProcess.prototype.kill] runs it when
    the handle has one, and the failure of the fallback changes nothing.
    With ESRCH they recover too, the second hook after trying the same
    fallback.  Any other error is thrown again as it is.  In the recovered
    cases the hooks return [undefined], which differs from the value of a
    primitive that returns [true] where it succeeds. *)
Theorem kill_hooks_recover :
  (forall orig exec pid signal err,
      orig pid signal = Lifecycle.Throw err ->
      Lifecycle.hasCode err "EPERM" = true ->
      Lifecycle.processKill orig exec pid signal =
        (Lifecycle.Return Lifecycle.Undefined,
         [Lifecycle.Taskkill pid 5000])) /\
  (forall orig exec pid signal err,
      orig pid signal = Lifecycle.Throw err ->
      Lifecycle.hasCode err "EPERM" = false ->
      Lifecycle.hasCode err "ESRCH" = true ->
      Lifecycle.processKill orig exec pid signal =
        (Lifecycle.Return Lifecycle.Undefined, [])) /\
  (forall orig exec pid signal err,
      orig pid signal = Lifecycle.Throw err ->
      Lifecycle.hasCode err "EPERM" = false ->
      Lifecycle.hasCode err "ESRCH" = false ->
      Lifecycle.processKill orig exec pid signal = (Lifecycle.Throw err, [])) /\
  (forall orig exec this signal err,
      orig this signal = Lifecycle.Throw err ->
      Lifecycle.hasCode err "EPERM" || Lifecycle.hasCode err "ESRCH" = true ->
      Lifecycle.childProcessKill exec orig this signal =
        (Lifecycle.Return Lifecycle.Undefined,
         match Lifecycle.truthyPid this with
         | Some p => [Lifecycle.Taskkill p 5000]
         | None => []
         end)) /\
  (forall orig exec this signal err,
      orig this signal = Lifecycle.Throw err ->
      Lifecycle.hasCode err "EPERM" || Lifecycle.hasCode err "ESRCH" = false ->
      Lifecycle.childProcessKill exec orig this signal =
        (Lifecycle.Throw err, [])) /\
  (forall orig exec pid signal err pid' signal',
      orig pid signal = Lifecycle.Throw err ->
      Lifecycle.hasCode err "EPERM" || Lifecycle.hasCode err "ESRCH" = true ->
      orig pid' signal' = Lifecycle.Return (Lifecycle.Boolean true) ->
      fst (Lifecycle.processKill orig exec pid signal) <> orig pid' signal').
Proof.
  split; [|split; [|split; [|split; [|split]]]].
  - intros. eapply processKill_EPERM; eassumption.
  - intros. eapply processKill_ESRCH; eassumption.
  - intros. eapply processKill_other; eassumption.
  - intros. eapply childProcessKill_recovers; eassumption.
  - intros. eapply childProcessKill_other; eassumption.
  - intros orig exec pid signal err pid' signal' Hthrow Hcode Hok.
    rewrite Hok.
    destruct (Lifecycle.hasCode err "EPERM") eqn:Ep.
    + rewrite (processKill_EPERM orig exec pid signal err Hthrow Ep).
      discriminate.
    + cbn [orb] in Hcode.
      rewrite (processKill_ESRCH orig exec pid signal err Hthrow Ep Hcode).
      discriminate.
Qed.

(** The call [process.kill(4, 'SIGTERM')], the primitive of the runtime
    throwing EPERM for process 4 and returning [true] where it succeeds. *)
Lemma kill_hooks_recover_witness :
  Lifecycle.processKill
    (fun pid _ =>
       if (pid =? 4)%Z
       then Lifecycle.Throw
              (Lifecycle.mkJsError (Some (lit "EPERM"))
                                   (lit "kill EPERM"))
       else Lifecycle.Return (Lifecycle.Boolean true))
    (fun _ => Lifecycle.Throw
                (Lifecycle.mkJsError None (lit "Command failed")))
    4%Z (Lifecycle.SignalName (lit "SIGTERM")) =
  (Lifecycle.Return Lifecycle.Undefined, [Lifecycle.Taskkill 4 5000]).
Proof.
  apply (proj1 kill_hooks_recover) with
    (err := Lifecycle.mkJsError (Some (lit "EPERM")) (lit "kill EPERM"));
    reflexivity.
Defined.

(** C5, at its failing input.  The primitive of the runtime returns
    [true] where it succeeds and fails for process 4242.  Through the hook,
    [process.kill(4242, 'SIGTERM')] recovers from ESRCH, and from EPERM
    with the fallback, whether the fallback succeeds or fails; each time
    the hook returns [undefined], which is not the [true] the primitive
    returns where it succeeds. *)
Theorem kill_hooks_return_undefined :
  let kill (code : string) (pid : Z) (signal : Lifecycle.Signal)
      : Lifecycle.Completion Lifecycle.JsValue :=
    if (pid =? 4242)%Z
    then Lifecycle.Throw
           (Lifecycle.mkJsError (Some (lit code)) (lit "kill failed"))
    else Lifecycle.Return (Lifecycle.Boolean true) in
  let taskkill (works : bool) (c : Lifecycle.Command)
      : Lifecycle.Completion unit :=
    if works then Lifecycle.Return tt
    else Lifecycle.Throw
           (Lifecycle.mkJsError None (lit "Command failed")) in
  let sigterm := Lifecycle.SignalName (lit "SIGTERM") in
  kill "ESRCH"%string 1%Z sigterm =
    Lifecycle.Return (Lifecycle.Boolean true) /\
  Lifecycle.processKill (kill "ESRCH"%string) (taskkill true) 4242%Z sigterm =
    (Lifecycle.Return Lifecycle.Undefined, []) /\
  Lifecycle.processKill (kill "EPERM"%string) (taskkill true) 4242%Z sigterm =
    (Lifecycle.Return Lifecycle.Undefined, [Lifecycle.Taskkill 4242 5000]) /\
  Lifecycle.processKill (kill "EPERM"%string) (taskkill false) 4242%Z sigterm =
    (Lifecycle.Return Lifecycle.Undefined, [Lifecycle.Taskkill 4242 5000]) /\
  Lifecycle.Return Lifecycle.Undefined <>
    Lifecycle.Return (Lifecycle.Boolean true).
Proof.
  cbv zeta. repeat split; try reflexivity. discriminate.
Qed.

(* ================================================================== *)
(** ** The blocked synthetic subprocess *)
(* ================================================================== *)

Section BlockedChild.

Import Events.

Lemma runTask_spec (task : list Emission) (loop : Loop) :
  runTask task loop =
    mkLoop (listeners loop) (tickQueue loop)
           (delivered loop ++ flat_map (calls (listeners loop)) task)
           (created loop).
Proof.
  revert loop. induction task as [|e task IH]; intro loop.
  - destruct loop. cbn. rewrite app_nil_r. reflexivity.
  - cbn [runTask fold_left]. fold (runTask task (emit e loop)).
    rewrite IH. cbn [emit listeners tickQueue delivered created flat_map].
    rewrite <- app_assoc. reflexivity.
Qed.

Lemma runTasks_spec (tasks : list (list Emission)) (loop : Loop) :
  fold_left (fun l task => runTask task l) tasks loop =
    mkLoop (listeners loop) (tickQueue loop)
           (delivered loop ++
              flat_map (flat_map (calls (listeners loop))) tasks)
           (created loop).
Proof.
  revert loop. induction tasks as [|task tasks IH]; intro loop.
  - destruct loop. cbn. rewrite app_nil_r. reflexivity.
  - cbn [fold_left]. rewrite IH, runTask_spec.
    cbn [listeners tickQueue delivered created flat_map].
    rewrite <- app_assoc. reflexivity.
Qed.

Lemma calls_target (ls : list Listener) (e : Emission) (d : nat * Emission) :
  In d (calls ls e) -> snd d = e.
Proof.
  unfold calls. rewrite in_map_iff. intros (l & <- & _). reflexivity.
Qed.

(** No listener registered before the subprocess was created hears it. *)
Lemma calls_fresh (ls : list Listener) (e : Emission) (id : nat) :
  (forall l, In l ls -> (fst (source l) < id)%nat) ->
  fst (target e) = id ->
  calls ls e = [].
Proof.
  intros Hold He. unfold calls.
  replace (filter (listensTo e) ls) with (@nil Listener); [reflexivity|].
  symmetry. induction ls as [|l ls IH]; [reflexivity|].
  cbn [filter]. unfold listensTo at 1, emitter_eqb.
  replace (Nat.eqb (fst (source l)) (fst (target e))) with false.
  - cbn [andb]. apply IH. intros x Hx. apply Hold. right. exact Hx.
  - symmetry. apply Nat.eqb_neq. specialize (Hold l (or_introl eq_refl)).
    lia.
Qed.

Lemma calls_app (ls ls' : list Listener) (e : Emission) :
  calls (ls ++ ls') e = calls ls e ++ calls ls' e.
Proof. unfold calls. rewrite filter_app, map_app. reflexivity. Qed.

Lemma deliveredOf_old (id : nat) (ls : list Listener)
    (tasks : list (list Emission)) :
  (forall task e, In task tasks -> In e task -> (fst (target e) < id)%nat) ->
  deliveredOf id (flat_map (flat_map (calls ls)) tasks) = [].
Proof.
  intro Hold. unfold deliveredOf.
  match goal with |- filter ?f ?l = [] => assert (H : forallb (fun d => negb (f d)) l = true) end.
  { apply forallb_forall. intros d Hd.
    apply in_flat_map in Hd as (task & Htask & Hd).
    apply in_flat_map in Hd as (e & He & Hd).
    apply calls_target in Hd. rewrite Hd.
    apply negb_true_iff, Nat.eqb_neq. specialize (Hold task e Htask He). lia. }
  revert H. generalize (flat_map (flat_map (calls ls)) tasks).
  intro l. induction l as [|d l IH]; [reflexivity|].
  cbn [forallb filter]. intro H. apply andb_true_iff in H as [Hd Hl].
  apply negb_true_iff in Hd. rewrite Hd. auto.
Qed.

End BlockedChild.

(** C8.  Creating a blocked subprocess calls no listener.  With a listener
    then attached to [data] on its error channel and one to its own [close],
    the queued tasks run, and what the listeners hear of this subprocess is
    one [data] event, whose payload is the reason between [[blocked] ] and a
    line feed, and after it one [close] event with status 1. *)
Theorem blocked_child_emits_after_creation :
  forall (loop : Events.Loop) (reason : jsstring)
         (dataListener closeListener : nat),
    Events.wellFormed loop ->
    let child := fst (Events.createBlockedChildProcess reason loop) in
    let created := snd (Events.createBlockedChildProcess reason loop) in
    let attached :=
      Events.on (Events.identity child, Events.Self) (lit "close") closeListener
        (Events.on (Events.identity child, Events.Stderr) (lit "data")
                   dataListener created) in
    Events.delivered created = Events.delivered loop /\
    Events.pid child = 0%Z /\
    exists earlier,
      Events.delivered (Events.runTicks attached) =
        Events.delivered loop ++ earlier ++
          [(dataListener,
            Events.mkEmission (Events.identity child, Events.Stderr)
              (lit "data")
              (Events.Data (lit "[blocked] " ++ reason ++ lf)));
           (closeListener,
            Events.mkEmission (Events.identity child, Events.Self)
              (lit "close") (Events.ExitStatus 1))] /\
      Events.deliveredOf (Events.identity child) earlier = [] /\
      Events.tickQueue (Events.runTicks attached) = [].
Proof.
  intros loop reason dataListener closeListener [Hls Hq].
  cbn zeta. split; [reflexivity|]. split; [reflexivity|].
  exists (flat_map
            (flat_map
               (Events.calls
                  (Events.listeners loop ++
                     [Events.mkListener (Events.created loop, Events.Stderr)
                        (lit "data") dataListener;
                      Events.mkListener (Events.created loop, Events.Self)
                        (lit "close") closeListener])))
            (Events.tickQueue loop)).
  split; [|split].
  - unfold Events.runTicks.
    cbn [Events.createBlockedChildProcess fst snd Events.on Events.nextTick
         Events.listeners Events.tickQueue Events.delivered Events.created
         Events.identity].
    rewrite fold_left_app. cbn [fold_left].
    rewrite runTasks_spec, runTask_spec.
    cbn [Events.listeners Events.tickQueue Events.delivered Events.created].
    rewrite <- ?app_assoc. f_equal. f_equal.
    unfold Events.blockedTask. cbn [flat_map]. rewrite app_nil_r.
    rewrite !calls_app.
    rewrite !(calls_fresh (Events.listeners loop) _ (Events.created loop))
      by (auto; reflexivity).
    unfold Events.calls. cbn [app filter].
    unfold Events.listensTo, Events.emitter_eqb.
    cbn [Events.source Events.target Events.eventName Events.event fst snd
         Events.channel_eqb].
    rewrite Nat.eqb_refl. cbn [andb].
    change (jsstring_eqb (lit "data") (lit "data")) with true.
    change (jsstring_eqb (lit "close") (lit "close")) with true.
    change (jsstring_eqb (lit "close") (lit "data")) with false.
    change (jsstring_eqb (lit "data") (lit "close")) with false.
    cbn [map app Events.listenerId]. reflexivity.
  - apply deliveredOf_old. exact Hq.
  - unfold Events.runTicks. rewrite runTasks_spec. reflexivity.
Qed.

Lemma blocked_child_emits_after_creation_witness :
  exists earlier,
    Events.delivered
      (Events.runTicks
         (Events.on (0%nat, Events.Self) (lit "close") 2%nat
            (Events.on (0%nat, Events.Stderr) (lit "data") 1%nat
               (snd (Events.createBlockedChildProcess (lit "denied")
                       (Events.mkLoop [] [] [] 0)))))) =
    earlier ++
      [(1%nat,
        Events.mkEmission (0%nat, Events.Stderr) (lit "data")
          (Events.Data (lit "[blocked] denied" ++ lf)));
       (2%nat,
        Events.mkEmission (0%nat, Events.Self) (lit "close")
          (Events.ExitStatus 1))] /\
    Events.deliveredOf 0 earlier = [].
Proof.
  destruct (blocked_child_emits_after_creation
              (Events.mkLoop [] [] [] 0) (lit "denied") 1%nat 2%nat)
    as (_ & _ & earlier & H & Hearlier & _).
  - split; [intros l [] | intros task e []].
  - exists earlier. split; [exact H | exact Hearlier].
Defined.

(* ================================================================== *)
(** ** The tracked subprocess set *)
(* ================================================================== *)

Section TrackedSet.

Import Tracking.

Lemma run_snoc (ops : list Op) (op : Op) :
  run (ops ++ [op]) = step (run ops) op.
Proof. unfold run. rewrite fold_left_app. reflexivity. Qed.

Lemma In_add (c child : Child) (set : list Child) :
  In c (add child set) -> In c set \/ c = child.
Proof.
  unfold add. destruct (existsb (child_eqb child) set); [auto|].
  rewrite in_app_iff. cbn [In]. intros [H | [H | []]]; auto.
Qed.

Lemma add_keeps (c child : Child) (set : list Child) :
  In c set -> In c (add child set).
Proof.
  unfold add. destruct (existsb (child_eqb child) set); [auto|].
  rewrite in_app_iff. auto.
Qed.

Lemma In_delete (c : Child) (k : nat) (set : list Child) :
  In c (delete k set) <-> In c set /\ childId c <> k.
Proof.
  unfold delete. rewrite filter_In, negb_true_iff, Nat.eqb_neq. reflexivity.
Qed.

Lemma killChildren_clears (t : Tracker) : childProcesses (killChildren t) = [].
Proof. unfold killChildren. destruct (childProcesses t) eqn:E; auto. Qed.

(** An entry leaves the set only at its own exit or error event, or at a
    signal teardown. *)
Lemma step_removes (t : Tracker) (op : Op) (c : Child) :
  In c (childProcesses t) ->
  ~ In c (childProcesses (step t op)) ->
  notifies (childId c) op = true \/ tearsDown op = true.
Proof.
  intros Hin Hout. destruct op; cbn [step childProcesses] in Hout;
    cbn [notifies tearsDown]; auto; try contradiction.
  - exfalso. apply Hout. destruct (truthyPid pid); [|exact Hin].
    apply add_keeps. exact Hin.
  - left. rewrite In_delete in Hout.
    apply Nat.eqb_eq. destruct (Nat.eq_dec (childId c) child); tauto.
  - left. rewrite In_delete in Hout.
    apply Nat.eqb_eq. destruct (Nat.eq_dec (childId c) child); tauto.
Qed.

Lemma aliveIn_snoc (ops : list Op) (op : Op) (c : Child) :
  aliveIn ops c ->
  notifies (childId c) op = false -> tearsDown op = false ->
  aliveIn (ops ++ [op]) c.
Proof.
  intros (before & after & -> & Hid & Hpid & Hafter) Hn Ht.
  exists before, (after ++ [op]). repeat split; auto.
  - rewrite <- app_assoc. reflexivity.
  - apply Forall_app. split; [exact Hafter|]. constructor; auto.
Qed.

Lemma tracked_alive (ops : list Op) (c : Child) :
  In c (childProcesses (run ops)) -> aliveIn ops c.
Proof.
  revert c. induction ops as [|op ops IH] using rev_ind; intros c Hin.
  - destruct Hin.
  - rewrite run_snoc in Hin. destruct op; cbn [step childProcesses] in Hin.
    + apply aliveIn_snoc; auto.
    + destruct (truthyPid pid) eqn:Hpid.
      * apply In_add in Hin as [Hin | ->].
        -- apply aliveIn_snoc; auto.
        -- exists ops, []. cbn [childPid childId]. repeat split; auto.
           congruence.
      * apply aliveIn_snoc; auto.
    + apply In_delete in Hin as [Hin Hne].
      apply aliveIn_snoc; auto. cbn [notifies]. apply Nat.eqb_neq. exact Hne.
    + apply In_delete in Hin as [Hin Hne].
      apply aliveIn_snoc; auto. cbn [notifies]. apply Nat.eqb_neq. exact Hne.
    + unfold cleanupAndExit in Hin. cbn [childProcesses] in Hin.
      rewrite killChildren_clears in Hin. destruct Hin.
    + unfold cleanupAndExit in Hin. cbn [childProcesses] in Hin.
      rewrite killChildren_clears in Hin. destruct Hin.
    + unfold cleanupAndExit in Hin. cbn [childProcesses] in Hin.
      rewrite killChildren_clears in Hin. destruct Hin.
    + rewrite killChildren_clears in Hin. destruct Hin.
    + apply aliveIn_snoc; auto.
Qed.

End TrackedSet.

(** C9, as the code has it.  An entry leaves the tracked set only at the
    exit or error event of its own subprocess or at a signal teardown, which
    empties the set; after its exit or error event it is not in the set; and
    whatever has been done (spawns, restarts of the supervisor, events,
    signals), every entry of the set is a subprocess that was spawned with a
    process identity and has since told of neither exit nor error. *)
Theorem tracked_set_removals :
  (forall t op c,
      In c (Tracking.childProcesses t) ->
      ~ In c (Tracking.childProcesses (Tracking.step t op)) ->
      Tracking.notifies (Tracking.childId c) op = true \/
      Tracking.tearsDown op = true) /\
  (forall t c,
      ~ In c (Tracking.childProcesses
                (Tracking.step t (Tracking.ExitEvent (Tracking.childId c)))) /\
      ~ In c (Tracking.childProcesses
                (Tracking.step t (Tracking.ErrorEvent (Tracking.childId c))))) /\
  (forall t op,
      Tracking.tearsDown op = true ->
      Tracking.childProcesses (Tracking.step t op) = []) /\
  (forall ops c,
      In c (Tracking.childProcesses (Tracking.run ops)) ->
      Tracking.aliveIn ops c).
Proof.
  split; [|split; [|split]].
  - apply step_removes.
  - intros t c. cbn [Tracking.step Tracking.childProcesses].
    rewrite In_delete. tauto.
  - intros t op Hop. destruct op; try discriminate;
      cbn [Tracking.step]; unfold Tracking.cleanupAndExit;
      cbn [Tracking.childProcesses]; apply killChildren_clears.
  - apply tracked_alive.
Qed.

Lemma tracked_set_removals_witness :
  Tracking.aliveIn
    [Tracking.SpawnReal (Some 4242%Z); Tracking.SupervisorRestart]
    (Tracking.mkChild 0 (Some 4242%Z)).
Proof.
  apply (proj2 (proj2 (proj2 tracked_set_removals))).
  vm_compute. left. reflexivity.
Defined.

(** C9, as the specification words it, fails: the break signal empties the
    set, so a tracked subprocess leaves it without any exit or error event
    of its own. *)
Lemma tracked_set_cleared_counterexample :
  Tracking.childProcesses (Tracking.run [Tracking.SpawnReal (Some 4242%Z)]) =
    [Tracking.mkChild 0 (Some 4242%Z)] /\
  Tracking.childProcesses
    (Tracking.run [Tracking.SpawnReal (Some 4242%Z); Tracking.SIGBREAK]) = [] /\
  existsb (Tracking.notifies 0)
    [Tracking.SpawnReal (Some 4242%Z); Tracking.SIGBREAK] = false.
Proof. repeat split. Qed.

(* ================================================================== *)
(** * Further properties of the code *)
(* ================================================================== *)

(** ** The command validator *)

Section CaseFolding.

Open Scope N_scope.

Ltac fold_cases :=
  unfold asciiLower, asciiUpper, isAsciiLetter, isUpperAscii, isLowerAscii,
    isLineTerminator, isWhiteSpace, inRange in *;
  repeat match goal with
         | |- context [(?a <=? ?b)] => destruct (N.leb_spec a b)
         | |- context [(?a =? ?b)] => destruct (N.eqb_spec a b)
         end;
  cbn [andb orb negb] in *; try discriminate; try reflexivity; try lia.

Lemma asciiUpper_idem (c : jschar) : asciiUpper (asciiUpper c) = asciiUpper c.
Proof. fold_cases. Qed.

Lemma asciiUpper_cases (c : jschar) :
  (asciiUpper c = c /\ isLowerAscii c = false) \/
  (isLowerAscii c = true /\ c = asciiUpper c + 32 /\
   isUpperAscii (asciiUpper c) = true).
Proof.
  destruct (isLowerAscii c) eqn:E.
  - right. split; [reflexivity|]. revert E. fold_cases.
  - left. unfold asciiUpper. rewrite E. auto.
Qed.

Ltac decide_comparisons :=
  repeat match goal with
         | |- context [(?a =? ?b)] =>
             replace (a =? b) with false by (symmetry; apply N.eqb_neq; lia)
         | |- context [(?a <=? ?b)] =>
             first
               [ replace (a <=? b) with false
                   by (symmetry; apply N.leb_gt; lia)
               | replace (a <=? b) with true
                   by (symmetry; apply N.leb_le; lia) ]
         end;
  reflexivity.

(** A letter is no line terminator, no white space and no digit, and
    neither is its capital. *)
Lemma letter_plain (u c : jschar) :
  (u = c /\ isLowerAscii c = false) \/
  (isLowerAscii c = true /\ c = u + 32 /\ isUpperAscii u = true) ->
  isLineTerminator u = isLineTerminator c /\
  isWhiteSpace u = isWhiteSpace c /\
  inRange 48 57 u = inRange 48 57 c.
Proof.
  intros [[-> _] | (Hl & -> & Hu)]; [auto|].
  assert (Hu' : 65 <= u /\ u <= 90).
  { unfold isUpperAscii in Hu. apply andb_true_iff in Hu as [H1 H2].
    apply N.leb_le in H1, H2. auto. }
  clear Hl Hu. destruct Hu' as [H1 H2].
  unfold isLineTerminator, isWhiteSpace, inRange.
  repeat split; decide_comparisons.
Qed.

(** Under the [i] flag a class does not tell a letter from its capital. *)
Lemma cset_mem_upper (cs : cset) (c : jschar) :
  cset_mem true cs (asciiUpper c) = cset_mem true cs c.
Proof.
  induction cs; cbn [cset_mem andb].
  - rewrite asciiUpper_idem. reflexivity.
  - destruct (asciiUpper_cases c) as [[E _] | (Hl & E & Hu)].
    + rewrite !E. reflexivity.
    + rewrite asciiUpper_idem.
      assert (El : asciiLower (asciiUpper c) = c).
      { unfold asciiLower. rewrite Hu. lia. }
      assert (Ec : asciiLower c = c).
      { unfold asciiLower. replace (isUpperAscii c) with false; [reflexivity|].
        revert Hl. clear. fold_cases. }
      rewrite El, Ec.
      destruct (inRange lo hi (asciiUpper c)), (inRange lo hi c); reflexivity.
  - rewrite IHcs1, IHcs2. reflexivity.
  - rewrite IHcs. reflexivity.
  - rewrite (proj1 (letter_plain (asciiUpper c) c (asciiUpper_cases c))).
    reflexivity.
  - apply (proj1 (proj2 (letter_plain (asciiUpper c) c (asciiUpper_cases c)))).
  - apply (proj2 (proj2 (letter_plain (asciiUpper c) c (asciiUpper_cases c)))).
Qed.

Lemma cset_mem_fold (cs : cset) (c c' : jschar) :
  asciiUpper c = asciiUpper c' ->
  cset_mem true cs c = cset_mem true cs c'.
Proof.
  intro H. rewrite <- (cset_mem_upper cs c), <- (cset_mem_upper cs c'), H.
  reflexivity.
Qed.

Lemma deriv_fold (r : regex) (c c' : jschar) :
  asciiUpper c = asciiUpper c' -> deriv true c r = deriv true c' r.
Proof.
  intro H. induction r; cbn [deriv]; try reflexivity.
  - rewrite (cset_mem_fold cs c c' H). reflexivity.
  - rewrite IHr1, IHr2. reflexivity.
  - rewrite IHr1, IHr2. reflexivity.
  - rewrite IHr. reflexivity.
Qed.

Lemma matchesPrefix_fold (r : regex) (s s' : jsstring) :
  map asciiUpper s = map asciiUpper s' ->
  matchesPrefix true r s = matchesPrefix true r s'.
Proof.
  revert r s'. induction s as [|c s IH]; intros r [|c' s'] H;
    try discriminate; [reflexivity|].
  cbn [map] in H. injection H as Hc Hs. cbn [matchesPrefix].
  rewrite (deriv_fold r c c' Hc), (IH _ s' Hs). reflexivity.
Qed.

Lemma test_fold (re : RegExp) (s s' : jsstring) :
  ignoreCase re = true ->
  map asciiUpper s = map asciiUpper s' ->
  test re s = test re s'.
Proof.
  intros Hic. unfold test. rewrite Hic. generalize (source re). intro r.
  revert s'. induction s as [|c s IH]; intros [|c' s'] H;
    try discriminate; [reflexivity|].
  cbn [searchFrom]. rewrite (matchesPrefix_fold r (c :: s) (c' :: s') H).
  cbn [map] in H. injection H as _ Hs. rewrite (IH s' Hs). reflexivity.
Qed.

End CaseFolding.

(** X1.  A hang-pattern rule gives the same verdict on two commands that
    differ only in the case of their ASCII letters. *)
Theorem safetyRules_ignore_case :
  forall rule command command',
    In rule safetyRules ->
    map asciiUpper command = map asciiUpper command' ->
    ruleFires rule command = ruleFires rule command'.
Proof.
  intros rule command command' Hin H. unfold ruleFires.
  assert (Hic : ignoreCase (detect rule) = true /\
                ignoreCase (unless rule) = true).
  { simpl in Hin. destruct Hin as [<- | [<- | [<- | [<- | []]]]];
      split; reflexivity. }
  destruct Hic as [Hd Hu].
  rewrite (test_fold (detect rule) command command' Hd H),
          (test_fold (unless rule) command command' Hu H).
  reflexivity.
Qed.

Lemma safetyRules_ignore_case_witness :
  ruleFires (nth 3 safetyRules
               (mkSafetyRule [] (mkRegExp RNone false) (mkRegExp RNone false) []))
            (lit "GIT LOG --ALL") =
  ruleFires (nth 3 safetyRules
               (mkSafetyRule [] (mkRegExp RNone false) (mkRegExp RNone false) []))
            (lit "git log --all").
Proof.
  apply safetyRules_ignore_case.
  - simpl. auto.
  - reflexivity.
Defined.

Lemma startsWith_spec (p s : jsstring) :
  startsWith p s = true <-> exists post, s = p ++ post.
Proof.
  revert s. induction p as [|x p IH]; intro s; cbn [startsWith].
  - split; [intros _; exists s; reflexivity | reflexivity].
  - destruct s as [|y s].
    + split; [discriminate | intros (post & H); discriminate].
    + rewrite andb_true_iff, N.eqb_eq, IH. split.
      * intros (-> & post & ->). exists post. reflexivity.
      * intros (post & [= -> ->]). eauto.
Qed.

Lemma includes_spec (p s : jsstring) :
  includes p s = true <-> exists pre post, s = pre ++ p ++ post.
Proof.
  induction s as [|c s IH]; cbn [includes].
  - rewrite orb_false_r, startsWith_spec. split.
    + intros (post & H). exists [], post. exact H.
    + intros (pre & post & H). symmetry in H.
      apply app_eq_nil in H as [-> H]. exists post. symmetry. exact H.
  - rewrite orb_true_iff, startsWith_spec, IH. split.
    + intros [(post & H) | (pre & post & ->)].
      * exists [], post. exact H.
      * exists (c :: pre), post. reflexivity.
    + intros (pre & post & H). destruct pre as [|x pre].
      * left. exists post. exact H.
      * right. cbn [app] in H. injection H as _ ->. eauto.
Qed.

Lemma RLitUnits_Matches (p : jsstring) :
  p <> [] -> Matches false (RLitUnits p) p.
Proof.
  induction p as [|x p IH]; [congruence|]. intros _.
  destruct p as [|y p].
  - cbn [RLitUnits]. constructor. cbn [cset_mem]. apply N.eqb_refl.
  - change (RLitUnits (x :: y :: p))
      with (RCat (RSet (CChar x)) (RLitUnits (y :: p))).
    change (x :: y :: p) with ([x] ++ y :: p). constructor.
    + constructor. cbn [cset_mem]. apply N.eqb_refl.
    + apply IH. discriminate.
Qed.

Lemma firstCygpath_None (command : jsstring) :
  firstCygpath cygpathRules command = None ->
  test nestedQuotesPattern command = false /\
  test shellExpansionPattern command = false /\
  test uncPathPattern command = false.
Proof.
  unfold cygpathRules. cbn [firstCygpath pattern c_reason].
  destruct (test nestedQuotesPattern command); [discriminate|].
  destruct (test shellExpansionPattern command); [discriminate|].
  destruct (test uncPathPattern command); [discriminate|].
  auto.
Qed.

(** A command that contains one of the four literals of the
    shell-expansion pattern matches it. *)
Lemma shellExpansion_literal (command p : jsstring) :
  In p [lit "$("; lit "`"; bs ++ lit "n"; bs ++ lit "r"] ->
  includes p command = true ->
  test shellExpansionPattern command = true.
Proof.
  intros Hp Hin. apply includes_spec in Hin as (pre & post & ->).
  apply test_Matches. exists pre, p, post. split; [reflexivity|].
  cbn [shellExpansionPattern source ignoreCase RAlts].
  cbn [In] in Hp. destruct Hp as [<- | [<- | [<- | [<- | []]]]].
  - apply MAltL. apply (RLitUnits_Matches (lit "$(")). discriminate.
  - apply MAltR, MAltL. apply (RLitUnits_Matches (lit "`")). discriminate.
  - apply MAltR, MAltR, MAltL.
    apply (MCat false backslash (RLit "n") bs (lit "n")).
    + constructor. reflexivity.
    + apply (RLitUnits_Matches (lit "n")). discriminate.
  - apply MAltR, MAltR, MAltR.
    apply (MCat false backslash (RLit "r") bs (lit "r")).
    + constructor. reflexivity.
    + apply (RLitUnits_Matches (lit "r")). discriminate.
Qed.

(** X2.  A command the validator allows has passed every check: it has no
    or two single quotes, no command substitution, backtick or escaped line
    break, no UNC path, no path of more than 260 code units, and no
    hang-pattern rule fires on it. *)
Theorem validateCommand_allowed_is_clean :
  forall command,
    allowed (validateCommand command) = true ->
    (singleQuoteCount command = 0%nat \/ singleQuoteCount command = 2%nat) /\
    (forall p, In p [lit "$("; lit "`"; bs ++ lit "n"; bs ++ lit "r"] ->
               includes p command = false) /\
    test uncPathPattern command = false /\
    (forall p, In p (pathMatches command) -> (List.length p <= 260)%nat) /\
    (forall rule, In rule safetyRules -> ruleFires rule command = false).
Proof.
  intros command Hallowed.
  destruct command as [|c l].
  { repeat split; auto.
    - intros p Hp. cbn [In] in Hp.
      destruct Hp as [<- | [<- | [<- | [<- | []]]]]; reflexivity.
    - intros p [].
    - intros rule Hin. simpl in Hin.
      destruct Hin as [<- | [<- | [<- | [<- | []]]]]; reflexivity. }
  rewrite validateCommand_nonempty in Hallowed by discriminate.
  destruct (Nat.odd (singleQuoteCount (c :: l))) eqn:Hodd; [discriminate|].
  destruct (firstCygpath cygpathRules (c :: l)) eqn:Hcyg; [discriminate|].
  destruct (pathTooLong (c :: l)) eqn:Hlen; [discriminate|].
  destruct (firstSafety safetyRules (c :: l)) eqn:Hsafe; [discriminate|].
  apply firstCygpath_None in Hcyg as (Hnested & Hshell & Hunc).
  split; [|split; [|split; [|split]]].
  - assert (Hlt : ~ (3 <= singleQuoteCount (c :: l))%nat).
    { intro H. apply nestedQuotes_iff in H. congruence. }
    destruct (singleQuoteCount (c :: l)) as [|[|[|n]]]; auto; try lia.
    discriminate Hodd.
  - intros p Hp. destruct (includes p (c :: l)) eqn:E; [|reflexivity].
    rewrite (shellExpansion_literal (c :: l) p Hp E) in Hshell.
    discriminate.
  - exact Hunc.
  - intros p Hp. unfold pathTooLong in Hlen.
    destruct (Nat.ltb_spec (maxPathLength config) (List.length p)) as [H|H];
      [|exact H].
    exfalso.
    assert (Hex : existsb (fun p => Nat.ltb (maxPathLength config)
                                            (List.length p))
                          (pathMatches (c :: l)) = true).
    { apply existsb_exists. exists p. split; [exact Hp|].
      apply Nat.ltb_lt. exact H. }
    congruence.
  - apply firstSafety_None. exact Hsafe.
Qed.

Lemma validateCommand_allowed_is_clean_witness :
  singleQuoteCount (lit "git log --all -n 50") = 0%nat \/
  singleQuoteCount (lit "git log --all -n 50") = 2%nat.
Proof.
  apply (validateCommand_allowed_is_clean (lit "git log --all -n 50")).
  vm_compute. reflexivity.
Defined.

Lemma matchAllFuel_length (re : RegExp) (fuel : nat) (s p : jsstring) :
  In p (matchAllFuel fuel re s) -> (List.length p <= List.length s)%nat.
Proof.
  revert s p. induction fuel as [|fuel IH]; intros s p Hin; [destruct Hin|].
  destruct s as [|c s]; [destruct Hin|].
  cbn [matchAllFuel] in Hin.
  destruct (longestPrefix (ignoreCase re) (source re) (c :: s) 0 None)
    as [[|k]|].
  - apply IH in Hin. simpl. lia.
  - destruct Hin as [<- | Hin].
    + rewrite length_firstn. lia.
    + apply IH in Hin. rewrite length_skipn in Hin. lia.
  - apply IH in Hin. simpl. lia.
Qed.

Lemma firstCygpath_reason (command r : jsstring) :
  firstCygpath cygpathRules command = Some r ->
  In r (map c_reason cygpathRules).
Proof.
  unfold cygpathRules. cbn [firstCygpath pattern c_reason map].
  repeat match goal with
         | |- context [if ?b then _ else _] => destruct b
         end; intros [= <-]; cbn [In]; auto.
Qed.

(** X3.  A command of at most 260 code units is never denied for the
    length of a path. *)
Theorem validateCommand_short_never_too_long :
  forall command,
    (List.length command <= 260)%nat ->
    pathTooLong command = false /\
    reason (validateCommand command) <> Some pathLengthReason.
Proof.
  intros command Hshort.
  assert (Hlen : pathTooLong command = false).
  { unfold pathTooLong. destruct (existsb _ _) eqn:E; [|reflexivity].
    apply existsb_exists in E as (p & Hp & Hlt).
    apply Nat.ltb_lt in Hlt. apply matchAllFuel_length in Hp.
    change (maxPathLength config) with 260%nat in Hlt. lia. }
  split; [exact Hlen|].
  destruct command as [|c l]; [discriminate|].
  rewrite validateCommand_nonempty by discriminate. rewrite Hlen.
  destruct (Nat.odd _); [discriminate|].
  destruct (firstCygpath cygpathRules (c :: l)) eqn:Hcyg.
  - apply firstCygpath_reason in Hcyg. cbn [reason deny].
    intros [= ->]. cbn [map cygpathRules c_reason In] in Hcyg.
    destruct Hcyg as [H | [H | [H | []]]]; discriminate H.
  - destruct (firstSafety safetyRules (c :: l)) eqn:Hsafe; [|discriminate].
    apply firstSafety_Some in Hsafe as (rule & Hin & -> & _).
    cbn [reason deny]. intros [= H].
    simpl in Hin. destruct Hin as [<- | [<- | [<- | [<- | []]]]];
      discriminate H.
Qed.

Lemma validateCommand_short_never_too_long_witness :
  pathTooLong (lit "cat /c/Users/johan/file.txt") = false.
Proof.
  apply (validateCommand_short_never_too_long
           (lit "cat /c/Users/johan/file.txt")).
  vm_compute. repeat constructor.
Defined.

(** ** The pure functions of the runner *)



Lemma lowerUnit_upper (c : jschar) : lowerUnit (asciiUpper c) = lowerUnit c.
Proof.
  destruct (asciiUpper_cases c) as [[E _] | (Hl & E & Hu)];
    [rewrite E; reflexivity|].
  unfold lowerUnit. rewrite Hu.
  assert (Hc : (97 <= c /\ c <= 122)%N).
  { unfold isLowerAscii in Hl. apply andb_true_iff in Hl as [H1 H2].
    apply N.leb_le in H1, H2. auto. }
  replace (isUpperAscii c) with false
    by (unfold isUpperAscii; symmetry; apply andb_false_iff; right;
        apply N.leb_gt; lia).
  replace (c =? 8490)%N with false by (symmetry; apply N.eqb_neq; lia).
  replace (c =? 304)%N with false by (symmetry; apply N.eqb_neq; lia).
  f_equal. lia.
Qed.

Lemma toLowerCase_fold (s s' : jsstring) :
  map asciiUpper s = map asciiUpper s' -> toLowerCase s = toLowerCase s'.
Proof.
  revert s'. induction s as [|c s IH]; intros [|c' s'] H; try discriminate;
    [reflexivity|].
  cbn [map] in H. injection H as Hc Hs. unfold toLowerCase.
  cbn [flat_map]. fold (toLowerCase s). fold (toLowerCase s').
  rewrite <- (lowerUnit_upper c), <- (lowerUnit_upper c'), Hc, (IH s' Hs).
  reflexivity.
Qed.

Lemma toLowerCase_app (a b : jsstring) :
  toLowerCase (a ++ b) = toLowerCase a ++ toLowerCase b.
Proof. apply flat_map_app. Qed.

(** X5.  An error whose code is one of the connectivity codes is a network
    error whatever its message; an error whose message contains one of the
    connectivity phrases, in any letter case, is one whatever its code; and
    the verdict does not depend on the letter case of the message. *)
Theorem isNetworkError_classifies :
  (forall code message,
      In code networkErrorCodes ->
      isNetworkError (ThrownError (Some code) message) = true) /\
  (forall code phrase before phrase' after,
      In phrase networkErrorMessages ->
      map asciiUpper phrase' = map asciiUpper phrase ->
      isNetworkError
        (ThrownError code (Some (before ++ phrase' ++ after))) = true) /\
  (forall code message message',
      map asciiUpper message = map asciiUpper message' ->
      isNetworkError (ThrownError code (Some message)) =
      isNetworkError (ThrownError code (Some message'))).
Proof.
  split; [|split].
  - intros code message Hin. unfold isNetworkError.
    apply orb_true_iff. left. apply andb_true_iff. split.
    + cbn [networkErrorCodes map In] in Hin.
      repeat (destruct Hin as [<- | Hin]; [reflexivity|]). destruct Hin.
    + apply existsb_exists. exists code. split; [exact Hin|].
      apply jsstring_eqb_refl.
  - intros code phrase before phrase' after Hin Hcase. unfold isNetworkError.
    apply orb_true_iff. right.
    apply existsb_exists. exists phrase. split; [exact Hin|].
    apply includes_spec.
    exists (toLowerCase before), (toLowerCase after).
    rewrite !toLowerCase_app, (toLowerCase_fold phrase' phrase Hcase).
    reflexivity.
  - intros code message message' H. unfold isNetworkError.
    rewrite (toLowerCase_fold message message' H). reflexivity.
Qed.

Lemma isNetworkError_classifies_witness :
  isNetworkError
    (ThrownError None (Some (lit "TypeError: Fetch Failed" ++ lit " (x)"))) =
  true.
Proof.
  apply (proj1 (proj2 isNetworkError_classifies) None (lit "fetch failed")
           (lit "TypeError: ") (lit "Fetch Failed") (lit " (x)")).
  - cbn. auto.
  - reflexivity.
Defined.

Lemma replaceBackslashes_length (s : jsstring) :
  List.length (replaceBackslashes s) = List.length s.
Proof. apply length_map. Qed.

(** X6.  The path translator, and with it the hooked [os.tmpdir], returns
    a string as long as its input, with no backslash in it and no drive
    prefix at its start. *)
Theorem windowsToPosix_shape :
  forall p,
    List.length (windowsToPosix p) = List.length p /\
    ~ In 92%N (windowsToPosix p) /\
    (forall L rest,
        windowsToPosix p = L :: 58%N :: rest -> isAsciiLetter L = false).
Proof.
  intro p. split; [|split].
  - unfold windowsToPosix. rewrite <- (replaceBackslashes_length p).
    generalize (replaceBackslashes p). intro s.
    rewrite lowerLeading_eq, replaceDrive_eq.
    destruct s as [|c [|d rest]]; try reflexivity.
    destruct (isAsciiLetter c && (d =? 58)%N) eqn:E1.
    + apply andb_true_iff in E1 as [Hc _]. rewrite N.eqb_refl, Hc.
      reflexivity.
    + destruct ((c =? 47)%N && isAsciiLetter d); reflexivity.
  - apply (windowsToPosix_translated p).
  - intros L rest E.
    destruct (windowsToPosix_translated p) as (_ & Hd & _).
    rewrite E, replaceDrive_eq in Hd.
    destruct (isAsciiLetter L) eqn:HL; [|reflexivity].
    rewrite N.eqb_refl in Hd. cbn [andb] in Hd.
    injection Hd as H _. subst L. discriminate HL.
Qed.

(** ** The supervisor *)

Lemma lookups_app (a b : list Effect) :
  Trace.lookups (a ++ b) = (Trace.lookups a + Trace.lookups b)%nat.
Proof.
  induction a as [|e a IH]; [reflexivity|].
  destruct e; cbn [app Trace.lookups]; rewrite IH; reflexivity.
Qed.

Lemma totalDelay_app (a b : list Effect) :
  Trace.totalDelay (a ++ b) = (Trace.totalDelay a + Trace.totalDelay b)%Z.
Proof.
  induction a as [|e a IH]; [reflexivity|].
  destruct e; cbn [app Trace.totalDelay]; rewrite IH; lia.
Qed.

(** The time still to be waited from retry [count] on, at the most. *)
Lemma backoff_remaining (count : Z) :
  (0 <= count < 10)%Z ->
  let remaining (c : Z) : Z :=
    nth (Z.to_nat c)
        [435000; 430000; 420000; 400000; 360000; 300000; 240000; 180000;
         120000; 60000; 0]%Z 0%Z in
  (5000 <= Z.min (5000 * 2 ^ count) 60000)%Z /\
  (Z.min (5000 * 2 ^ count) 60000 + remaining (count + 1)%Z <=
   remaining count)%Z /\
  (0 <= remaining (count + 1)%Z)%Z.
Proof.
  intros H remaining.
  assert (Hc : In count [0; 1; 2; 3; 4; 5; 6; 7; 8; 9]%Z) by (cbn; lia).
  cbn [In] in Hc.
  repeat (destruct Hc as [<- | Hc]; [vm_compute; repeat split; discriminate|]).
  destruct Hc.
Qed.

Lemma waitLoop_bounded (w : World) (run : nat) (fuel j : nat) (count : Z)
    (tr : list Effect) :
  (0 <= count <= 10)%Z ->
  (Z.to_nat (10 - count) < fuel)%nat ->
  exists connected count' added,
    waitLoop fuel w run j count tr = Some (connected, count', tr ++ added) /\
    (connected = true <->
     exists i, (i < Z.to_nat (10 - count))%nat /\
               probe w run (j + i) = true) /\
    count' = (if connected then 0 else 10)%Z /\
    (Trace.lookups added <= Z.to_nat (10 - count))%nat /\
    ((count < 10)%Z -> (1 <= Trace.lookups added)%nat /\
                       (5000 <= Trace.totalDelay added)%Z) /\
    (0 <= Trace.totalDelay added)%Z /\
    (Trace.totalDelay added <=
     nth (Z.to_nat count)
         [435000; 430000; 420000; 400000; 360000; 300000; 240000; 180000;
          120000; 60000; 0]%Z 0%Z)%Z.
Proof.
  revert j count tr. induction fuel as [|fuel IH];
    intros j count tr Hc Hf; [lia|].
  destruct (Z.lt_ge_cases count 10) as [E | E].
  - rewrite waitLoop_step by (cbn; lia). cbn zeta.
    change (MAX_NETWORK_RETRIES CONFIG) with 10%Z.
    destruct (backoff_remaining count ltac:(lia)) as (Hb & Hr & Hr0).
    destruct (probe w run j) eqn:Hp.
    + eexists true, 0%Z, _. split; [rewrite <- app_assoc; reflexivity|].
      split.
      { split; [|reflexivity]. intros _. exists 0%nat.
        rewrite Nat.add_0_r. split; [lia | exact Hp]. }
      split; [reflexivity|].
      cbn [app Trace.lookups Trace.totalDelay].
      repeat split; lia.
    + destruct (IH (S j) (count + 1)%Z
                  (tr ++
                   [ConsoleWarn
                      (NoInternetRetry (count + 1) 10
                         (Z.min (5000 * 2 ^ count) 60000));
                    SetTimeout (Z.min (5000 * 2 ^ count) 60000);
                    DnsLookup (NETWORK_CHECK_HOST CONFIG)]))
        as (connected & count' & added & -> & Hconn & Hcount & Hl & _ & H0 & Ht);
        [lia | lia |].
      eexists connected, count', _.
      split; [rewrite <- app_assoc; reflexivity|].
      split.
      { rewrite Hconn. split.
        - intros (i & Hi & Hpi). exists (S i). split; [lia|].
          rewrite <- Nat.add_succ_comm. exact Hpi.
        - intros (i & Hi & Hpi). destruct i as [|i].
          + rewrite Nat.add_0_r in Hpi. congruence.
          + exists i. split; [lia|]. rewrite Nat.add_succ_comm. exact Hpi. }
      split; [exact Hcount|].
      rewrite lookups_app, totalDelay_app.
      cbn [Trace.lookups Trace.totalDelay].
      repeat split; lia.
  - rewrite waitLoop_stop by (cbn; lia).
    assert (count = 10%Z) by lia. subst count.
    exists false, 10%Z, []. rewrite app_nil_r.
    split; [reflexivity|]. split.
    { split; [discriminate|]. intros (i & Hi & _). cbn in Hi. lia. }
    split; [reflexivity|].
    split; [cbn [Trace.lookups]; lia|].
    split; [intro; lia|].
    cbn [Trace.totalDelay]. change (Z.to_nat 10) with 10%nat. cbn [nth]. lia.
Qed.

(** X7.  A wait for connectivity always ends.  It reports the connection
    restored exactly when one of the first ten checks succeeds, and then
    the retry counter is back at zero; otherwise the counter is at its
    maximum.  It makes at least one and at most ten checks, waits between
    5 and 435 seconds in all, and adds to what was printed before without
    touching the crash counter. *)
Theorem waitForConnectivity_bounded :
  forall w run st tr,
  exists connected count added,
    waitForConnectivity w run st tr =
      Some (connected,
            mkRestartState (crashRestartCount st) (lastCrashTime st) count,
            tr ++ added) /\
    (connected = true <->
     exists j, (j < 10)%nat /\ probe w run j = true) /\
    count = (if connected then 0 else MAX_NETWORK_RETRIES CONFIG)%Z /\
    (1 <= Trace.lookups added)%nat /\ (Trace.lookups added <= 10)%nat /\
    (5000 <= Trace.totalDelay added)%Z /\
    (Trace.totalDelay added <= 435000)%Z.
Proof.
  intros w run st tr. unfold waitForConnectivity.
  change (Z.to_nat (MAX_NETWORK_RETRIES CONFIG)) with 10%nat.
  destruct (waitLoop_bounded w run 11 0 0%Z tr ltac:(lia) ltac:(cbn; lia))
    as (connected & count & added & -> & Hconn & Hcount & Hl & Hpos & _ & Ht).
  exists connected, count, added. split; [reflexivity|].
  destruct (Hpos ltac:(lia)) as [H1 H5].
  change (Z.to_nat (10 - 0)) with 10%nat in *. cbn [nth Z.to_nat] in Ht.
  repeat split; auto; apply Hconn.
Qed.




(** X9.  When the entry point throws [null] or [undefined] every time and
    the crashes stay inside the window, the third failure prints that the
    budget is spent, and then reading the message of the thrown value
    throws in its turn: the loop is left by that exception, and
    [process.exit(1)] is not called. *)
Theorem supervisor_nullish_escapes :
  forall w (fuel : nat),
    (forall k, entry w k = Throws ThrownNullish) ->
    (forall k, (now w (S k) - now w k <= CRASH_WINDOW_MS CONFIG)%Z) ->
    (3 <= fuel)%nat ->
    exists r,
      runWithAutoRestart fuel w 0 initialRestartState [] = Some r /\
      termination r = HandlerThrew /\
      restarts r = 2%nat /\
      effects r =
        [ImportCli; ConsoleWarn (CrashedRestarting 1 3); SetTimeout 1000;
         ImportCli; ConsoleWarn (CrashedRestarting 2 3); SetTimeout 1000;
         ImportCli; ConsoleError (CrashedStopping 3 60000)].
Proof.
  intros w fuel Hthrow Hwin Hfuel.
  destruct fuel as [|[|[|fuel]]]; try lia.
  pose proof (Hwin 0%nat) as W0. pose proof (Hwin 1%nat) as W1.
  change (CRASH_WINDOW_MS CONFIG) with 60000%Z in W0, W1.
  cbn [runWithAutoRestart]. rewrite !Hthrow. unfold onFailure.
  cbn [isNetworkError initialRestartState crashRestartCount lastCrashTime
       networkRetryCount].
  change (CRASH_WINDOW_MS CONFIG) with 60000%Z.
  change (MAX_CRASH_RESTARTS CONFIG) with 3%Z.
  replace ((if (now w 0 - 0 >? 60000)%Z then 0 else 0) + 1)%Z with 1%Z
    by (destruct (now w 0 - 0 >? 60000)%Z; reflexivity).
  cbn [Z.geb Z.compare Pos.compare Pos.compare_cont crashRestartCount
       lastCrashTime networkRetryCount].
  replace (now w 1 - now w 0 >? 60000)%Z with false
    by (symmetry; rewrite Z.gtb_ltb; apply Z.ltb_ge; lia).
  cbn [Z.add Pos.add Z.geb Z.compare Pos.compare Pos.compare_cont
       crashRestartCount lastCrashTime networkRetryCount].
  replace (now w 2 - now w 1 >? 60000)%Z with false
    by (symmetry; rewrite Z.gtb_ltb; apply Z.ltb_ge; lia).
  cbn [Z.add Pos.add Pos.succ Z.geb Z.compare Pos.compare Pos.compare_cont].
  eexists. split; [reflexivity|]. cbn. repeat split; reflexivity.
Qed.

Lemma supervisor_nullish_escapes_witness :
  exists r,
    runWithAutoRestart 3
      (mkWorld (fun _ => Throws ThrownNullish)
               (fun k => 1700000000000 + 1000 * Z.of_nat k)%Z
               (fun _ _ => false))
      0 initialRestartState [] = Some r /\
    termination r = HandlerThrew.
Proof.
  destruct (supervisor_nullish_escapes
              (mkWorld (fun _ => Throws ThrownNullish)
                       (fun k => 1700000000000 + 1000 * Z.of_nat k)%Z
                       (fun _ _ => false)) 3%nat)
    as (r & H1 & H2 & _).
  - reflexivity.
  - intro k. cbn [now]. change (CRASH_WINDOW_MS CONFIG) with 60000%Z. lia.
  - lia.
  - exists r. auto.
Defined.

Lemma runWithAutoRestart_exit_cause (w : World) (fuel run : nat)
    (st : RestartState) (tr : list Effect) (r : Run) :
  (0 <= crashRestartCount st < MAX_CRASH_RESTARTS CONFIG)%Z ->
  runWithAutoRestart fuel w run st tr = Some r ->
  (0 <= crashRestartCount (finalState r) <= MAX_CRASH_RESTARTS CONFIG)%Z /\
  (termination r = NormalExit ->
   (crashRestartCount (finalState r) < MAX_CRASH_RESTARTS CONFIG)%Z) /\
  (forall c, termination r = ProcessExit c ->
     c = 1%Z /\
     (crashRestartCount (finalState r) = MAX_CRASH_RESTARTS CONFIG \/
      networkRetryCount (finalState r) = MAX_NETWORK_RETRIES CONFIG)) /\
  (termination r = HandlerThrew ->
   crashRestartCount (finalState r) = MAX_CRASH_RESTARTS CONFIG).
Proof.
  revert run st tr. induction fuel as [|fuel IH]; intros run st tr Hst Hrun;
    [discriminate|].
  cbn [runWithAutoRestart] in Hrun.
  destruct (entry w run) as [|err].
  { injection Hrun as <-. cbn [finalState termination].
    split; [lia|]. split; [intros _; lia|].
    split; [intros c; discriminate | discriminate]. }
  destruct (isNetworkError err) eqn:Hnet.
  - unfold onFailure in Hrun. rewrite Hnet in Hrun.
    match type of Hrun with
    | context [waitForConnectivity w run st ?t] =>
        destruct (waitForConnectivity_bounded w run st t)
          as (connected & count & added & E & _ & Hcount & _)
    end.
    rewrite E in Hrun. destruct connected.
    + apply IH in Hrun; [exact Hrun|]. cbn [crashRestartCount]. exact Hst.
    + injection Hrun as <-. cbn [finalState termination crashRestartCount
                                  networkRetryCount].
      split; [lia|]. split; [discriminate|].
      split; [|discriminate].
      intros c [= <-]. split; [reflexivity|]. right. exact Hcount.
  - destruct (onFailure_generic w run err st (tr ++ [ImportCli]) Hnet)
      as (d & st' & tr' & E & Hc & _ & _ & Hd).
    rewrite E in Hrun.
    assert (Hle : (1 <= crashRestartCount st' <= MAX_CRASH_RESTARTS CONFIG)%Z).
    { rewrite Hc.
      destruct (now w run - lastCrashTime st >? CRASH_WINDOW_MS CONFIG)%Z;
        change (MAX_CRASH_RESTARTS CONFIG) with 3%Z in *; lia. }
    destruct d as [|t].
    + apply IH in Hrun; [exact Hrun|].
      pose proof (proj1 Hd eq_refl). lia.
    + assert (Hmax : crashRestartCount st' = MAX_CRASH_RESTARTS CONFIG).
      { destruct (Z.lt_ge_cases (crashRestartCount st')
                    (MAX_CRASH_RESTARTS CONFIG)) as [Hlt | Hge]; [|lia].
        apply Hd in Hlt. discriminate. }
      injection Hrun as <-. cbn [finalState termination].
      assert (Ht : t = HandlerThrew \/ t = ProcessExit 1).
      { revert E. unfold onFailure. rewrite Hnet.
        destruct (_ >=? _)%Z; [|discriminate].
        destruct err; intros [= <- _ _]; auto. }
      split; [lia|].
      split; [destruct Ht as [-> | ->]; discriminate|].
      split; [|intros _; exact Hmax].
      intros c Hc'. split; [|left; exact Hmax].
      destruct Ht as [-> | ->]; [discriminate|]. injection Hc' as <-.
      reflexivity.
Qed.

(** X10.  However a run of the supervisor ends, the crash counter is
    between zero and its maximum.  The process exits only with status 1,
    and only when the crash counter has reached its maximum or the wait for
    connectivity has used up its retries; a run that ends because the entry
    point completed has crashes left in its budget. *)
Theorem supervisor_exits_on_exhausted_budget :
  forall w fuel r,
    runWithAutoRestart fuel w 0 initialRestartState [] = Some r ->
    (0 <= crashRestartCount (finalState r) <= MAX_CRASH_RESTARTS CONFIG)%Z /\
    (termination r = NormalExit ->
     (crashRestartCount (finalState r) < MAX_CRASH_RESTARTS CONFIG)%Z) /\
    (forall c, termination r = ProcessExit c ->
       c = 1%Z /\
       (crashRestartCount (finalState r) = MAX_CRASH_RESTARTS CONFIG \/
        networkRetryCount (finalState r) = MAX_NETWORK_RETRIES CONFIG)).
Proof.
  intros w fuel r Hrun.
  destruct (runWithAutoRestart_exit_cause w fuel 0 initialRestartState [] r)
    as (H1 & H2 & H3 & _); auto.
  cbn. lia.
Qed.

Lemma supervisor_exits_on_exhausted_budget_witness :
  exists r,
    runWithAutoRestart 3
      (mkWorld (fun _ => Throws (ThrownError None (Some (lit "boom"))))
               (fun k => 1700000000000 + 1000 * Z.of_nat k)%Z
               (fun _ _ => false))
      0 initialRestartState [] = Some r /\
    termination r = ProcessExit 1 /\
    crashRestartCount (finalState r) = MAX_CRASH_RESTARTS CONFIG.
Proof.
  eexists. split; [vm_compute; reflexivity|]. split; [reflexivity|].
  match goal with
  | |- crashRestartCount (finalState ?r) = _ =>
      destruct (supervisor_exits_on_exhausted_budget
                  (mkWorld
                     (fun _ => Throws (ThrownError None (Some (lit "boom"))))
                     (fun k => 1700000000000 + 1000 * Z.of_nat k)%Z
                     (fun _ _ => false)) 3%nat r)
        as (_ & _ & H)
  end.
  - vm_compute. reflexivity.
  - destruct (H 1%Z eq_refl) as [_ [E | E]]; [exact E | discriminate E].
Defined.

(* ================================================================== *)
(** ** The spawn hook *)
(* ================================================================== *)

(** X11.  The spawn hook answers with the hook-handling stand-in exactly
    when the command contains the reserved token, or the command is [node]
    and one of the arguments, as a string, contains it.  The command the
    settings hook injects is such a command, alone or inside a longer
    command line: no process is started for it, whatever the arguments and
    whether or not Git Bash was found. *)
Theorem spawnHook_intercepts_marker :
  (forall gitBashPath command args,
      Spawn.spawnHook gitBashPath command args = Spawn.HookChild <->
      includes Spawn.marker command = true \/
      (command = lit "node" /\
       exists l a, args = Spawn.ArgList l /\ In a l /\
                   includes Spawn.marker (Spawn.stringOf a) = true)) /\
  (forall injected pre post gitBashPath args,
      Hooks.injectedHook =
        JArray
          [JObject
             [(lit "hooks",
               JArray
                 [JObject [(lit "type", JString (lit "command"));
                           (lit "command", JString injected)]])]] ->
      Spawn.spawnHook gitBashPath (pre ++ injected ++ post) args =
        Spawn.HookChild).
Proof.
  split.
  - intros git command args. unfold Spawn.spawnHook.
    destruct (includes Spawn.marker command) eqn:Hc; [tauto|].
    destruct (jsstring_eqb command (lit "node")) eqn:Hnode; cbn [andb].
    + apply jsstring_eqb_eq in Hnode. subst command.
      destruct args as [|l].
      * split; [|intros [H | (_ & l & a & H & _)]; discriminate].
        destruct git as [g|]; [|discriminate].
        change (jsstring_eqb (lit "node") (lit "/bin/bash")) with false.
        discriminate.
      * destruct (existsb _ l) eqn:Hex.
        -- split; [intros _|reflexivity]. right. split; [reflexivity|].
           apply existsb_exists in Hex as (a & Hin & Ha). eauto.
        -- split.
           ++ destruct git as [g|]; [|discriminate].
              change (jsstring_eqb (lit "node") (lit "/bin/bash")) with false.
              discriminate.
           ++ intros [H | (_ & l' & a & [= <-] & Hin & Ha)]; [discriminate|].
              assert (existsb
                        (fun a => includes Spawn.marker (Spawn.stringOf a))
                        l = true)
                by (apply existsb_exists; eauto).
              congruence.
    + split.
      * destruct git as [g|]; [|discriminate].
        destruct (_ && _); [|discriminate].
        destruct args as [|[|[flag|] [|a1 rest]]]; try discriminate.
        destruct (_ && _); discriminate.
      * intros [H | (-> & _)]; [discriminate|].
        rewrite jsstring_eqb_refl in Hnode. discriminate.
  - intros injected pre post git args H.
    unfold Hooks.injectedHook in H. injection H as <-.
    unfold Spawn.spawnHook.
    match goal with
    | |- context [includes Spawn.marker ?s] =>
        assert (Hinc : includes Spawn.marker s = true)
    end.
    { apply includes_spec.
      exists (pre ++ lit "node -e " ++ dq), (dq ++ post).
      rewrite <- (app_assoc pre). reflexivity. }
    rewrite Hinc. reflexivity.
Qed.

Lemma spawnHook_intercepts_marker_witness :
  Spawn.spawnHook None
    (lit "sh -c " ++
     (lit "node -e " ++ dq ++ lit "__RUNNER_PERMISSION_HOOK__" ++ dq) ++
     lit " # hook")
    Spawn.NotArray =
  Spawn.HookChild.
Proof.
  apply (proj2 spawnHook_intercepts_marker
           (lit "node -e " ++ dq ++ lit "__RUNNER_PERMISSION_HOOK__" ++ dq)
           (lit "sh -c ") (lit " # hook") None Spawn.NotArray).
  reflexivity.
Defined.

(** What the hook does once the marker tests have failed. *)
Lemma spawnHook_after_marker (gitBashPath : option jsstring)
    (command : jsstring) (args : Spawn.Args) :
  Spawn.spawnHook gitBashPath command args = Spawn.HookChild \/
  (exists git a1 rest,
      command = lit "/bin/bash" /\ gitBashPath = Some git /\ git <> [] /\
      args = Spawn.ArgList (Spawn.ArgString (lit "-c") :: a1 :: rest) /\
      Spawn.truthyArg a1 = true /\
      Spawn.spawnHook gitBashPath command args =
        Spawn.ReferenceError (lit "validateBashCommand")) \/
  (exists git,
      command = lit "/bin/bash" /\ gitBashPath = Some git /\ git <> [] /\
      (forall a1 rest,
          args = Spawn.ArgList (Spawn.ArgString (lit "-c") :: a1 :: rest) ->
          Spawn.truthyArg a1 = false) /\
      Spawn.spawnHook gitBashPath command args = Spawn.RealSpawn git args) \/
  ((command <> lit "/bin/bash" \/ gitBashPath = None \/
    gitBashPath = Some []) /\
   Spawn.spawnHook gitBashPath command args = Spawn.RealSpawn command args).
Proof.
  unfold Spawn.spawnHook.
  destruct (includes Spawn.marker command); [auto|].
  destruct (_ && _); [auto|].
  destruct gitBashPath as [g|]; [|right; right; right; auto].
  destruct (jsstring_eqb command (lit "/bin/bash")) eqn:Hbash; cbn [andb].
  2:{ right. right. right. split; [|reflexivity]. left. intro H.
      apply jsstring_eqb_eq in H. congruence. }
  apply jsstring_eqb_eq in Hbash. subst command.
  destruct (jsstring_eqb g []) eqn:Hg; cbn [negb].
  { apply jsstring_eqb_eq in Hg. subst g. right. right. right. auto. }
  assert (Hne : g <> []) by (intros ->; discriminate Hg).
  assert (Hplain :
    (forall a1 rest,
        args = Spawn.ArgList (Spawn.ArgString (lit "-c") :: a1 :: rest) ->
        Spawn.truthyArg a1 = false) ->
    Spawn.RealSpawn g args = Spawn.RealSpawn g args ->
    exists git,
      lit "/bin/bash" = lit "/bin/bash" /\ Some g = Some git /\ git <> [] /\
      (forall a1 rest,
          args = Spawn.ArgList (Spawn.ArgString (lit "-c") :: a1 :: rest) ->
          Spawn.truthyArg a1 = false) /\
      Spawn.RealSpawn g args = Spawn.RealSpawn git args).
  { intros H _. exists g. auto. }
  destruct args as [|[|[flag|s t] [|a1 rest]]];
    try (right; right; left; apply Hplain; [|reflexivity];
         intros a1' rest'; discriminate).
  destruct (jsstring_eqb flag (lit "-c")) eqn:Hflag; cbn [andb].
  2:{ right. right. left. apply Hplain; [|reflexivity].
      intros a1' rest' H.
      assert (Hf : flag = lit "-c") by congruence.
      rewrite Hf, jsstring_eqb_refl in Hflag. discriminate. }
  apply jsstring_eqb_eq in Hflag. subst flag.
  destruct (Spawn.truthyArg a1) eqn:Ha.
  - right. left. exists g, a1, rest. cbn [Spawn.validateBashCommand]. auto 10.
  - right. right. left. apply Hplain; [|reflexivity].
    intros a1' rest' [= <- _]. exact Ha.
Qed.

(** X12.  As shipped, the spawn hook never answers with the blocked
    stand-in: the name it calls the validator by is not defined in the
    module.  It fails with a ReferenceError on that name exactly when the
    command is [/bin/bash], the path of Git Bash is known, the first
    argument is the string [-c] and the second is truthy, whatever the
    validator would have said of that command. *)
Theorem spawnHook_fails_on_bash_c :
  forall gitBashPath command args,
    (forall reason,
        Spawn.spawnHook gitBashPath command args <>
        Spawn.BlockedChild reason) /\
    (forall name,
        Spawn.spawnHook gitBashPath command args =
          Spawn.ReferenceError name <->
        name = lit "validateBashCommand" /\
        command = lit "/bin/bash" /\
        (exists git, gitBashPath = Some git /\ git <> []) /\
        exists a1 rest,
          args = Spawn.ArgList (Spawn.ArgString (lit "-c") :: a1 :: rest) /\
          Spawn.truthyArg a1 = true).
Proof.
  intros git command args.
  destruct (spawnHook_after_marker git command args)
    as [H | [(g & a1 & rest & Hc & Hg & Hne & Hargs & Ha & H) |
             [(g & Hc & Hg & Hne & Hargs & H) | [Hcase H]]]].
  - rewrite H. split; [discriminate|].
    intro name. split; [discriminate|].
    intros (_ & -> & (g & -> & Hne) & a1 & rest & -> & Ha).
    revert H. unfold Spawn.spawnHook.
    change (includes Spawn.marker (lit "/bin/bash")) with false.
    change (jsstring_eqb (lit "/bin/bash") (lit "node")) with false.
    change (jsstring_eqb (lit "/bin/bash") (lit "/bin/bash")) with true.
    change (jsstring_eqb (lit "-c") (lit "-c")) with true.
    rewrite (jsstring_eqb_neq g []) by exact Hne. rewrite Ha.
    discriminate.
  - rewrite H. split; [discriminate|].
    intro name. split.
    + intros [= <-]. split; [reflexivity|]. split; [exact Hc|].
      split; eauto.
    + intros (-> & _). reflexivity.
  - rewrite H. split; [discriminate|].
    intro name. split; [discriminate|].
    intros (_ & _ & _ & a1 & rest & Hargs' & Ha).
    rewrite (Hargs a1 rest Hargs') in Ha. discriminate.
  - rewrite H. split; [discriminate|].
    intro name. split; [discriminate|].
    intros (_ & Hc & (g & Hg & Hne) & _).
    destruct Hcase as [Hcase | [Hcase | Hcase]]; congruence.
Qed.

Lemma spawnHook_fails_on_bash_c_witness :
  Spawn.spawnHook (Some (lit "C:/Program Files/Git/usr/bin/bash.exe"))
    (lit "/bin/bash")
    (Spawn.ArgList [Spawn.ArgString (lit "-c");
                    Spawn.ArgString (lit "git log --all -n 50")]) =
  Spawn.ReferenceError (lit "validateBashCommand").
Proof.
  apply (proj2 (spawnHook_fails_on_bash_c
                  (Some (lit "C:/Program Files/Git/usr/bin/bash.exe"))
                  (lit "/bin/bash")
                  (Spawn.ArgList
                     [Spawn.ArgString (lit "-c");
                      Spawn.ArgString (lit "git log --all -n 50")]))).
  split; [reflexivity|]. split; [reflexivity|]. split.
  - eexists. split; [reflexivity | discriminate].
  - do 2 eexists. split; reflexivity.
Defined.

(** X13.  A call the spawn hook hands to the original [spawn] keeps its
    arguments; its command is the one given, or the path of Git Bash when
    the command was [/bin/bash] and that path is known.  In that case the
    call carries no command to run after [-c]: what follows [-c] is
    missing, empty or falsy.  As shipped, no [-c] command string reaches
    Git Bash through the hook, denied or allowed. *)
Theorem spawnHook_real_spawn :
  forall gitBashPath command args c a,
    Spawn.spawnHook gitBashPath command args = Spawn.RealSpawn c a ->
    a = args /\
    (c = command \/ command = lit "/bin/bash" /\ gitBashPath = Some c) /\
    (command <> lit "/bin/bash" -> c = command) /\
    (forall git, command = lit "/bin/bash" -> gitBashPath = Some git ->
                 git <> [] ->
                 c = git /\
                 forall a1 rest,
                   args = Spawn.ArgList
                            (Spawn.ArgString (lit "-c") :: a1 :: rest) ->
                   Spawn.truthyArg a1 = false).
Proof.
  intros git command args c a Hreal.
  destruct (spawnHook_after_marker git command args)
    as [H | [(g & a1 & rest & _ & _ & _ & _ & _ & H) |
             [(g & Hc & Hg & Hne & Hargs & H) | [Hcase H]]]];
    rewrite H in Hreal; try discriminate; injection Hreal as <- <-.
  - split; [reflexivity|]. split; [right; auto|].
    split; [intro Hn; contradiction|].
    intros g' _ Hg' _. assert (g' = g) by congruence. subst g'. auto.
  - split; [reflexivity|]. split; [left; reflexivity|].
    split; [reflexivity|].
    intros g Hc Hg Hne. exfalso.
    destruct Hcase as [Hcase | [Hcase | Hcase]]; congruence.
Qed.

Lemma spawnHook_real_spawn_witness :
  lit "C:/Program Files/Git/usr/bin/bash.exe" =
    lit "C:/Program Files/Git/usr/bin/bash.exe" /\
  Spawn.truthyArg (Spawn.ArgString []) = false.
Proof.
  destruct (spawnHook_real_spawn
              (Some (lit "C:/Program Files/Git/usr/bin/bash.exe"))
              (lit "/bin/bash")
              (Spawn.ArgList [Spawn.ArgString (lit "-c");
                              Spawn.ArgString []])
              (lit "C:/Program Files/Git/usr/bin/bash.exe")
              (Spawn.ArgList [Spawn.ArgString (lit "-c");
                              Spawn.ArgString []]))
    as (_ & _ & _ & H).
  - reflexivity.
  - destruct (H (lit "C:/Program Files/Git/usr/bin/bash.exe"))
      as [Hc Hargs]; [reflexivity | reflexivity | discriminate |].
    split; [exact Hc|]. apply (Hargs (Spawn.ArgString []) []). reflexivity.
Defined.

(* ================================================================== *)
(** ** The hook-handling synthetic subprocess *)
(* ================================================================== *)

Lemma written_spec (chunks : list (option jsstring))
    (c : HookProcess.HookChild) :
  HookProcess.hookIdentity (HookProcess.written chunks c) =
    HookProcess.hookIdentity c /\
  HookProcess.stdinData (HookProcess.written chunks c) =
    HookProcess.stdinData c ++ List.concat (map HookProcess.chunkText chunks).
Proof.
  revert c. induction chunks as [|chunk chunks IH]; intro c.
  - cbn. rewrite app_nil_r. auto.
  - unfold HookProcess.written. cbn [fold_left].
    fold (HookProcess.written chunks
            (fst (fst (HookProcess.stdinWrite chunk None c)))).
    destruct (IH (fst (fst (HookProcess.stdinWrite chunk None c))))
      as [-> ->].
    split; [reflexivity|].
    cbn [HookProcess.stdinWrite fst HookProcess.buffered
         HookProcess.stdinData map concat].
    rewrite <- app_assoc. reflexivity.
Qed.

(** X14.  Creating the hook-handling stand-in queues nothing and calls no
    listener.  With a listener attached to [data] on its output, any series
    of writes followed by [end] calls no listener either; the handler has
    then been given everything written, in order, as one string.  Once a
    listener is attached to [close] and the queued tasks run, what the
    listeners hear of this subprocess is one [data] event carrying the
    handler's response, and after it one [close] event with status 0. *)
Theorem hook_child_answers_after_end :
  forall (loop : Events.Loop) (processPid : Z)
         (handleFn : jsstring -> jsstring)
         (chunks : list (option jsstring)) (last : option jsstring)
         (dataListener closeListener : nat),
    Events.wellFormed loop ->
    let child := fst (HookProcess.createHookChildProcess processPid loop) in
    let created := snd (HookProcess.createHookChildProcess processPid loop) in
    let id := HookProcess.hookIdentity child in
    let listening :=
      Events.on (id, Events.Stdout) (lit "data") dataListener created in
    let ended :=
      HookProcess.stdinEnd handleFn last None
        (HookProcess.written chunks child) listening in
    let attached :=
      Events.on (id, Events.Self) (lit "close") closeListener
                (snd (fst ended)) in
    let input :=
      List.concat (map HookProcess.chunkText chunks) ++
      HookProcess.chunkText last in
    Events.tickQueue created = Events.tickQueue loop /\
    Events.delivered attached = Events.delivered loop /\
    HookProcess.stdinData (fst (fst ended)) = input /\
    exists earlier,
      Events.delivered (Events.runTicks attached) =
        Events.delivered loop ++ earlier ++
          [(dataListener,
            Events.mkEmission (id, Events.Stdout) (lit "data")
              (Events.Data (handleFn input)));
           (closeListener,
            Events.mkEmission (id, Events.Self) (lit "close")
              (Events.ExitStatus 0))] /\
      Events.deliveredOf id earlier = [] /\
      Events.tickQueue (Events.runTicks attached) = [].
Proof.
  intros loop processPid handleFn chunks last dataListener closeListener
         [Hls Hq].
  cbn zeta.
  destruct (written_spec chunks
              (fst (HookProcess.createHookChildProcess processPid loop)))
    as [Hid Hdata].
  cbn [HookProcess.createHookChildProcess fst snd HookProcess.hookIdentity
       HookProcess.stdinData app] in Hid, Hdata |- *.
  assert (Hinput :
    HookProcess.stdinData
      (HookProcess.buffered last
         (HookProcess.written chunks
            (HookProcess.mkHookChild (Events.created loop) processPid false
               []))) =
    List.concat (map HookProcess.chunkText chunks) ++ HookProcess.chunkText last).
  { cbn [HookProcess.buffered HookProcess.stdinData]. rewrite Hdata.
    reflexivity. }
  split; [reflexivity|]. split; [reflexivity|].
  unfold HookProcess.stdinEnd. cbn [fst snd].
  split; [exact Hinput|].
  rewrite Hinput.
  replace (HookProcess.hookIdentity
             (HookProcess.buffered last
                (HookProcess.written chunks
                   (HookProcess.mkHookChild (Events.created loop) processPid
                      false []))))
    with (Events.created loop)
    by (cbn [HookProcess.buffered HookProcess.hookIdentity]; symmetry;
        exact Hid).
  set (input := List.concat (map HookProcess.chunkText chunks) ++
                HookProcess.chunkText last).
  exists (flat_map
            (flat_map
               (Events.calls
                  (Events.listeners loop ++
                     [Events.mkListener (Events.created loop, Events.Stdout)
                        (lit "data") dataListener;
                      Events.mkListener (Events.created loop, Events.Self)
                        (lit "close") closeListener])))
            (Events.tickQueue loop)).
  split; [|split].
  - unfold Events.runTicks.
    cbn [Events.on Events.nextTick Events.listeners Events.tickQueue
         Events.delivered Events.created].
    rewrite fold_left_app. cbn [fold_left].
    rewrite runTasks_spec, runTask_spec.
    cbn [Events.listeners Events.tickQueue Events.delivered Events.created].
    rewrite <- ?app_assoc. f_equal. cbn [app]. f_equal.
    unfold HookProcess.hookTask. cbn [flat_map]. rewrite app_nil_r.
    rewrite !calls_app.
    rewrite !(calls_fresh (Events.listeners loop) _ (Events.created loop))
      by (auto; reflexivity).
    unfold Events.calls. cbn [app filter].
    unfold Events.listensTo, Events.emitter_eqb.
    cbn [Events.source Events.target Events.eventName Events.event fst snd
         Events.channel_eqb].
    rewrite Nat.eqb_refl. cbn [andb].
    change (jsstring_eqb (lit "data") (lit "data")) with true.
    change (jsstring_eqb (lit "close") (lit "close")) with true.
    change (jsstring_eqb (lit "close") (lit "data")) with false.
    change (jsstring_eqb (lit "data") (lit "close")) with false.
    cbn [map app Events.listenerId]. reflexivity.
  - apply deliveredOf_old. exact Hq.
  - unfold Events.runTicks. rewrite runTasks_spec. reflexivity.
Qed.

Lemma hook_child_answers_after_end_witness :
  exists earlier,
    Events.delivered
      (Events.runTicks
         (Events.on (0%nat, Events.Self) (lit "close") 2%nat
            (snd (fst
               (HookProcess.stdinEnd (fun s => s ++ lit "!") None None
                  (HookProcess.written [Some (lit "ab"); None; Some (lit "c")]
                     (fst (HookProcess.createHookChildProcess 77
                             (Events.mkLoop [] [] [] 0))))
                  (Events.on (0%nat, Events.Stdout) (lit "data") 1%nat
                     (snd (HookProcess.createHookChildProcess 77
                             (Events.mkLoop [] [] [] 0))))))))) =
    earlier ++
      [(1%nat,
        Events.mkEmission (0%nat, Events.Stdout) (lit "data")
          (Events.Data (lit "abc!")));
       (2%nat,
        Events.mkEmission (0%nat, Events.Self) (lit "close")
          (Events.ExitStatus 0))] /\
    Events.deliveredOf 0 earlier = [].
Proof.
  destruct (hook_child_answers_after_end
              (Events.mkLoop [] [] [] 0) 77 (fun s => s ++ lit "!")
              [Some (lit "ab"); None; Some (lit "c")] None 1%nat 2%nat)
    as (_ & _ & _ & earlier & H & Hearlier & _).
  - split; [intros l [] | intros task e []].
  - exists earlier. split; [exact H | exact Hearlier].
Defined.

(* ================================================================== *)
(** ** The settings hook, applied again *)
(* ================================================================== *)




(* ================================================================== *)
(** ** The tracked set at a teardown *)
(* ================================================================== *)

Section Teardown.

Import Tracking.

Lemma tracked_below_spawned (ops : list Op) (c : Child) :
  In c (childProcesses (run ops)) -> (childId c < spawned (run ops))%nat.
Proof.
  revert c. induction ops as [|op ops IH] using rev_ind; intros c Hin.
  - destruct Hin.
  - rewrite run_snoc in *. destruct op; cbn [step childProcesses spawned] in *.
    + auto.
    + destruct (truthyPid pid).
      * apply In_add in Hin as [Hin | ->]; [apply IH in Hin; lia|].
        cbn [childId]. lia.
      * apply IH in Hin. lia.
    + apply In_delete in Hin as [Hin _]. auto.
    + apply In_delete in Hin as [Hin _]. auto.
    + unfold cleanupAndExit in Hin. cbn [childProcesses] in Hin.
      rewrite killChildren_clears in Hin. destruct Hin.
    + unfold cleanupAndExit in Hin. cbn [childProcesses] in Hin.
      rewrite killChildren_clears in Hin. destruct Hin.
    + unfold cleanupAndExit in Hin. cbn [childProcesses] in Hin.
      rewrite killChildren_clears in Hin. destruct Hin.
    + rewrite killChildren_clears in Hin. destruct Hin.
    + auto.
Qed.

Lemma tracked_survives (after : list Op) (t : Tracker) (c : Child) :
  In c (childProcesses t) ->
  Forall (fun op => notifies (childId c) op = false /\
                    tearsDown op = false) after ->
  In c (childProcesses (fold_left step after t)).
Proof.
  revert t. induction after as [|op after IH]; intros t Hin Hall;
    [exact Hin|].
  inversion Hall as [|? ? [Hn Ht] Hrest]; subst.
  cbn [fold_left]. apply IH; [|exact Hrest].
  destruct op; cbn [step childProcesses]; try discriminate; auto.
  - destruct (truthyPid pid); [apply add_keeps|]; exact Hin.
  - apply In_delete. split; [exact Hin|]. cbn [notifies] in Hn.
    apply Nat.eqb_neq in Hn. exact Hn.
  - apply In_delete. split; [exact Hin|]. cbn [notifies] in Hn.
    apply Nat.eqb_neq in Hn. exact Hn.
Qed.

Lemma alive_tracked (ops : list Op) (c : Child) :
  aliveIn ops c -> In c (childProcesses (run ops)).
Proof.
  intros (before & after & -> & Hid & Hpid & Hafter).
  unfold run. rewrite fold_left_app. cbn [fold_left].
  fold (run before). apply tracked_survives; [|exact Hafter].
  cbn [step childProcesses].
  destruct (truthyPid (childPid c)) eqn:E; [|contradiction].
  unfold add.
  replace (existsb _ (childProcesses (run before))) with false.
  - apply in_app_iff. right. left. destruct c as [id pid].
    cbn [childId childPid] in *. rewrite Hid. reflexivity.
  - symmetry. apply not_true_is_false. intro Hex.
    apply existsb_exists in Hex as (x & Hx & Heq).
    apply tracked_below_spawned in Hx. unfold child_eqb in Heq.
    cbn [childId] in Heq. apply Nat.eqb_eq in Heq. lia.
Qed.

Lemma commands_killChildren (t : Tracker) :
  commands (killChildren t) =
    commands t ++
      flat_map (fun c => match truthyPid (childPid c) with
                         | Some p => [Lifecycle.Taskkill p 3000]
                         | None => []
                         end) (childProcesses t).
Proof.
  unfold killChildren. destruct (childProcesses t) eqn:E.
  - cbn. rewrite app_nil_r. reflexivity.
  - reflexivity.
Qed.

Lemma commands_step (t : Tracker) (op : Op) :
  commands (step t op) =
    commands t ++
      if tearsDown op then
        flat_map (fun c => match truthyPid (childPid c) with
                           | Some p => [Lifecycle.Taskkill p 3000]
                           | None => []
                           end) (childProcesses t)
      else [].
Proof.
  destruct op; cbn [step tearsDown commands cleanupAndExit];
    try (rewrite app_nil_r; reflexivity); apply commands_killChildren.
Qed.

Lemma truthyPid_Some (pid : option Z) (p : Z) :
  truthyPid pid = Some p -> pid = Some p /\ p <> 0%Z.
Proof.
  destruct pid as [n|]; cbn; [|discriminate].
  destruct (Z.eqb_spec n 0); [discriminate|]. intros [= <-]. auto.
Qed.

End Teardown.

(** X16.  A subprocess spawned with a process identity that has since told
    of neither exit nor error, with no signal teardown in between, is in
    the tracked set, whatever else was spawned or has ended.  A signal
    teardown then runs the tree kill on its process identity, with a
    timeout of three seconds, and leaves the set empty. *)
Theorem teardown_reaches_every_live_child :
  forall ops c p signal,
    Tracking.aliveIn ops c ->
    Tracking.childPid c = Some p ->
    Tracking.tearsDown signal = true ->
    In c (Tracking.childProcesses (Tracking.run ops)) /\
    In (Lifecycle.Taskkill p 3000)
       (Tracking.commands (Tracking.run (ops ++ [signal]))) /\
    Tracking.childProcesses (Tracking.run (ops ++ [signal])) = [].
Proof.
  intros ops c p signal Halive Hp Hsig.
  pose proof (alive_tracked ops c Halive) as Hin.
  split; [exact Hin|]. rewrite run_snoc. split.
  - rewrite commands_step, Hsig. apply in_app_iff. right.
    apply in_flat_map. exists c. split; [exact Hin|].
    destruct Halive as (_ & _ & _ & _ & Hpid & _).
    rewrite Hp in *. cbn [Tracking.truthyPid] in *.
    destruct (Z.eqb p 0); [contradiction|]. left. reflexivity.
  - destruct signal; try discriminate; cbn [Tracking.step];
      unfold Tracking.cleanupAndExit; cbn [Tracking.childProcesses];
      apply killChildren_clears.
Qed.

Lemma teardown_reaches_every_live_child_witness :
  In (Lifecycle.Taskkill 4242 3000)
     (Tracking.commands
        (Tracking.run
           [Tracking.SpawnReal (Some 4242%Z); Tracking.SpawnReal None;
            Tracking.SpawnReal (Some 17%Z); Tracking.ExitEvent 2;
            Tracking.SIGINT])).
Proof.
  apply (teardown_reaches_every_live_child
           [Tracking.SpawnReal (Some 4242%Z); Tracking.SpawnReal None;
            Tracking.SpawnReal (Some 17%Z); Tracking.ExitEvent 2]
           (Tracking.mkChild 0 (Some 4242%Z)) 4242%Z Tracking.SIGINT).
  - exists [], [Tracking.SpawnReal None; Tracking.SpawnReal (Some 17%Z);
                Tracking.ExitEvent 2].
    split; [reflexivity|]. split; [reflexivity|].
    split; [discriminate|]. repeat constructor.
  - reflexivity.
  - reflexivity.
Defined.

(** X17.  The signal handlers run the tree kill only on what they track:
    every command they have run has a timeout of three seconds and targets
    the non-zero process identity of a subprocess that had been spawned,
    and had told of neither exit nor error since, when a signal teardown
    arrived. *)
Theorem taskkill_targets_were_tracked :
  forall ops cmd,
    In cmd (Tracking.commands (Tracking.run ops)) ->
    Lifecycle.timeout cmd = 3000%Z /\
    Lifecycle.targetPid cmd <> 0%Z /\
    exists before signal after c,
      ops = before ++ signal :: after /\
      Tracking.tearsDown signal = true /\
      Tracking.aliveIn before c /\
      Tracking.childPid c = Some (Lifecycle.targetPid cmd).
Proof.
  intros ops. induction ops as [|op ops IH] using rev_ind; intros cmd Hin.
  - destruct Hin.
  - rewrite run_snoc, commands_step in Hin.
    apply in_app_iff in Hin as [Hin | Hin].
    + destruct (IH cmd Hin)
        as (H1 & H2 & before & signal & after & c & -> & Hs & Ha & Hc).
      split; [exact H1|]. split; [exact H2|].
      exists before, signal, (after ++ [op]), c.
      rewrite <- app_assoc. auto.
    + destruct (Tracking.tearsDown op) eqn:Hop; [|destruct Hin].
      apply in_flat_map in Hin as (c & Hc & Hin).
      destruct (Tracking.truthyPid (Tracking.childPid c)) as [p|] eqn:Hp;
        [|destruct Hin].
      destruct Hin as [<- | []].
      apply truthyPid_Some in Hp as [Hp Hnz].
      cbn [Lifecycle.timeout Lifecycle.targetPid].
      split; [reflexivity|]. split; [exact Hnz|].
      exists ops, op, [], c. repeat split; auto.
      apply tracked_alive. exact Hc.
Qed.

Lemma taskkill_targets_were_tracked_witness :
  Lifecycle.timeout (Lifecycle.Taskkill 4242 3000) = 3000%Z /\
  Lifecycle.targetPid (Lifecycle.Taskkill 4242 3000) <> 0%Z.
Proof.
  destruct (taskkill_targets_were_tracked
              [Tracking.SpawnReal (Some 4242%Z); Tracking.SIGBREAK]
              (Lifecycle.Taskkill 4242 3000)) as (H1 & H2 & _).
  - vm_compute. left. reflexivity.
  - split; [exact H1 | exact H2].
Defined.

(* ================================================================== *)
(** ** Start-up: the WSL redirect, the npm root and the search path *)
(* ================================================================== *)

Section StartupFacts.

Import Startup.

Open Scope N_scope.

Lemma asciiUpper_eq_plain (x c : jschar) :
  isAsciiLetter x = false -> asciiUpper c = x -> c = x.
Proof.
  unfold asciiUpper, isAsciiLetter, isUpperAscii, isLowerAscii.
  destruct (N.leb_spec 97 c), (N.leb_spec c 122); cbn [andb];
    intros Hx <-; try reflexivity.
  exfalso. revert Hx.
  destruct (N.leb_spec 65 (c - 32)), (N.leb_spec (c - 32) 90);
    cbn [andb orb]; try discriminate; lia.
Qed.

Lemma notBackslash_spec (c : jschar) :
  cset_mem true (CNot (CChar 92)) c = negb (c =? 92).
Proof.
  cbn [cset_mem]. f_equal.
  destruct (N.eqb_spec c 92) as [-> | Hne]; [reflexivity|].
  apply N.eqb_neq. intro H. apply Hne.
  apply asciiUpper_eq_plain; [reflexivity|]. symmetry. exact H.
Qed.

Lemma takeWhile_dropWhile (f : jschar -> bool) (s : jsstring) :
  s = takeWhile f s ++ dropWhile f s.
Proof.
  induction s as [|c s IH]; [reflexivity|].
  cbn [takeWhile dropWhile]. destruct (f c); [|reflexivity].
  cbn [app]. f_equal. exact IH.
Qed.

Lemma takeWhile_all (f : jschar -> bool) (s : jsstring) (c : jschar) :
  In c (takeWhile f s) -> f c = true.
Proof.
  induction s as [|x s IH]; [intros []|].
  cbn [takeWhile]. destruct (f x) eqn:E; [|intros []].
  intros [<- | H]; auto.
Qed.

Lemma dropWhile_head (f : jschar -> bool) (s : jsstring) :
  dropWhile f s = [] \/
  exists c rest, dropWhile f s = c :: rest /\ f c = false.
Proof.
  induction s as [|x s IH]; [left; reflexivity|].
  cbn [dropWhile]. destruct (f x) eqn:E; [exact IH|].
  right. exists x, s. auto.
Qed.

Lemma takeWhile_whole (f : jschar -> bool) (s : jsstring) :
  (forall c, In c s -> f c = true) -> takeWhile f s = s.
Proof.
  induction s as [|x s IH]; intro H; [reflexivity|].
  cbn [takeWhile]. rewrite (H x (or_introl eq_refl)).
  f_equal. apply IH. intros c Hc. apply H. right. exact Hc.
Qed.

Lemma takeWhile_stop (f : jschar -> bool) (d tail : jsstring) :
  (forall c, In c d -> f c = true) ->
  (tail = [] \/ exists c rest, tail = c :: rest /\ f c = false) ->
  takeWhile f (d ++ tail) = d /\ dropWhile f (d ++ tail) = tail.
Proof.
  intros Hd Htail. induction d as [|x d IH]; cbn [app takeWhile dropWhile].
  - destruct Htail as [-> | (c & rest & -> & Hc)]; [auto|].
    cbn [takeWhile dropWhile]. rewrite Hc. auto.
  - rewrite (Hd x (or_introl eq_refl)).
    destruct IH as [-> ->]; [|auto].
    intros c Hc. apply Hd. right. exact Hc.
Qed.

Lemma matchLiteral_inv (p s r : jsstring) :
  matchLiteral p s = Some r ->
  exists pre, s = pre ++ r /\ map asciiUpper pre = map asciiUpper p.
Proof.
  revert s. induction p as [|x p IH]; intros s H.
  - injection H as <-. exists []. auto.
  - destruct s as [|c s]; [discriminate|]. cbn [matchLiteral cset_mem] in H.
    destruct (N.eqb_spec (asciiUpper x) (asciiUpper c)) as [E|]; [|discriminate].
    destruct (IH s H) as (pre & -> & Hpre).
    exists (c :: pre). cbn [map app]. rewrite Hpre, E. auto.
Qed.

Lemma matchLiteral_fold (p pre s : jsstring) :
  map asciiUpper pre = map asciiUpper p ->
  matchLiteral p (pre ++ s) = Some s.
Proof.
  revert pre. induction p as [|x p IH]; intros [|c pre] H; try discriminate.
  - reflexivity.
  - injection H as Hc Hpre. cbn [app matchLiteral cset_mem].
    rewrite Hc, N.eqb_refl. apply IH. exact Hpre.
Qed.

Lemma matchLiteral_app (p q s : jsstring) :
  matchLiteral (p ++ q) s =
    match matchLiteral p s with
    | Some r => matchLiteral q r
    | None => None
    end.
Proof.
  revert s. induction p as [|x p IH]; intro s; [reflexivity|].
  destruct s as [|c s]; [reflexivity|].
  cbn [app matchLiteral]. destruct (cset_mem true (CChar x) c); auto.
Qed.

Lemma wslMatch_inv (cwd d rest : jsstring) :
  wslMatch cwd = Some (d, rest) ->
  exists prefix host r3,
    cwd = prefix ++ r3 /\
    (host = lit "$" \/ host = lit ".localhost") /\
    map asciiUpper prefix =
      map asciiUpper (bs ++ bs ++ lit "wsl" ++ host ++ bs) /\
    d = takeWhile (cset_mem true (CNot (CChar 92))) r3 /\
    d <> [] /\
    rest = takeWhile (cset_mem true CDot)
             (dropWhile (cset_mem true (CNot (CChar 92))) r3).
Proof.
  unfold wslMatch.
  destruct (matchLiteral (bs ++ bs ++ lit "wsl") cwd) as [r1|] eqn:E1;
    [|discriminate].
  apply matchLiteral_inv in E1 as (p1 & -> & Hp1).
  assert (Hhost : forall host r2,
            (host = lit "$" \/ host = lit ".localhost") ->
            matchLiteral host r1 = Some r2 ->
            match matchLiteral bs r2 with
            | Some r3 =>
                match takeWhile (cset_mem true (CNot (CChar 92))) r3 with
                | [] => None
                | c :: l =>
                    Some (c :: l,
                          takeWhile (cset_mem true CDot)
                            (dropWhile (cset_mem true (CNot (CChar 92))) r3))
                end
            | None => None
            end = Some (d, rest) ->
            exists prefix host r3,
              p1 ++ r1 = prefix ++ r3 /\
              (host = lit "$" \/ host = lit ".localhost") /\
              map asciiUpper prefix =
                map asciiUpper (bs ++ bs ++ lit "wsl" ++ host ++ bs) /\
              d = takeWhile (cset_mem true (CNot (CChar 92))) r3 /\
              d <> [] /\
              rest = takeWhile (cset_mem true CDot)
                       (dropWhile (cset_mem true (CNot (CChar 92))) r3)).
  { intros host r2 Hh E2 H.
    apply matchLiteral_inv in E2 as (p2 & -> & Hp2).
    destruct (matchLiteral bs _) as [r3|] eqn:E3; [|discriminate].
    apply matchLiteral_inv in E3 as (p3 & -> & Hp3).
    destruct (takeWhile _ r3) as [|c l] eqn:Ed; [discriminate|].
    injection H as <- <-.
    exists (p1 ++ p2 ++ p3), host, r3.
    split; [rewrite <- !app_assoc; reflexivity|].
    split; [exact Hh|].
    split.
    - rewrite !map_app, Hp1, Hp2, Hp3.
      change (bs ++ bs ++ lit "wsl" ++ host ++ bs)
        with ((bs ++ bs ++ lit "wsl") ++ host ++ bs).
      rewrite !map_app. reflexivity.
    - split; [symmetry; exact Ed|]. split; [discriminate | reflexivity]. }
  destruct (matchLiteral (lit "$") r1) as [r2|] eqn:E2.
  - apply (Hhost (lit "$") r2); auto.
  - destruct (matchLiteral (lit ".localhost") r1) as [r2|] eqn:E2';
      [|discriminate].
    apply (Hhost (lit ".localhost") r2); auto.
Qed.

Lemma wslMatch_complete (prefix host d tail : jsstring) :
  (host = lit "$" \/ host = lit ".localhost") ->
  map asciiUpper prefix =
    map asciiUpper (bs ++ bs ++ lit "wsl" ++ host ++ bs) ->
  d <> [] -> ~ In 92 d ->
  (tail = [] \/ exists rest, tail = 92 :: rest) ->
  wslMatch (prefix ++ d ++ tail) =
    Some (d, takeWhile (cset_mem true CDot) tail).
Proof.
  intros Hhost Hprefix Hd Hclean Htail.
  assert (Hsplit : exists p1 p2 p3,
             prefix = p1 ++ p2 ++ p3 /\
             map asciiUpper p1 = map asciiUpper (bs ++ bs ++ lit "wsl") /\
             map asciiUpper p2 = map asciiUpper host /\
             map asciiUpper p3 = map asciiUpper bs).
  { change (bs ++ bs ++ lit "wsl" ++ host ++ bs)
      with ((bs ++ bs ++ lit "wsl") ++ host ++ bs) in Hprefix.
    rewrite !map_app in Hprefix.
    apply map_eq_app in Hprefix as (p1 & q & -> & H1 & Hq).
    apply map_eq_app in Hq as (p2 & p3 & -> & H2 & H3).
    exists p1, p2, p3. auto. }
  destruct Hsplit as (p1 & p2 & p3 & -> & H1 & H2 & H3).
  unfold wslMatch. rewrite <- !app_assoc.
  rewrite (matchLiteral_fold _ p1 _ H1).
  assert (Hafter :
    match matchLiteral (lit "$") (p2 ++ p3 ++ d ++ tail) with
    | Some r2 => Some r2
    | None => matchLiteral (lit ".localhost") (p2 ++ p3 ++ d ++ tail)
    end = Some (p3 ++ d ++ tail)).
  { destruct Hhost as [-> | ->].
    - rewrite (matchLiteral_fold _ p2 _ H2). reflexivity.
    - rewrite (matchLiteral_fold (lit ".localhost") p2 _ H2).
      destruct p2 as [|c p2]; [discriminate|].
      injection H2 as Hc _.
      change (matchLiteral (lit "$") ((c :: p2) ++ p3 ++ d ++ tail))
        with (if (asciiUpper 36 =? asciiUpper c)
              then Some (p2 ++ p3 ++ d ++ tail) else None).
      rewrite Hc. reflexivity. }
  rewrite Hafter. rewrite (matchLiteral_fold _ p3 _ H3).
  destruct (takeWhile_stop (cset_mem true (CNot (CChar 92))) d tail)
    as [-> ->].
  - intros c Hc. rewrite notBackslash_spec. apply negb_true_iff, N.eqb_neq.
    intros ->. exact (Hclean Hc).
  - destruct Htail as [-> | (rest & ->)]; [auto|]. right.
    exists 92, rest. split; [reflexivity|]. rewrite notBackslash_spec.
    reflexivity.
  - destruct d; [contradiction|]. reflexivity.
Qed.

Lemma trimStart_head (s : jsstring) (c : jschar) (rest : jsstring) :
  trimStart s = c :: rest -> isWhiteSpace c = false.
Proof.
  induction s as [|x s IH]; [discriminate|].
  cbn [trimStart]. destruct (isWhiteSpace x) eqn:E; [exact IH|].
  intros [= <- _]. exact E.
Qed.

Lemma trimStart_suffix (s : jsstring) :
  exists ws, s = ws ++ trimStart s /\ forallb isWhiteSpace ws = true.
Proof.
  induction s as [|x s (ws & IH & Hws)]; [exists []; auto|].
  cbn [trimStart]. destruct (isWhiteSpace x) eqn:E.
  - exists (x :: ws). cbn [app forallb]. rewrite E, Hws.
    split; [f_equal; exact IH | reflexivity].
  - exists []. auto.
Qed.

Lemma trimStart_fixed (s : jsstring) :
  (forall c rest, s = c :: rest -> isWhiteSpace c = false) ->
  trimStart s = s.
Proof.
  destruct s as [|c s]; [reflexivity|]. intro H.
  cbn [trimStart]. rewrite (H c s eq_refl). reflexivity.
Qed.

Lemma trimEnd_last (s pre : jsstring) (c : jschar) :
  trimEnd s = pre ++ [c] -> isWhiteSpace c = false.
Proof.
  unfold trimEnd. intro H.
  apply (f_equal (@rev jschar)) in H.
  rewrite rev_involutive, rev_app_distr in H. cbn [rev app] in H.
  exact (trimStart_head _ _ _ H).
Qed.

Lemma trimEnd_prefix (s : jsstring) :
  exists ws, s = trimEnd s ++ ws /\ forallb isWhiteSpace ws = true.
Proof.
  destruct (trimStart_suffix (rev s)) as (ws & H & Hws).
  exists (rev ws). split.
  - unfold trimEnd. rewrite <- rev_app_distr, <- H, rev_involutive.
    reflexivity.
  - rewrite forallb_forall in *. intros x Hx. apply Hws.
    apply in_rev. exact Hx.
Qed.

Lemma trimEnd_fixed (s : jsstring) :
  (forall pre c, s = pre ++ [c] -> isWhiteSpace c = false) ->
  trimEnd s = s.
Proof.
  intro H. unfold trimEnd. rewrite trimStart_fixed.
  - apply rev_involutive.
  - intros c rest Hrev. apply (H (rev rest) c).
    apply (f_equal (@rev jschar)) in Hrev.
    rewrite rev_involutive in Hrev. exact Hrev.
Qed.

Lemma trim_ends (s : jsstring) :
  (forall c rest, trim s = c :: rest -> isWhiteSpace c = false) /\
  (forall pre c, trim s = pre ++ [c] -> isWhiteSpace c = false).
Proof.
  unfold trim. split.
  - intros c rest H.
    destruct (trimEnd_prefix (trimStart s)) as (ws & Hs & _).
    rewrite H in Hs. exact (trimStart_head s c (rest ++ ws) Hs).
  - intros pre c H. exact (trimEnd_last _ _ _ H).
Qed.

Lemma trim_blank (s : jsstring) :
  forallb isWhiteSpace s = true -> trim s = [].
Proof.
  intro H. unfold trim.
  replace (trimStart s) with (@nil jschar); [reflexivity|].
  symmetry. induction s as [|c s IH]; [reflexivity|].
  cbn [forallb] in H. apply andb_true_iff in H as [Hc Hs].
  cbn [trimStart]. rewrite Hc. auto.
Qed.

Lemma split_single (sep : jschar) (p : jsstring) :
  ~ In sep p -> split sep p = [p].
Proof.
  induction p as [|c p IH]; intro H; [reflexivity|].
  cbn [split]. destruct (N.eqb_spec c sep) as [-> | _].
  - exfalso. apply H. left. reflexivity.
  - rewrite IH; [reflexivity|]. intro Hin. apply H. right. exact Hin.
Qed.

Lemma split_app (sep : jschar) (p t : jsstring) :
  ~ In sep p -> split sep (p ++ sep :: t) = p :: split sep t.
Proof.
  induction p as [|c p IH]; intro H.
  - cbn [app split]. rewrite N.eqb_refl. reflexivity.
  - cbn [app split]. destruct (N.eqb_spec c sep) as [-> | _].
    + exfalso. apply H. left. reflexivity.
    + rewrite IH; [reflexivity|]. intro Hin. apply H. right. exact Hin.
Qed.

Lemma split_parts (sep : jschar) (s part : jsstring) :
  In part (split sep s) -> ~ In sep part.
Proof.
  revert part. induction s as [|c s IH]; intros part Hin.
  - destruct Hin as [<- | []]. intros [].
  - cbn [split] in Hin. destruct (N.eqb_spec c sep) as [-> | Hne].
    + destruct Hin as [<- | Hin]; [intros []|]. auto.
    + destruct (split sep s) as [|p parts] eqn:E.
      * destruct Hin as [<- | []]. intros [H | []]. congruence.
      * destruct Hin as [<- | Hin].
        -- intros [H | H]; [congruence|].
           exact (IH p (or_introl eq_refl) H).
        -- apply IH. right. exact Hin.
Qed.

Lemma split_join (sep : jschar) (parts : list jsstring) :
  parts <> [] ->
  (forall part, In part parts -> ~ In sep part) ->
  split sep (join sep parts) = parts.
Proof.
  induction parts as [|p parts IH]; intros Hne Hparts; [contradiction|].
  destruct parts as [|q parts].
  - cbn [join]. apply split_single. apply Hparts. left. reflexivity.
  - change (join sep (p :: q :: parts))
      with (p ++ sep :: join sep (q :: parts)).
    rewrite split_app by (apply Hparts; left; reflexivity).
    rewrite IH; [reflexivity | discriminate |].
    intros part Hin. apply Hparts. right. exact Hin.
Qed.

End StartupFacts.

(** X18.  When the WSL redirect launches, the working directory is a UNC
    path of the WSL share: two backslashes, [wsl$] or [wsl.localhost] in
    any letter case, a backslash, the distribution, and then nothing or a
    backslash and more.  The distribution handed over is not empty and has
    no backslash; the path handed over starts with a slash and has neither
    a backslash nor a line break; the wrapper exits with the status of the
    launched process, or 0 when there is none. *)
Theorem handleWslPath_launch_shape :
  forall cwd status launch exitCode,
    Startup.handleWslPath cwd status = Some (launch, exitCode) ->
    exists path prefix host tail,
      cwd = Some path /\
      path = prefix ++ Startup.distro launch ++ tail /\
      (host = lit "$" \/ host = lit ".localhost") /\
      map asciiUpper prefix =
        map asciiUpper (bs ++ bs ++ lit "wsl" ++ host ++ bs) /\
      Startup.distro launch <> [] /\
      ~ In 92%N (Startup.distro launch) /\
      (tail = [] \/ exists rest, tail = 92%N :: rest) /\
      (exists rest, Startup.wslPath launch = 47%N :: rest) /\
      ~ In 92%N (Startup.wslPath launch) /\
      (forall c, In c (Startup.wslPath launch) ->
                 isLineTerminator c = false) /\
      exitCode = match status with Some n => n | None => 0%Z end.
Proof.
  intros [path|] status launch exitCode; [|discriminate].
  unfold Startup.handleWslPath.
  destruct (Startup.wslMatch path) as [[d rest]|] eqn:E; [|discriminate].
  intros [= <- <-].
  apply wslMatch_inv in E as (prefix & host & r3 & -> & Hhost & Hprefix &
                              Hd & Hne & Hrest).
  set (notBackslash := cset_mem true (CNot (CChar 92%N))) in *.
  exists (prefix ++ r3), prefix, host, (Startup.dropWhile notBackslash r3).
  cbn [Startup.distro Startup.wslPath].
  assert (Htail : Startup.dropWhile notBackslash r3 = [] \/
                  exists t, Startup.dropWhile notBackslash r3 = 92%N :: t).
  { destruct (dropWhile_head notBackslash r3) as [H | (c & t & H & Hc)];
      [auto|].
    right. exists t. rewrite H. f_equal. unfold notBackslash in Hc.
    rewrite notBackslash_spec in Hc. apply negb_false_iff in Hc.
    apply N.eqb_eq. exact Hc. }
  split; [reflexivity|].
  split; [rewrite Hd; f_equal; apply takeWhile_dropWhile|].
  split; [exact Hhost|]. split; [exact Hprefix|]. split; [exact Hne|].
  split.
  { intro Hin. rewrite Hd in Hin. apply takeWhile_all in Hin.
    unfold notBackslash in Hin. rewrite notBackslash_spec in Hin.
    discriminate. }
  split; [exact Htail|].
  assert (Hline : forall c, In c (Runner.replaceBackslashes rest) ->
                            isLineTerminator c = false).
  { intros c Hc. unfold Runner.replaceBackslashes in Hc.
    apply in_map_iff in Hc as (x & <- & Hx).
    destruct (N.eqb_spec x 92); [reflexivity|].
    rewrite Hrest in Hx. apply takeWhile_all in Hx. cbn [cset_mem] in Hx.
    apply negb_true_iff in Hx. exact Hx. }
  destruct (Runner.replaceBackslashes rest) as [|c l] eqn:Er.
  - split; [eexists; reflexivity|]. split.
    + intros [H | []]. discriminate.
    + split; [|reflexivity]. intros c [<- | []]. reflexivity.
  - split.
    + destruct Htail as [Ht | (t & Ht)]; rewrite Ht in Hrest;
        rewrite Hrest in Er; [discriminate|].
      injection Er as <- _. eexists. reflexivity.
    + split; [rewrite <- Er; apply replaceBackslashes_clean|].
      split; [exact Hline | reflexivity].
Qed.

Lemma handleWslPath_launch_shape_witness :
  exists rest,
    Startup.wslPath
      (Startup.mkWslLaunch (lit "Ubuntu") (lit "/home/me/src")) =
    47%N :: rest.
Proof.
  destruct (handleWslPath_launch_shape
              (Some (bs ++ bs ++ lit "wsl.localhost" ++ bs ++ lit "Ubuntu"
                       ++ bs ++ lit "home" ++ bs ++ lit "me" ++ bs
                       ++ lit "src"))
              (Some 3%Z)
              (Startup.mkWslLaunch (lit "Ubuntu") (lit "/home/me/src"))
              3%Z)
    as (path & prefix & host & tail & _ & _ & _ & _ & _ & _ & _ & H & _).
  - vm_compute. reflexivity.
  - exact H.
Defined.

(** X19.  In a working directory that is a UNC path of the WSL share, in
    any letter case of the host part, the redirect launches: the
    distribution is the component after the host, and the path is what
    follows it with every backslash turned into a slash, or a single
    slash when nothing follows. *)
Theorem handleWslPath_unc :
  forall (prefix host d tail : jsstring) (status : option Z),
    (host = lit "$" \/ host = lit ".localhost") ->
    map asciiUpper prefix =
      map asciiUpper (bs ++ bs ++ lit "wsl" ++ host ++ bs) ->
    d <> [] -> ~ In 92%N d ->
    (tail = [] \/ exists rest, tail = 92%N :: rest) ->
    (forall c, In c tail -> isLineTerminator c = false) ->
    Startup.handleWslPath (Some (prefix ++ d ++ tail)) status =
      Some (Startup.mkWslLaunch d
              (match tail with
               | [] => lit "/"
               | _ => Runner.replaceBackslashes tail
               end),
            match status with Some n => n | None => 0%Z end).
Proof.
  intros prefix host d tail status Hhost Hprefix Hd Hclean Htail Hline.
  unfold Startup.handleWslPath.
  rewrite (wslMatch_complete prefix host d tail Hhost Hprefix Hd Hclean Htail).
  rewrite takeWhile_whole.
  - destruct tail; reflexivity.
  - intros c Hc. cbn [cset_mem]. rewrite (Hline c Hc). reflexivity.
Qed.

Lemma handleWslPath_unc_witness :
  Startup.handleWslPath
    (Some ((bs ++ bs ++ lit "WSL$" ++ bs) ++ lit "Debian" ++
           (bs ++ lit "srv" ++ bs ++ lit "app")))
    None =
  Some (Startup.mkWslLaunch (lit "Debian") (lit "/srv/app"), 0%Z).
Proof.
  apply (handleWslPath_unc (bs ++ bs ++ lit "WSL$" ++ bs) (lit "$")
           (lit "Debian") (bs ++ lit "srv" ++ bs ++ lit "app") None).
  - left. reflexivity.
  - reflexivity.
  - discriminate.
  - vm_compute. intuition discriminate.
  - right. eexists. reflexivity.
  - intros c Hc. vm_compute in Hc.
    repeat (destruct Hc as [<- | Hc]; [reflexivity|]). destruct Hc.
Defined.

(** X20.  A root [getNpmGlobalRoot] returns is the output of the command
    with the white space at both ends removed: it is not empty, neither
    end of it is white space, and trimming it again changes nothing.  It
    returns one only when the command succeeded; output that is nothing
    but white space is reported as a failure, under the message of the
    general failure. *)
Theorem getNpmGlobalRoot_root_is_trimmed :
  (forall npmRoot root,
      Startup.getNpmGlobalRoot npmRoot = inl root ->
      exists stdout,
        npmRoot = Startup.ExecReturns stdout /\
        root = Startup.trim stdout /\
        root <> [] /\
        (forall c rest, root = c :: rest -> isWhiteSpace c = false) /\
        (forall pre c, root = pre ++ [c] -> isWhiteSpace c = false) /\
        Startup.trim root = root) /\
  (forall stdout,
      forallb isWhiteSpace stdout = true ->
      Startup.getNpmGlobalRoot (Startup.ExecReturns stdout) =
        inr (lit "Failed to get npm global root: npm root -g returned empty result")).
Proof.
  split.
  - intros [stdout | e] root H.
    + exists stdout. cbn [Startup.getNpmGlobalRoot] in H.
      destruct (Startup.trim stdout) as [|c l] eqn:E; [discriminate|].
      injection H as <-. rewrite <- E.
      destruct (trim_ends stdout) as [Hhead Hlast].
      split; [reflexivity|]. split; [reflexivity|].
      split; [rewrite E; discriminate|].
      split; [exact Hhead|]. split; [exact Hlast|].
      unfold Startup.trim at 1.
      rewrite (trimStart_fixed _ Hhead). apply trimEnd_fixed. exact Hlast.
    + cbn [Startup.getNpmGlobalRoot] in H.
      destruct (Startup.optionIs _ _); [discriminate|].
      destruct (Startup.optionIs _ _); discriminate.
  - intros stdout H. cbn [Startup.getNpmGlobalRoot].
    rewrite (trim_blank stdout H). reflexivity.
Qed.

Lemma getNpmGlobalRoot_root_is_trimmed_witness :
  Startup.getNpmGlobalRoot (Startup.ExecReturns (lit " " ++ lf)) =
    inr (lit "Failed to get npm global root: npm root -g returned empty result").
Proof.
  apply (proj2 getNpmGlobalRoot_root_is_trimmed). reflexivity.
Defined.

(** X21.  When the directory of Program Files Git is missing the search
    path is left as it is.  When it exists, the entries of the new search
    path are that directory followed by the old entries in their order,
    without those that name both scoop and git in any letter case; no
    entry of the new path names both. *)
Theorem setupGitPath_entries :
  (forall PATH, Startup.setupGitPath false PATH = PATH) /\
  (forall PATH,
      exists new,
        Startup.setupGitPath true PATH = Some new /\
        Startup.split 59%N new =
          Startup.programFilesGit ::
            filter Startup.keepsEntry
              (Startup.split 59%N
                 (match PATH with Some p => p | None => [] end)) /\
        (forall entry, In entry (Startup.split 59%N new) ->
                       Startup.keepsEntry entry = true)).
Proof.
  split; [reflexivity|]. intro PATH.
  eexists. split; [reflexivity|].
  set (old := match PATH with Some p => p | None => [] end).
  assert (Hsplit :
    Startup.split 59%N
      (Startup.join 59%N
         (Startup.programFilesGit ::
            filter Startup.keepsEntry (Startup.split 59%N old))) =
    Startup.programFilesGit ::
      filter Startup.keepsEntry (Startup.split 59%N old)).
  { apply split_join; [discriminate|].
    intros part [<- | Hin].
    - vm_compute. intuition discriminate.
    - apply filter_In in Hin as [Hin _].
      exact (split_parts _ _ _ Hin). }
  split; [exact Hsplit|].
  intros entry Hin. rewrite Hsplit in Hin.
  destruct Hin as [<- | Hin]; [reflexivity|].
  apply filter_In in Hin as [_ H]. exact H.
Qed.

(* ================================================================== *)
(** ** The [execSync] hook for [cygpath] *)
(* ================================================================== *)

Section CygpathHook.

Import Cygpath.

Lemma firstSome_Some (A : Type) (f : nat -> option A) (l : list nat) (r : A) :
  firstSome f l = Some r -> exists n, In n l /\ f n = Some r.
Proof.
  induction l as [|n l IH]; [discriminate|].
  cbn [firstSome]. destruct (f n) as [x|] eqn:E.
  - intros [= <-]. exists n. split; [left; reflexivity | exact E].
  - intro H. destruct (IH H) as (m & Hin & Hm). exists m. split; auto.
    right. exact Hin.
Qed.

Lemma firstSome_None (A : Type) (f : nat -> option A) (l : list nat) :
  (forall n, In n l -> f n = None) -> firstSome f l = None.
Proof.
  induction l as [|n l IH]; intro H; [reflexivity|].
  cbn [firstSome]. rewrite (H n (or_introl eq_refl)).
  apply IH. intros m Hm. apply H. right. exact Hm.
Qed.

Lemma firstSome_app (A : Type) (f : nat -> option A) (pre l : list nat) :
  (forall n, In n pre -> f n = None) ->
  firstSome f (pre ++ l) = firstSome f l.
Proof.
  induction pre as [|n pre IH]; intro H; [reflexivity|].
  cbn [app firstSome]. rewrite (H n (or_introl eq_refl)).
  apply IH. intros m Hm. apply H. right. exact Hm.
Qed.

Lemma firstSome_seq (A : Type) (f : nat -> option A) (start len n : nat)
    (r : A) :
  (start <= n < start + len)%nat ->
  (forall m, (start <= m < n)%nat -> f m = None) ->
  f n = Some r ->
  firstSome f (seq start len) = Some r.
Proof.
  intros Hn Hnone Hsome.
  replace len with ((n - start) + S (start + len - S n))%nat by lia.
  rewrite seq_app, firstSome_app.
  - replace (start + (n - start))%nat with n by lia.
    cbn [seq firstSome]. rewrite Hsome. reflexivity.
  - intros m Hm. apply in_seq in Hm. apply Hnone. lia.
Qed.

Lemma In_counts (q : Quantifier) (min : nat) (max : option nat)
    (avail n : nat) :
  In n (counts q min max avail) ->
  (min <= n <= avail)%nat /\
  match max with Some m => (n <= m)%nat | None => True end.
Proof.
  unfold counts. intro H.
  assert (Hseq : In n (seq min
                         (S (match max with
                             | Some m => Nat.min m avail
                             | None => avail
                             end) - min))).
  { destruct q; [apply in_rev|]; exact H. }
  apply in_seq in Hseq. destruct max as [m|]; split; try exact I; lia.
Qed.

Lemma counts_greedy_all (min avail : nat) :
  (min <= avail)%nat ->
  exists fewer, counts Greedy min None avail = avail :: fewer.
Proof.
  intro H. unfold counts.
  replace (S avail - min)%nat with (S (avail - min)) by lia.
  rewrite seq_S, rev_app_distr. cbn [rev app].
  replace (min + (avail - min))%nat with avail by lia. eauto.
Qed.

Lemma run_firstn (cs : cset) (s : jsstring) (n : nat) :
  (n <= run cs s)%nat ->
  (forall c, In c (firstn n s) -> cset_mem false cs c = true) /\
  List.length (firstn n s) = n.
Proof.
  revert n. induction s as [|x s IH]; intros n Hn.
  - cbn [run] in Hn. replace n with 0%nat by lia. split; [intros c []|].
    reflexivity.
  - destruct n as [|n]; [split; [intros c [] | reflexivity]|].
    cbn [run] in Hn. destruct (cset_mem false cs x) eqn:E; [|lia].
    destruct (IH n ltac:(lia)) as [Hall Hlen].
    cbn [firstn]. split.
    + intros c [<- | Hc]; auto.
    + cbn [List.length]. rewrite Hlen. reflexivity.
Qed.

Lemma run_app (cs : cset) (a b : jsstring) :
  (forall c, In c a -> cset_mem false cs c = true) ->
  run cs (a ++ b) = (List.length a + run cs b)%nat.
Proof.
  induction a as [|x a IH]; intro H; [reflexivity|].
  cbn [app run List.length]. rewrite (H x (or_introl eq_refl)).
  rewrite IH; [reflexivity|]. intros c Hc. apply H. right. exact Hc.
Qed.

Lemma matchNodes_units_inv (l : jsstring) (rest : list Node) (s : jsstring)
    (g r : option jsstring) :
  matchNodes (map (fun c => Unit (CChar c)) l ++ rest) s g = Some r ->
  exists s', s = l ++ s' /\ matchNodes rest s' g = Some r.
Proof.
  revert s. induction l as [|x l IH]; intros s H.
  - exists s. auto.
  - cbn [map app matchNodes] in H. destruct s as [|c s]; [discriminate|].
    cbn [cset_mem] in H. destruct (N.eqb_spec x c) as [-> |]; [|discriminate].
    destruct (IH s H) as (s' & -> & Hs'). exists s'. auto.
Qed.

Lemma matchNodes_units (l : jsstring) (rest : list Node) (s : jsstring)
    (g : option jsstring) :
  matchNodes (map (fun c => Unit (CChar c)) l ++ rest) (l ++ s) g =
  matchNodes rest s g.
Proof.
  induction l as [|x l IH]; [reflexivity|].
  cbn [map app matchNodes cset_mem]. rewrite N.eqb_refl. exact IH.
Qed.

Lemma matchNodes_repeat_inv (q : Quantifier) (min : nat) (max : option nat)
    (cs : cset) (rest : list Node) (s : jsstring) (g r : option jsstring) :
  matchNodes (Repeat q min max cs :: rest) s g = Some r ->
  exists a b,
    s = a ++ b /\
    (forall c, In c a -> cset_mem false cs c = true) /\
    (min <= List.length a)%nat /\
    match max with Some m => (List.length a <= m)%nat | None => True end /\
    matchNodes rest b g = Some r.
Proof.
  cbn [matchNodes]. intro H.
  apply firstSome_Some in H as (n & Hin & Hn).
  apply In_counts in Hin as [[Hmin Hrun] Hmax].
  destruct (run_firstn cs s n Hrun) as [Hall Hlen].
  exists (firstn n s), (skipn n s). rewrite Hlen.
  split; [symmetry; apply firstn_skipn|]. auto.
Qed.

Lemma matchNodes_capture_inv (q : Quantifier) (min : nat) (max : option nat)
    (cs : cset) (rest : list Node) (s : jsstring) (g r : option jsstring) :
  matchNodes (Capture q min max cs :: rest) s g = Some r ->
  exists a b,
    s = a ++ b /\
    (forall c, In c a -> cset_mem false cs c = true) /\
    (min <= List.length a)%nat /\
    match max with Some m => (List.length a <= m)%nat | None => True end /\
    matchNodes rest b (Some a) = Some r.
Proof.
  cbn [matchNodes]. intro H.
  apply firstSome_Some in H as (n & Hin & Hn).
  apply In_counts in Hin as [[Hmin Hrun] Hmax].
  destruct (run_firstn cs s n Hrun) as [Hall Hlen].
  exists (firstn n s), (skipn n s). rewrite Hlen.
  split; [symmetry; apply firstn_skipn|]. auto.
Qed.

Lemma matchNodes_repeat_all (min : nat) (cs : cset) (rest : list Node)
    (a b : jsstring) (g r : option jsstring) :
  (forall c, In c a -> cset_mem false cs c = true) ->
  run cs b = 0%nat ->
  (min <= List.length a)%nat ->
  matchNodes rest b g = Some r ->
  matchNodes (Repeat Greedy min None cs :: rest) (a ++ b) g = Some r.
Proof.
  intros Ha Hb Hmin Hrest. cbn [matchNodes].
  rewrite (run_app cs a b Ha), Hb, Nat.add_0_r.
  destruct (counts_greedy_all min (List.length a) Hmin) as (fewer & ->).
  cbn [firstSome]. rewrite skipn_app, skipn_all, Nat.sub_diag.
  cbn [skipn app]. rewrite Hrest. reflexivity.
Qed.

Lemma matchNodes_optional_taken (cs : cset) (rest : list Node) (q : jschar)
    (t : jsstring) (g r : option jsstring) :
  cset_mem false cs q = true ->
  matchNodes rest t g = Some r ->
  matchNodes (Repeat Greedy 0 (Some 1%nat) cs :: rest) (q :: t) g = Some r.
Proof.
  intros Hq Hrest. cbn [matchNodes run]. rewrite Hq.
  unfold counts. cbn [Nat.min Nat.sub seq rev app firstSome skipn].
  rewrite Hrest. reflexivity.
Qed.

Lemma matchNodes_optional_present (cs : cset) (rest : list Node)
    (q : jschar) (t : jsstring) (g : option jsstring) :
  cset_mem false cs q = true ->
  matchNodes (Repeat Greedy 0 (Some 1%nat) cs :: rest) (q :: t) g =
    match matchNodes rest t g with
    | Some r => Some r
    | None => matchNodes rest (q :: t) g
    end.
Proof.
  intro Hq. cbn [matchNodes run]. rewrite Hq.
  unfold counts. cbn [Nat.min Nat.sub seq rev app firstSome skipn].
  destruct (matchNodes rest t g); [reflexivity|].
  destruct (matchNodes rest (q :: t) g); reflexivity.
Qed.

Lemma matchNodes_optional_skipped (cs : cset) (rest : list Node)
    (t : jsstring) (g : option jsstring) :
  run cs t = 0%nat ->
  matchNodes (Repeat Greedy 0 (Some 1%nat) cs :: rest) t g =
  matchNodes rest t g.
Proof.
  intro H. cbn [matchNodes]. rewrite H.
  unfold counts. cbn [Nat.min Nat.sub seq rev app firstSome skipn].
  destruct (matchNodes rest t g); reflexivity.
Qed.

Lemma matchNodes_capture_lazy (cs : cset) (rest : list Node)
    (a b : jsstring) (g r : option jsstring) :
  (forall c, In c a -> cset_mem false cs c = true) ->
  (1 <= List.length a)%nat ->
  (forall n, (1 <= n < List.length a)%nat ->
     matchNodes rest (skipn n (a ++ b)) (Some (firstn n (a ++ b))) = None) ->
  matchNodes rest b (Some a) = Some r ->
  matchNodes (Capture Lazy 1 None cs :: rest) (a ++ b) g = Some r.
Proof.
  intros Ha Hlen Hshort Hrest. cbn [matchNodes]. unfold counts.
  apply (firstSome_seq _ _ 1 _ (List.length a)).
  - rewrite (run_app cs a b Ha). lia.
  - exact Hshort.
  - rewrite skipn_app, skipn_all, Nat.sub_diag, firstn_app, firstn_all,
      Nat.sub_diag.
    cbn [skipn firstn app]. rewrite app_nil_r. exact Hrest.
Qed.

Lemma run_none (cs : cset) (c : jschar) (t : jsstring) :
  cset_mem false cs c = false -> run cs (c :: t) = 0%nat.
Proof. intro H. cbn [run]. rewrite H. reflexivity. Qed.

(** White space to the end of input. *)
Lemma trailing_spec (t : jsstring) (g : option jsstring) :
  matchNodes [Repeat Greedy 0 None CSpace; EndOfInput] t g =
    if forallb isWhiteSpace t then Some g else None.
Proof.
  destruct (forallb isWhiteSpace t) eqn:E.
  - rewrite <- (app_nil_r t) at 1. apply matchNodes_repeat_all.
    + intros c Hc. rewrite forallb_forall in E. exact (E c Hc).
    + reflexivity.
    + lia.
    + reflexivity.
  - cbn [matchNodes]. apply firstSome_None. intros n Hn.
    apply In_counts in Hn as [[_ Hrun] _].
    destruct (skipn n t) as [|c l] eqn:Es; [|reflexivity].
    exfalso. destruct (run_firstn CSpace t n Hrun) as [Hall _].
    rewrite <- (firstn_skipn n t), Es, app_nil_r in E.
    assert (forallb isWhiteSpace (firstn n t) = true)
      by (apply forallb_forall; exact Hall).
    congruence.
Qed.

(** The end of the pattern: an optional quote, white space, the end of
    input. *)
Lemma closing_spec (t : jsstring) (g : option jsstring) :
  matchNodes [Repeat Greedy 0 (Some 1%nat) quotes;
              Repeat Greedy 0 None CSpace; EndOfInput] t g =
    match t with
    | [] => Some g
    | c :: t' =>
        if cset_mem false quotes c && forallb isWhiteSpace t' then Some g
        else if forallb isWhiteSpace t then Some g else None
    end.
Proof.
  destruct t as [|c t'].
  - reflexivity.
  - destruct (cset_mem false quotes c) eqn:Hq.
    + rewrite matchNodes_optional_present by exact Hq.
      rewrite !trailing_spec. cbn [andb].
      destruct (forallb isWhiteSpace t'); [reflexivity|].
      destruct (forallb isWhiteSpace (c :: t')); reflexivity.
    + rewrite matchNodes_optional_skipped by (apply run_none; exact Hq).
      rewrite trailing_spec. reflexivity.
Qed.

Lemma closing_rejects (mid : jsstring) (last : jschar) (rest : jsstring)
    (g : option jsstring) :
  isWhiteSpace last = false ->
  cset_mem false quotes last = false ->
  matchNodes [Repeat Greedy 0 (Some 1%nat) quotes;
              Repeat Greedy 0 None CSpace; EndOfInput]
             (mid ++ last :: rest) g = None.
Proof.
  intros Hws Hq. rewrite closing_spec.
  assert (Hall : forall l, forallb isWhiteSpace (l ++ last :: rest) = false).
  { intro l. rewrite forallb_app. cbn [forallb]. rewrite Hws.
    apply andb_false_r. }
  destruct mid as [|c mid]; cbn [app].
  - pose proof (Hall []) as H0. cbn [app] in H0.
    rewrite Hq, H0. reflexivity.
  - pose proof (Hall (c :: mid)) as H0. cbn [app] in H0.
    rewrite (Hall mid), andb_false_r, H0. reflexivity.
Qed.

Lemma closing_accepts (close trailing : jsstring) (g : option jsstring) :
  (List.length close <= 1)%nat ->
  (forall c, In c close -> cset_mem false quotes c = true) ->
  forallb isWhiteSpace trailing = true ->
  matchNodes [Repeat Greedy 0 (Some 1%nat) quotes;
              Repeat Greedy 0 None CSpace; EndOfInput]
             (close ++ trailing) g = Some g.
Proof.
  intros Hlen Hq Hws. rewrite closing_spec.
  destruct close as [|q [|q' close]]; cbn [List.length] in Hlen; try lia;
    cbn [app].
  - destruct trailing as [|c t]; [reflexivity|]. rewrite Hws.
    destruct (_ && _); reflexivity.
  - rewrite (Hq q (or_introl eq_refl)), Hws. reflexivity.
Qed.

Lemma quotes_spec (c : jschar) :
  cset_mem false quotes c = true <-> c = 39%N \/ c = 34%N.
Proof.
  cbn [quotes cset_mem]. rewrite orb_true_iff, !N.eqb_eq.
  split; intros [H | H]; auto.
Qed.

Lemma search_here (nodes : list Node) (s : jsstring)
    (g : option jsstring) :
  matchNodes nodes s None = Some g -> search nodes s = Some g.
Proof. intro H. destruct s; cbn [search]; rewrite H; reflexivity. Qed.

Lemma search_inv (nodes : list Node) (s : jsstring) (g : option jsstring) :
  search nodes s = Some g ->
  exists pre s', s = pre ++ s' /\ matchNodes nodes s' None = Some g.
Proof.
  induction s as [|c s IH]; cbn [search].
  - destruct (matchNodes nodes [] None) eqn:E; [|discriminate].
    intros [= <-]. exists [], []. auto.
  - destruct (matchNodes nodes (c :: s) None) eqn:E.
    + intros [= <-]. exists [], (c :: s). auto.
    + intro H. destruct (IH H) as (pre & s' & -> & Hs').
      exists (c :: pre), s'. auto.
Qed.

(** What a match of the pattern is made of. *)
Lemma cygpathPattern_inv (s : jsstring) (g : option jsstring) :
  matchNodes cygpathPattern s None = Some g ->
  exists ws1 ws2 open captured close trailing,
    s = lit "cygpath" ++ ws1 ++ lit "-u" ++ ws2 ++ open ++ captured ++
        close ++ trailing /\
    g = Some captured /\
    (1 <= List.length ws1)%nat /\
    (forall c, In c ws1 -> isWhiteSpace c = true) /\
    (1 <= List.length ws2)%nat /\
    (forall c, In c ws2 -> isWhiteSpace c = true) /\
    (List.length open <= 1)%nat /\
    (forall c, In c open -> cset_mem false quotes c = true) /\
    (1 <= List.length captured)%nat /\
    (forall c, In c captured -> isLineTerminator c = false) /\
    (List.length close <= 1)%nat /\
    (forall c, In c close -> cset_mem false quotes c = true) /\
    (forall c, In c trailing -> isWhiteSpace c = true).
Proof.
  unfold cygpathPattern, literal. intro H.
  apply matchNodes_units_inv in H as (s1 & -> & H). cbn [app] in H.
  apply matchNodes_repeat_inv in H as (ws1 & s2 & -> & Hws1 & Hl1 & _ & H).
  apply matchNodes_units_inv in H as (s3 & -> & H).
  apply matchNodes_repeat_inv in H as (ws2 & s4 & -> & Hws2 & Hl2 & _ & H).
  apply matchNodes_repeat_inv in H as (open & s5 & -> & Hopen & _ & Hlo & H).
  apply matchNodes_capture_inv in H as (cap & s6 & -> & Hcap & Hlc & _ & H).
  apply matchNodes_repeat_inv in H as (close & s7 & -> & Hclose & _ & Hlcl & H).
  apply matchNodes_repeat_inv in H as (trailing & s8 & -> & Htr & _ & _ & H).
  destruct s8 as [|c s8]; [|discriminate]. injection H as <-.
  exists ws1, ws2, open, cap, close, trailing. rewrite app_nil_r.
  repeat split; auto.
  intros c Hc. specialize (Hcap c Hc). cbn [cset_mem] in Hcap.
  apply negb_true_iff in Hcap. exact Hcap.
Qed.

Lemma removeLineBreaks_none (s : jsstring) :
  (forall c, In c s -> isLineTerminator c = false) ->
  removeLineBreaks s = s.
Proof.
  induction s as [|x s IH]; intro H; [reflexivity|].
  cbn [removeLineBreaks filter]. fold (removeLineBreaks s).
  rewrite IH by (intros c Hc; apply H; right; exact Hc).
  pose proof (H x (or_introl eq_refl)) as Hx. cbn [cset_mem].
  destruct (N.eqb_spec 13 x) as [<- |]; [vm_compute in Hx; discriminate|].
  destruct (N.eqb_spec 10 x) as [<- |]; [vm_compute in Hx; discriminate|].
  reflexivity.
Qed.

Lemma removeLastQuote_none (pre : jsstring) (c : jschar) :
  cset_mem false quotes c = false ->
  removeLastQuote (pre ++ [c]) = pre ++ [c].
Proof.
  intro Hc. induction pre as [|x pre IH].
  - cbn [app removeLastQuote]. rewrite Hc. reflexivity.
  - cbn [app]. destruct (pre ++ [c]) as [|y l] eqn:E.
    + destruct pre; discriminate.
    + change (removeLastQuote (x :: y :: l))
        with (x :: removeLastQuote (y :: l)).
      rewrite IH. reflexivity.
Qed.

Lemma removeOuterQuotes_none (s : jsstring) :
  (forall c rest, s = c :: rest -> cset_mem false quotes c = false) ->
  (forall pre c, s = pre ++ [c] -> cset_mem false quotes c = false) ->
  removeOuterQuotes s = s.
Proof.
  intros Hfirst Hlast. destruct s as [|x s]; [reflexivity|].
  cbn [removeOuterQuotes]. rewrite (Hfirst x s eq_refl).
  destruct s as [|y s] using rev_ind; [reflexivity|].
  rewrite removeLastQuote_none; [reflexivity|].
  apply (Hlast (x :: s) y). reflexivity.
Qed.

End CygpathHook.

Lemma execSync_intercepted_inv (command path : jsstring) :
  Cygpath.execSync command = Cygpath.Intercepted path ->
  startsWith (lit "cygpath -u") command = true /\
  exists pre ws1 ws2 open captured close trailing,
    command = pre ++ lit "cygpath" ++ ws1 ++ lit "-u" ++ ws2 ++ open ++
              captured ++ close ++ trailing /\
    path = Runner.windowsToPosix (Cygpath.removeOuterQuotes captured) /\
    (1 <= List.length ws1)%nat /\
    (forall c, In c ws1 -> isWhiteSpace c = true) /\
    (1 <= List.length ws2)%nat /\
    (forall c, In c ws2 -> isWhiteSpace c = true) /\
    (List.length open <= 1)%nat /\
    (forall c, In c open -> cset_mem false Cygpath.quotes c = true) /\
    (1 <= List.length captured)%nat /\
    (forall c, In c captured -> isLineTerminator c = false) /\
    (List.length close <= 1)%nat /\
    (forall c, In c close -> cset_mem false Cygpath.quotes c = true) /\
    (forall c, In c trailing -> isWhiteSpace c = true).
Proof.
  unfold Cygpath.execSync.
  destruct (startsWith (lit "cygpath -u") command); [|discriminate].
  destruct (Cygpath.search Cygpath.cygpathPattern command) as [[cap|]|] eqn:E;
    try discriminate.
  intros [= <-]. split; [reflexivity|].
  apply search_inv in E as (pre & s' & -> & E).
  apply cygpathPattern_inv in E
    as (ws1 & ws2 & open & captured & close & trailing & -> & [= ->] & H).
  exists pre, ws1, ws2, open, captured, close, trailing.
  split; [reflexivity|].
  rewrite removeLineBreaks_none by apply H.
  split; [reflexivity | exact H].
Qed.

(** X22.  A [cygpath -u] command with a well-formed argument is answered
    by the hook itself.  The argument may stand between quotes, or have
    one on either side only, and white space, line breaks included, may
    follow it; when it has no line break inside, and neither white space
    nor a quote at its ends, the hook returns its translation to POSIX
    form and the original [execSync] is not called. *)
Theorem execSync_intercepts_path :
  forall (open p close trailing : jsstring),
    (List.length open <= 1)%nat ->
    (forall c, In c open -> cset_mem false Cygpath.quotes c = true) ->
    (List.length close <= 1)%nat ->
    (forall c, In c close -> cset_mem false Cygpath.quotes c = true) ->
    forallb isWhiteSpace trailing = true ->
    (forall c, In c p -> isLineTerminator c = false) ->
    (exists c rest, p = c :: rest /\ isWhiteSpace c = false /\
                    cset_mem false Cygpath.quotes c = false) ->
    (exists pre c, p = pre ++ [c] /\ isWhiteSpace c = false /\
                   cset_mem false Cygpath.quotes c = false) ->
    Cygpath.execSync (lit "cygpath -u " ++ open ++ p ++ close ++ trailing) =
      Cygpath.Intercepted (Runner.windowsToPosix p).
Proof.
  intros open p close trailing Hlo Hopen Hlc Hclose Htrailing Hline
         (x & rest & Hp & Hxws & Hxq) (pre & last & Hp' & Hlws & Hlq).
  unfold Cygpath.execSync.
  assert (Hstarts : forall t,
            startsWith (lit "cygpath -u") (lit "cygpath -u " ++ t) = true)
    by reflexivity.
  rewrite Hstarts.
  assert (Hmatch :
    Cygpath.matchNodes Cygpath.cygpathPattern
      (lit "cygpath -u " ++ open ++ p ++ close ++ trailing) None =
    Some (Some p)).
  { unfold Cygpath.cygpathPattern, Cygpath.literal.
    change (lit "cygpath -u " ++ open ++ p ++ close ++ trailing)
      with (lit "cygpath" ++
            ([32%N] ++
             (lit "-u" ++ ([32%N] ++ open ++ p ++ close ++ trailing)))).
    rewrite matchNodes_units. cbn [app].
    change (32%N :: lit "-u" ++ 32%N :: open ++ p ++ close ++ trailing)
      with ([32%N] ++
            (lit "-u" ++ ([32%N] ++ open ++ p ++ close ++ trailing))).
    apply matchNodes_repeat_all;
      [intros c [<- | []]; reflexivity | reflexivity | cbn; lia |].
    rewrite matchNodes_units.
    assert (Hcapture :
      Cygpath.matchNodes
        [Cygpath.Capture Cygpath.Lazy 1 None CDot;
         Cygpath.Repeat Cygpath.Greedy 0 (Some 1%nat) Cygpath.quotes;
         Cygpath.Repeat Cygpath.Greedy 0 None CSpace; Cygpath.EndOfInput]
        (p ++ close ++ trailing) None = Some (Some p)).
    { apply matchNodes_capture_lazy.
      - intros c Hc. cbn [cset_mem]. rewrite (Hline c Hc). reflexivity.
      - rewrite Hp. cbn [List.length]. lia.
      - intros n Hn. rewrite Hp' in *. rewrite length_app in Hn.
        cbn [List.length] in Hn. rewrite <- app_assoc, skipn_app.
        replace (n - List.length pre)%nat with 0%nat by lia.
        cbn [skipn app]. apply closing_rejects; assumption.
      - apply closing_accepts; assumption. }
    assert (Hx : Cygpath.run CSpace (p ++ close ++ trailing) = 0%nat /\
                 Cygpath.run Cygpath.quotes (p ++ close ++ trailing) = 0%nat).
    { rewrite Hp. cbn [app]. split; apply run_none; assumption. }
    destruct open as [|q [|q' open]]; cbn [List.length] in Hlo; try lia.
    - cbn [app]. change (32%N :: p ++ close ++ trailing)
        with ([32%N] ++ (p ++ close ++ trailing)).
      apply matchNodes_repeat_all;
        [intros c [<- | []]; reflexivity | apply Hx | cbn; lia |].
      rewrite matchNodes_optional_skipped by apply Hx. exact Hcapture.
    - pose proof (Hopen q (or_introl eq_refl)) as Hq.
      cbn [app]. change (32%N :: q :: p ++ close ++ trailing)
        with ([32%N] ++ (q :: p ++ close ++ trailing)).
      apply matchNodes_repeat_all;
        [intros c [<- | []]; reflexivity | | cbn; lia |].
      + apply run_none. apply quotes_spec in Hq as [-> | ->]; reflexivity.
      + apply matchNodes_optional_taken; [exact Hq | exact Hcapture]. }
  rewrite (search_here _ _ _ Hmatch).
  rewrite removeLineBreaks_none by exact Hline.
  rewrite removeOuterQuotes_none; [reflexivity | |].
  - intros c rest' E. rewrite Hp in E. injection E as <- _. exact Hxq.
  - intros pre' c E. rewrite Hp' in E. apply app_inj_tail in E as [_ <-].
    exact Hlq.
Qed.

Lemma execSync_intercepts_path_witness :
  Cygpath.execSync
    (lit "cygpath -u " ++ [39%N] ++
     (lit "C:" ++ bs ++ lit "Users" ++ bs ++ lit "me") ++ [39%N] ++
     [13%N; 10%N]) =
  Cygpath.Intercepted (lit "/c/Users/me").
Proof.
  apply (execSync_intercepts_path [39%N]
           (lit "C:" ++ bs ++ lit "Users" ++ bs ++ lit "me") [39%N]
           [13%N; 10%N]).
  - cbn. lia.
  - intros c [<- | []]. reflexivity.
  - cbn. lia.
  - intros c [<- | []]. reflexivity.
  - reflexivity.
  - intros c Hc. vm_compute in Hc.
    repeat (destruct Hc as [<- | Hc]; [reflexivity|]). destruct Hc.
  - exists 67%N, (lit ":" ++ bs ++ lit "Users" ++ bs ++ lit "me").
    repeat split; reflexivity.
  - exists (lit "C:" ++ bs ++ lit "Users" ++ bs ++ lit "m"), 101%N.
    repeat split; reflexivity.
Defined.

(** X23.  Whenever the hook answers a command itself, the command starts
    with [cygpath -u] and ends with an occurrence of [cygpath], white
    space, [-u], white space, an optional quote, an argument without line
    break, an optional quote and white space.  The path returned is the
    translation of that argument without its outer quotes (the removal of
    line breaks never finds one): it has no backslash, and translating it
    again changes nothing. *)
Theorem execSync_intercepted_shape :
  forall command path,
    Cygpath.execSync command = Cygpath.Intercepted path ->
    startsWith (lit "cygpath -u") command = true /\
    (exists pre ws1 ws2 open captured close trailing,
        command = pre ++ lit "cygpath" ++ ws1 ++ lit "-u" ++ ws2 ++ open ++
                  captured ++ close ++ trailing /\
        path = Runner.windowsToPosix (Cygpath.removeOuterQuotes captured) /\
        Cygpath.removeLineBreaks captured = captured /\
        (1 <= List.length ws1)%nat /\
        (forall c, In c ws1 -> isWhiteSpace c = true) /\
        (1 <= List.length ws2)%nat /\
        (forall c, In c ws2 -> isWhiteSpace c = true) /\
        (List.length open <= 1)%nat /\
        (forall c, In c open -> cset_mem false Cygpath.quotes c = true) /\
        (1 <= List.length captured)%nat /\
        (forall c, In c captured -> isLineTerminator c = false) /\
        (List.length close <= 1)%nat /\
        (forall c, In c close -> cset_mem false Cygpath.quotes c = true) /\
        (forall c, In c trailing -> isWhiteSpace c = true)) /\
    ~ In 92%N path /\
    Runner.windowsToPosix path = path.
Proof.
  intros command path H.
  destruct (execSync_intercepted_inv command path H)
    as (Hstarts & pre & ws1 & ws2 & open & captured & close & trailing &
        Hcommand & Hpath & Hrest).
  split; [exact Hstarts|]. split.
  - exists pre, ws1, ws2, open, captured, close, trailing.
    split; [exact Hcommand|]. split; [exact Hpath|].
    split; [apply removeLineBreaks_none; apply Hrest | exact Hrest].
  - rewrite Hpath. split.
    + apply (windowsToPosix_translated _).
    + apply translated_fixed, windowsToPosix_translated.
Qed.

Lemma execSync_intercepted_shape_witness :
  ~ In 92%N (lit "/d/a b") /\
  Runner.windowsToPosix (lit "/d/a b") = lit "/d/a b".
Proof.
  apply (execSync_intercepted_shape
           (lit "cygpath -u " ++ dq ++ lit "D:/a b" ++ dq ++ lit "  ")
           (lit "/d/a b")).
  vm_compute. reflexivity.
Defined.

(** X24.  A line break inside the argument defeats the hook.  When the
    command is [cygpath -u], one space and an argument that does not start
    with white space, has a line break in it and something other than
    white space after that line break, and [cygpath] occurs nowhere else
    in the command, the hook passes the command to the original
    [execSync]. *)
Theorem execSync_passes_embedded_line_break :
  forall (x : jschar) (a : jsstring) (c : jschar) (b : jsstring),
    isWhiteSpace x = false ->
    isLineTerminator c = true ->
    forallb isWhiteSpace b = false ->
    includes (lit "cygpath")
             (skipn 1 (lit "cygpath -u " ++ x :: a ++ c :: b)) = false ->
    Cygpath.execSync (lit "cygpath -u " ++ x :: a ++ c :: b) =
      Cygpath.PassThrough.
Proof.
  intros x a c b Hx Hc Hb Hinc.
  remember (lit "cygpath -u " ++ x :: a ++ c :: b) as command eqn:Hcmd.
  destruct (Cygpath.execSync command) as [path|] eqn:E; [|reflexivity].
  exfalso.
  destruct (execSync_intercepted_inv command path E)
    as (_ & pre & ws1 & ws2 & open & captured & close & trailing &
        Hcommand & _ & Hl1 & Hws1 & Hl2 & Hws2 & Hlo & Hopen & _ & Hcap &
        Hlc & Hclose & Htrailing).
  assert (Hquote : forall q, cset_mem false Cygpath.quotes q = true ->
                             q <> c).
  { intros q Hq ->. apply quotes_spec in Hq as [-> | ->]; discriminate Hc. }
  assert (Hafter : forall l t,
            (forall u, In u t -> isWhiteSpace u = true) ->
            t = l ++ c :: b -> False).
  { intros l t Ht ->.
    assert (forallb isWhiteSpace b = true).
    { apply forallb_forall. intros u Hu. apply Ht.
      apply in_app_iff. right. right. exact Hu. }
    congruence. }
  destruct pre as [|y pre].
  2:{ rewrite Hcommand in Hinc. cbn [app skipn] in Hinc.
      assert (includes (lit "cygpath")
                (pre ++ lit "cygpath" ++ ws1 ++ lit "-u" ++ ws2 ++ open ++
                 captured ++ close ++ trailing) = true)
        by (apply includes_spec; eauto).
      congruence. }
  cbn [app] in Hcommand. rewrite Hcmd in Hcommand.
  change (lit "cygpath -u " ++ x :: a ++ c :: b)
    with (lit "cygpath" ++
          32%N :: 45%N :: 117%N :: 32%N :: x :: a ++ c :: b) in Hcommand.
  apply app_inv_head in Hcommand.
  destruct ws1 as [|w1 [|w1' ws1]]; cbn [List.length] in Hl1; [lia | |].
  2:{ injection Hcommand as _ Hw _.
      pose proof (Hws1 w1' (or_intror (or_introl eq_refl))) as H.
      rewrite <- Hw in H. discriminate H. }
  change ([w1] ++ lit "-u" ++ ws2 ++ open ++ captured ++ close ++ trailing)
    with (w1 :: 45%N :: 117%N ::
          ws2 ++ open ++ captured ++ close ++ trailing) in Hcommand.
  injection Hcommand as _ Hcommand.
  destruct ws2 as [|w2 [|w2' ws2]]; cbn [List.length] in Hl2; [lia | |].
  2:{ injection Hcommand as _ Hw _.
      pose proof (Hws2 w2' (or_intror (or_introl eq_refl))) as H.
      rewrite <- Hw in H. congruence. }
  injection Hcommand as _ Hcommand.
  change (x :: a ++ c :: b) with ((x :: a) ++ c :: b) in Hcommand.
  rewrite (app_assoc open captured) in Hcommand.
  symmetry in Hcommand.
  apply app_eq_app in Hcommand as (l & [[H1 H2] | [H1 H2]]).
  - destruct l as [|c' l]; cbn [app] in H2.
    + destruct close as [|q [|q' close]]; cbn [List.length] in Hlc; try lia.
      * apply (Hafter [] trailing Htrailing). cbn [app]. symmetry. exact H2.
      * injection H2 as Hq _.
        apply (Hquote q (Hclose q (or_introl eq_refl))). symmetry. exact Hq.
    + injection H2 as <- _.
      assert (Hin : In c (open ++ captured))
        by (rewrite H1; apply in_app_iff; right; left; reflexivity).
      apply in_app_iff in Hin as [Hin | Hin].
      * exact (Hquote c (Hopen c Hin) eq_refl).
      * rewrite (Hcap c Hin) in Hc. discriminate.
  - destruct close as [|q [|q' close]]; cbn [List.length] in Hlc; try lia.
    + apply (Hafter l trailing Htrailing). exact H2.
    + destruct l as [|q' l]; cbn [app] in H2; injection H2 as Hq H2.
      * apply (Hquote q (Hclose q (or_introl eq_refl))). exact Hq.
      * apply (Hafter l trailing Htrailing). exact H2.
Qed.

Lemma execSync_passes_embedded_line_break_witness :
  Cygpath.execSync
    (lit "cygpath -u " ++ 39%N :: (lit "C:" ++ bs ++ lit "Us") ++
     13%N :: (lit "ers" ++ [39%N])) =
  Cygpath.PassThrough.
Proof.
  apply (execSync_passes_embedded_line_break 39%N
           (lit "C:" ++ bs ++ lit "Us") 13%N (lit "ers" ++ [39%N]));
    reflexivity.
Defined.

(* ================================================================== *)
(** ** The reasons of the validator *)
(* ================================================================== *)

(** X25.  The validator gives a reason exactly when it denies, and the
    reason is one of the fixed texts of its checks, none of which is
    empty: a denial never comes with an undefined or empty reason. *)
Theorem validateCommand_denial_has_reason :
  forall command,
    match Blocklist.reason (Blocklist.validateCommand command) with
    | None => Blocklist.allowed (Blocklist.validateCommand command) = true
    | Some r =>
        Blocklist.allowed (Blocklist.validateCommand command) = false /\
        r <> [] /\
        In r (Blocklist.unbalancedReason ::
              map Blocklist.c_reason Blocklist.cygpathRules ++
              Blocklist.pathLengthReason ::
              map Blocklist.s_reason Blocklist.safetyRules)
    end.
Proof.
  intro command.
  assert (Hall : forallb (fun t => negb (jsstring_eqb t []))
                   (Blocklist.unbalancedReason ::
                    map Blocklist.c_reason Blocklist.cygpathRules ++
                    Blocklist.pathLengthReason ::
                    map Blocklist.s_reason Blocklist.safetyRules) = true)
    by (vm_compute; reflexivity).
  rewrite forallb_forall in Hall.
  assert (Hreason : forall r,
            In r (Blocklist.unbalancedReason ::
                  map Blocklist.c_reason Blocklist.cygpathRules ++
                  Blocklist.pathLengthReason ::
                  map Blocklist.s_reason Blocklist.safetyRules) ->
            false = false /\ r <> [] /\
            In r (Blocklist.unbalancedReason ::
                  map Blocklist.c_reason Blocklist.cygpathRules ++
                  Blocklist.pathLengthReason ::
                  map Blocklist.s_reason Blocklist.safetyRules)).
  { intros r Hin. split; [reflexivity|]. split; [|exact Hin].
    intros ->. specialize (Hall [] Hin). discriminate Hall. }
  unfold Blocklist.validateCommand. destruct command as [|c l];
    [reflexivity|].
  destruct (Nat.odd _).
  { apply Hreason. left. reflexivity. }
  destruct (Blocklist.firstCygpath _ _) as [r|] eqn:Hcyg.
  { apply Hreason. right. apply in_app_iff. left.
    apply firstCygpath_reason in Hcyg. exact Hcyg. }
  destruct (Blocklist.pathTooLong _).
  { apply Hreason. right. apply in_app_iff. right. left. reflexivity. }
  destruct (Blocklist.firstSafety _ _) as [r|] eqn:Hsafe; [|reflexivity].
  apply Hreason. right. apply in_app_iff. right. right.
  apply firstSafety_Some in Hsafe as (rule & Hin & -> & _).
  apply in_map. exact Hin.
Qed.

(* ================================================================== *)
(** ** The environment *)
(* ================================================================== *)

Section EnvironmentFacts.

Import Environment.

Open Scope N_scope.

Lemma digit_not_space (d : jschar) :
  48 <= d <= 57 -> isWhiteSpace d = false.
Proof.
  intro H. unfold isWhiteSpace, inRange.
  repeat match goal with
         | |- context [(?a =? ?b)] =>
             replace (a =? b) with false by (symmetry; apply N.eqb_neq; lia)
         | |- context [(?a <=? ?b)] =>
             first
               [ replace (a <=? b) with false
                   by (symmetry; apply N.leb_gt; lia)
               | replace (a <=? b) with true
                   by (symmetry; apply N.leb_le; lia) ]
         end.
  reflexivity.
Qed.

Lemma digits_spec (fuel : nat) (n : N) (acc : jsstring) :
  n < 2 ^ N.of_nat (S fuel) ->
  exists ds d,
    digits (S fuel) n acc = ds ++ d :: acc /\
    48 <= d <= 57 /\
    fold_left (fun value c => 10 * value + (c - 48)) (ds ++ [d]) 0 = n.
Proof.
  revert n acc. induction fuel as [|fuel IH]; intros n acc Hn.
  - change (2 ^ N.of_nat 1) with 2 in Hn.
    assert (Hq : n / 10 = 0) by (apply N.div_small; lia).
    assert (Hm : n mod 10 = n) by (apply N.mod_small; lia).
    exists [], (48 + n). cbn [digits]. rewrite Hq, Hm. cbn [N.eqb app fold_left].
    split; [reflexivity|]. split; lia.
  - change (digits (S (S fuel)) n acc)
      with (if n / 10 =? 0 then (48 + n mod 10) :: acc
            else digits (S fuel) (n / 10) ((48 + n mod 10) :: acc)).
    pose proof (N.div_mod' n 10) as Hdiv.
    pose proof (N.mod_lt n 10 ltac:(lia)) as Hmod.
    destruct (N.eqb_spec (n / 10) 0) as [Hq | Hq].
    + exists [], (48 + n mod 10). cbn [app fold_left].
      split; [reflexivity|]. split; lia.
    + assert (Hlt : n / 10 < 2 ^ N.of_nat (S fuel)).
      { rewrite (Nat2N.inj_succ (S fuel)), N.pow_succ_r' in Hn.
        apply N.Div0.div_lt_upper_bound. lia. }
      destruct (IH (n / 10) ((48 + n mod 10) :: acc) Hlt)
        as (ds & d & -> & Hd & Hvalue).
      exists (ds ++ [d]), (48 + n mod 10).
      split; [rewrite <- app_assoc; reflexivity|].
      unfold jsstring, jschar in *.
      rewrite (fold_left_app _ (ds ++ [d])), Hvalue. cbn [fold_left].
      clear - Hdiv Hmod. set (r := n mod 10) in *. set (q := n / 10) in *.
      lia.
Qed.

Lemma decimal_spec (n : N) :
  exists ds d,
    decimal n = ds ++ [d] /\ 48 <= d <= 57 /\ parseInt (decimal n) = n.
Proof.
  unfold decimal, parseInt.
  destruct (digits_spec (N.to_nat (N.size n)) n []) as (ds & d & E & Hd & Hv).
  - rewrite Nat2N.inj_succ, N2Nat.id, N.pow_succ_r'.
    pose proof (N.size_gt n). lia.
  - exists ds, d. rewrite E. auto.
Qed.

Lemma includes_trimStart (p s : jsstring) (c : jschar) (rest : jsstring) :
  p = c :: rest -> isWhiteSpace c = false ->
  includes p s = true -> includes p (Startup.trimStart s) = true.
Proof.
  intros -> Hc. induction s as [|x s IH]; [auto|].
  cbn [Startup.trimStart]. destruct (isWhiteSpace x) eqn:Hx; [|auto].
  cbn [includes startsWith].
  destruct (N.eqb_spec c x) as [-> |]; [congruence|]. exact IH.
Qed.

Lemma includes_rev (p s : jsstring) :
  includes p s = true -> includes (rev p) (rev s) = true.
Proof.
  rewrite !includes_spec. intros (pre & post & ->).
  exists (rev post), (rev pre). rewrite !rev_app_distr, app_assoc.
  reflexivity.
Qed.

Lemma includes_trim (p s : jsstring) (first last : jschar)
    (rest front : jsstring) :
  p = first :: rest -> p = front ++ [last] ->
  isWhiteSpace first = false -> isWhiteSpace last = false ->
  includes p s = true -> includes p (Startup.trim s) = true.
Proof.
  intros Hfirst Hlast Hf Hl H. unfold Startup.trim, Startup.trimEnd.
  rewrite <- (rev_involutive p). apply includes_rev.
  apply (includes_trimStart _ _ last (rev front));
    [rewrite Hlast, rev_app_distr; reflexivity | exact Hl |].
  apply includes_rev.
  apply (includes_trimStart _ _ first rest); assumption.
Qed.

End EnvironmentFacts.

(** X26.  The heap size [setupEnvironment] asks for is at most 32768 MB
    and at most three quarters of the memory in whole megabytes, rounded
    down when below the cap.  Whatever [NODE_OPTIONS] was, afterwards it
    names the heap flag, and a value that names it already is kept as it
    is, so that setting up again, with any memory size, changes nothing.
    With the variable unset the new value is the flag alone, carrying the
    heap size in decimal. *)
Theorem setupEnvironment_heap :
  (forall totalmem,
      (Environment.heapSizeMB totalmem <= 32768)%N /\
      (4 * Environment.heapSizeMB totalmem <= 3 * (totalmem / 1048576))%N /\
      ((Environment.heapSizeMB totalmem < 32768)%N ->
       (3 * (totalmem / 1048576) <
        4 * Environment.heapSizeMB totalmem + 4)%N)) /\
  (forall totalmem nodeOptions,
      exists o,
        Environment.NODE_OPTIONS
          (Environment.setupEnvironment totalmem nodeOptions) = Some o /\
        includes (lit "max-old-space-size") o = true /\
        (forall totalmem',
            Environment.setupEnvironment totalmem' (Some o) =
            Environment.setupEnvironment totalmem nodeOptions)) /\
  (forall totalmem,
      Environment.NODE_OPTIONS
        (Environment.setupEnvironment totalmem None) =
        Some (lit "--max-old-space-size=" ++
              Environment.decimal (Environment.heapSizeMB totalmem)) /\
      Environment.parseInt
        (Environment.decimal (Environment.heapSizeMB totalmem)) =
        Environment.heapSizeMB totalmem).
Proof.
  split; [|split].
  - intro totalmem. unfold Environment.heapSizeMB.
    change (1024 * 1024)%N with 1048576%N.
    set (m := (totalmem / 1048576)%N).
    pose proof (N.div_mod' (m * 3) 4) as Hdiv.
    pose proof (N.mod_lt (m * 3) 4 ltac:(lia)) as Hmod.
    set (q := (m * 3 / 4)%N) in *. set (r := ((m * 3) mod 4)%N) in *.
    lia.
  - intros totalmem nodeOptions.
    assert (Hkeep : forall t o,
              includes (lit "max-old-space-size") o = true ->
              Environment.setupEnvironment t (Some o) =
              Environment.mkEnv (lit "1") (lit "*") (lit "1") (Some o)).
    { intros t o H. unfold Environment.setupEnvironment. rewrite H.
      reflexivity. }
    assert (Hadd : forall old,
              includes (lit "max-old-space-size")
                (Startup.trim
                   (old ++ lit " --max-old-space-size=" ++
                    Environment.decimal (Environment.heapSizeMB totalmem))) =
              true).
    { intro old.
      apply (includes_trim _ _ 109%N 101%N (lit "ax-old-space-size")
               (lit "max-old-space-siz")); try reflexivity.
      apply includes_spec.
      exists (old ++ lit " --"),
             (lit "=" ++ Environment.decimal
                           (Environment.heapSizeMB totalmem)).
      rewrite <- !app_assoc. reflexivity. }
    assert (Hnew : forall old,
              exists o,
                Environment.mkEnv (lit "1") (lit "*") (lit "1")
                  (Some (Startup.trim
                           (old ++ lit " --max-old-space-size=" ++
                            Environment.decimal
                              (Environment.heapSizeMB totalmem)))) =
                Environment.mkEnv (lit "1") (lit "*") (lit "1") (Some o) /\
                includes (lit "max-old-space-size") o = true).
    { intro old. eexists. split; [reflexivity | apply Hadd]. }
    assert (Hset :
      Environment.setupEnvironment totalmem nodeOptions =
        Environment.mkEnv (lit "1") (lit "*") (lit "1") nodeOptions /\
      (exists o, nodeOptions = Some o /\
                 includes (lit "max-old-space-size") o = true) \/
      Environment.setupEnvironment totalmem nodeOptions =
        Environment.mkEnv (lit "1") (lit "*") (lit "1")
          (Some (Startup.trim
                   (match nodeOptions with Some o => o | None => [] end ++
                    lit " --max-old-space-size=" ++
                    Environment.decimal
                      (Environment.heapSizeMB totalmem))))).
    { unfold Environment.setupEnvironment.
      destruct nodeOptions as [o|]; [|right; reflexivity].
      destruct (includes (lit "max-old-space-size") o) eqn:E;
        [left; eauto | right; reflexivity]. }
    destruct Hset as [[Hset (o & -> & Ho)] | Hset]; rewrite Hset.
    + exists o. split; [reflexivity|]. split; [exact Ho|].
      intro t. apply Hkeep. exact Ho.
    + destruct (Hnew (match nodeOptions with Some o => o | None => [] end))
        as (o & -> & Ho).
      exists o. split; [reflexivity|]. split; [exact Ho|].
      intro t. apply Hkeep. exact Ho.
  - intro totalmem.
    destruct (decimal_spec (Environment.heapSizeMB totalmem))
      as (ds & d & E & Hd & Hvalue).
    split; [|exact Hvalue].
    unfold Environment.setupEnvironment. cbn [Environment.NODE_OPTIONS app].
    f_equal. unfold Startup.trim.
    change (Startup.trimStart
              (lit " --max-old-space-size=" ++
               Environment.decimal (Environment.heapSizeMB totalmem)))
      with (lit "--max-old-space-size=" ++
            Environment.decimal (Environment.heapSizeMB totalmem)).
    apply trimEnd_fixed. intros pre c Hc. rewrite E, app_assoc in Hc.
    apply app_inj_tail in Hc as [_ <-]. apply digit_not_space. exact Hd.
Qed.
